(** * esp32-homekit: the C++ characteristic / accessory bridge (hap.hpp, hap.cpp)

    A shallow embedding of the bridging layer of the HomeKit component:
    the fixed-point codec of [FloatCharacteristic], the capability model of
    [Characteristic] and its typed and functional subclasses, the transfer
    structure built by [get_characteristic_struct], and the accessory
    bring-up ([register_accessory], [init_callback], [add_service]).

    The target is the ESP32: [int] and [void*] are both 32 bits wide, [float]
    is IEEE-754 binary32.  Calls into the host library (hap.h) are recorded in
    an event trace. *)

From stdpp Require Import gmap strings list.
From Stdlib Require Import ZArith QArith Qabs Lia.
From Stdlib Require Import Floats.SpecFloat.

Open Scope Z_scope.

(** ** Machine integers and the pointer-sized payload *)

Definition int_min : Z := - 2 ^ 31.
Definition int_max : Z := 2 ^ 31 - 1.

(** An untyped pointer on the target: an unsigned 32-bit pattern,
    [nullptr] is 0. *)
Abbreviation payload := Z.
Definition nullptr : payload := 0.

(** [reinterpret_cast] of an [int] to a pointer: the same 32 bits. *)
Definition int_to_ptr (n : Z) : payload := n mod 2 ^ 32.

(** [reinterpret_cast] of a pointer to an [int]: the same 32 bits, signed. *)
Definition ptr_to_int (p : payload) : Z :=
  let u := p mod 2 ^ 32 in if u <? 2 ^ 31 then u else u - 2 ^ 32.

(** ** IEEE-754 binary32, over the Standard Library's [spec_float] *)

Module Float32.

Definition prec : Z := 24.
Definition emax : Z := 128.

Definition float : Type := spec_float.

Definition mul : float -> float -> float := SFmul prec emax.
Definition div : float -> float -> float := SFdiv prec emax.

(** Conversion of an [int] to [float] (round to nearest, ties to even). *)
Definition of_int (n : Z) : float := binary_normalize prec emax n 0 false.

(** The literal [100.0f]. *)
Definition hundred : float := of_int 100.

(** Magnitude of the nearest integer to [m * 2^e], halfway cases away
    from zero. *)
Definition round_magnitude (m : positive) (e : Z) : Z :=
  match e with
  | Z0 => Zpos m
  | Zpos _ => Z.shiftl (Zpos m) e
  | Zneg p => Z.shiftr (Z.shiftr (Zpos m) (Zpos p - 1) + 1) 1
  end.

(** [round] of <math.h>: the result is an integer-valued float, always
    exactly representable, so the [float] and the [double] overload agree
    on a [float] argument. *)
Definition round (x : float) : float :=
  match x with
  | S754_finite s m e =>
      binary_normalize prec emax (cond_Zopp s (round_magnitude m e)) 0 s
  | _ => x
  end.

(** Magnitude of [m * 2^e] truncated toward zero. *)
Definition trunc_magnitude (m : positive) (e : Z) : Z :=
  match e with
  | Z0 => Zpos m
  | Zpos _ => Z.shiftl (Zpos m) e
  | Zneg p => Z.shiftr (Zpos m) (Zpos p)
  end.

(** [static_cast] of a [float] to [int]: truncation; the behaviour is undefined
    ([None]) for NaN, infinities and values outside the range of [int]. *)
Definition to_int (x : float) : option Z :=
  match x with
  | S754_zero _ => Some 0
  | S754_finite s m e =>
      let n := cond_Zopp s (trunc_magnitude m e) in
      if (int_min <=? n) && (n <=? int_max) then Some n else None
  | _ => None
  end.

(** The rational value of a finite float. *)
Definition to_Q (x : float) : Q :=
  match x with
  | S754_finite s m e => (inject_Z (cond_Zopp s (Zpos m)) * Qpower 2 e)%Q
  | _ => 0%Q
  end.

Definition is_finite (x : float) : bool :=
  match x with
  | S754_zero _ | S754_finite _ _ _ => true
  | _ => false
  end.

(** A well-formed binary32 datum. *)
Definition valid (x : float) : bool := valid_binary prec emax x.

End Float32.

Abbreviation float := Float32.float.

(** ** The fixed-point codec of [FloatCharacteristic] (hap.hpp 277-287) *)

(** [floatToVoid]: the product with [100.0f] is rounded, cast to [int], and
    the same bits are returned as a pointer. *)
Definition floatToVoid (value : float) : option payload :=
  match Float32.to_int (Float32.round (Float32.mul value Float32.hundred)) with
  | Some intValue => Some (int_to_ptr intValue)
  | None => None
  end.

(** [voidToFloat]: [intValue / 100.0f]. *)
Definition voidToFloat (value : payload) : float :=
  let intValue := ptr_to_int value in
  Float32.div (Float32.of_int intValue) Float32.hundred.

(** The float 21.5. *)
Definition f_21_5 : float := S754_finite false 11272192 (-19).
(** The float 167772.25, exactly 16777225 hundredths. *)
Definition f_167772_25 : float := S754_finite false 10737424 (-6).
(** The float 65536.0234375, the binary32 value nearest to 65536.02. *)
Definition f_65536_02 : float := S754_finite false 8388611 (-7).

(** [v] is exactly [k] hundredths. *)
Definition is_hundredths (v : float) (k : Z) : Prop :=
  Float32.valid v = true /\ Float32.is_finite v = true /\
  (Float32.to_Q v == inject_Z k / 100)%Q.

(** Decoding the encoding of [v] is defined and lands within [tol] of [v]. *)
Definition roundtrip_within (tol : Q) (v : float) : Prop :=
  exists p, floatToVoid v = Some p /\
    (Qabs (Float32.to_Q (voidToFloat p) - Float32.to_Q v) <= tol)%Q.

(** *** Vocabulary for the rounding of binary32 results *)

(** Round to nearest, ties to even, from the round and the sticky bit. *)
Definition Zrne (q : Z) (r s : bool) : Z :=
  if r && (s || Z.odd q) then q + 1 else q.

(** The round and the sticky bit that a location stands for. *)
Definition loc_r (l : location) : bool :=
  match l with loc_Inexact Eq | loc_Inexact Gt => true | _ => false end.
Definition loc_s (l : location) : bool :=
  match l with loc_Inexact Lt | loc_Inexact Gt => true | _ => false end.

(** The mantissa [m] rounded to nearest even once its low [n] bits are
    dropped; [r0] and [s0] say what lies below [m] itself. *)
Definition Zround_shift (m n : Z) (r0 s0 : bool) : Z :=
  if n =? 0 then Zrne m r0 s0
  else Zrne (m / 2 ^ n) (Z.odd (m / 2 ^ (n - 1)))
            (r0 || s0 || negb (m mod 2 ^ (n - 1) =? 0)).

(** A rounded mantissa as a binary32 datum: 2^24 is renormalised. *)
Definition Znormal (sx : bool) (m' e : Z) : spec_float :=
  if m' <? 16777216 then S754_finite sx (Z.to_pos m') e
  else S754_finite sx 8388608 (e + 1).

(** The counts of hundredths on which the round trip is exact: the
    magnitudes below 65536.00. *)
Definition codec_bound : Z := 6553600.

(** ** Declarations of hap.h *)

(** Modelled from the spec: hap.h is not among the sources.  Of its
    enumerations only the constants named in hap.cpp are listed, every other
    constant is carried as its number. *)
Inductive hap_characteristic_type : Type :=
| HAP_CHARACTER_IDENTIFY
| HAP_CHARACTER_MANUFACTURER
| HAP_CHARACTER_MODEL
| HAP_CHARACTER_NAME
| HAP_CHARACTER_SERIAL_NUMBER
| HAP_CHARACTER_FIRMWARE_REVISION
| HAP_CHARACTER_number (n : Z).

(** Modelled from the spec: the service types of hap.h, of which hap.cpp
    names one. *)
Inductive hap_service_type : Type :=
| HAP_SERVICE_ACCESSORY_INFORMATION
| HAP_SERVICE_number (n : Z).

(** Modelled from the spec: the category enumeration of hap.h, carried as
    its number. *)
Definition hap_accessory_category : Type := Z.

(** The functions of hap.cpp whose addresses are handed to the host. *)
Inductive callback : Type :=
| identify_read_fn
| read_characteristic_fn
| write_characteristic_fn
| set_characteristic_event_handle_fn
| accessory_init_fn.

(** Modelled from the spec: [struct hap_characteristic] of hap.h, its fields
    in the order of the initialisers of [init_callback]. *)
Record hap_characteristic : Type := {
  hc_type : hap_characteristic_type;
  hc_initial_value : payload;
  hc_callback_arg : payload;
  hc_read : option callback;
  hc_write : option callback;
  hc_event : option callback;
}.

(** Modelled from the spec: [struct hap_characteristic_ex] of hap.h, the
    transfer structure, its fields in the order of the initialiser of
    [get_characteristic_struct]. *)
Record hap_characteristic_ex : Type := {
  type : hap_characteristic_type;
  initial_value : payload;
  callback_arg : payload;
  read_fn : option callback;
  write_fn : option callback;
  event_fn : option callback;
  override_max_value : bool;
  max_value : payload;
  override_min_value : bool;
  min_value : payload;
  reserved_flag : bool;
  reserved_pointer : payload;
  override_valid_values : bool;
  valid_values_length : Z;
  valid_values : payload;
}.

(** ** Observable events: host calls, storage management, dispatches *)

(** What a run leaves behind, in order: the calls into the host library
    (the functions of hap.h are not among the sources: a call is recorded
    with its arguments, and what the host returns is a parameter of the
    model), the calls of [new] and [delete] for arrays, the entries into
    [value_changed], the calls of listeners, and the two assignments the
    bridge has to make before it calls the host: of the static flag
    [hap_initialized] (hap.cpp 86) and of a characteristic's back-reference
    (hap.cpp 133). *)
Inductive event : Type :=
| Ev_hap_init
| Ev_hap_accessory_register
    (name id setup_code manufacturer : payload)
    (category : hap_accessory_category) (port config_number : Z)
    (context : payload) (cb : callback)
| Ev_hap_accessory_add (handle : payload)
| Ev_hap_service_and_characteristics_add
    (handle object : payload) (ty : hap_service_type)
    (cs : list hap_characteristic) (count : Z)
| Ev_hap_service_and_characteristics_ex_add
    (handle object : payload) (ty : hap_service_type)
    (cs : list hap_characteristic_ex) (count : Z)
| Ev_hap_event_response (handle ev_handle value : payload)
| Ev_new (address : payload)
| Ev_delete (address : payload)
| Ev_value_changed (this : payload) (new_value : payload)
| Ev_listener (this : payload) (index : nat)
| Ev_hap_initialized_set
| Ev_accessory_handle_set (this : payload) (handle : payload).

(** ** Storage: arrays from [new], character buffers of strings *)

Inductive block : Type :=
| BInts (content : list Z)
| BChars (content : string)
| BStructs (size : nat).

(** A storage cell keeps its address for ever; a released one is [Freed]. *)
Inductive cell : Type :=
| Live (b : block)
| Freed.

Abbreviation memory := (list cell).

(** Cell number [i] has address [i + 1], so no block sits at [nullptr]. *)
Definition address_of (i : nat) : payload := Z.of_nat i + 1.
Definition index_of (a : payload) : option nat :=
  if 1 <=? a then Some (Z.to_nat (a - 1)) else None.

Definition deref (m : memory) (a : payload) : option block :=
  match index_of a with
  | Some i => match m !! i with Some (Live b) => Some b | _ => None end
  | None => None
  end.

(** Allocation takes the next unused address. *)
Definition allocate (b : block) (m : memory) : payload * memory :=
  (address_of (length m), m ++ [Live b]).

(** Releasing an address that holds no live block is undefined. *)
Definition release (a : payload) (m : memory) : option memory :=
  match index_of a with
  | Some i => match m !! i with
              | Some (Live _) => Some (<[i := Freed]> m)
              | _ => None
              end
  | None => None
  end.

(** The characters a [char*] denotes: up to the first NUL. *)
Fixpoint until_nul (s : string) : string :=
  match s with
  | EmptyString => EmptyString
  | String c r => if Ascii.eqb c Ascii.zero then EmptyString
                  else String c (until_nul r)
  end.

Definition c_string_at (m : memory) (a : payload) : option string :=
  match deref m a with
  | Some (BChars s) => Some (until_nul s)
  | _ => None
  end.

(** ** The process state *)

Section Bridge.

(** The state the user's code owns: what the closures of the functional
    characteristics capture, and the fields of user subclasses. *)
Context {U : Type}.

(** A [std::function] taking the characteristic; [None] is an empty one. *)
Definition listener : Type := option (payload -> U -> U).

(** The data members of [Characteristic].  [accessory_handle] has no
    initialiser: it is indeterminate ([None]) until assigned. *)
Record Characteristic : Type := {
  c_type : hap_characteristic_type;
  accessory_handle : option payload;
  event_handle : payload;
  value_changed_listeners : list listener;
}.

(** The data members of [Accessory].  The identity strings are references
    to strings of the caller: each is the address of the characters,
    which is what [c_str] returns.  [init] is user code, given by the
    [add_service] calls it makes, in order. *)
Record Accessory : Type := {
  name : payload;
  id : payload;
  setup_code : payload;
  manufacturer_name : payload;
  firmware_version : payload;
  model : payload;
  serial_number : payload;
  category : hap_accessory_category;
  port : Z;
  configuration_version : Z;
  a_accessory_handle : payload;
  accessory_object : payload;
  init : list (hap_service_type * list payload);
}.

Record World : Type := {
  user : U;
  store : memory;
  characteristics : gmap Z Characteristic;
  accessories : gmap Z Accessory;
  hap_initialized : bool;
  trace : list event;
}.

Definition set_user (u : U) (w : World) : World :=
  {| user := u; store := store w; characteristics := characteristics w;
     accessories := accessories w; hap_initialized := hap_initialized w;
     trace := trace w |}.
Definition set_store (m : memory) (w : World) : World :=
  {| user := user w; store := m; characteristics := characteristics w;
     accessories := accessories w; hap_initialized := hap_initialized w;
     trace := trace w |}.
Definition set_characteristics (cs : gmap Z Characteristic) (w : World) : World :=
  {| user := user w; store := store w; characteristics := cs;
     accessories := accessories w; hap_initialized := hap_initialized w;
     trace := trace w |}.
Definition set_accessories (acs : gmap Z Accessory) (w : World) : World :=
  {| user := user w; store := store w; characteristics := characteristics w;
     accessories := acs; hap_initialized := hap_initialized w;
     trace := trace w |}.
Definition set_hap_initialized (b : bool) (w : World) : World :=
  {| user := user w; store := store w; characteristics := characteristics w;
     accessories := accessories w; hap_initialized := b;
     trace := trace w |}.
Definition emit (e : event) (w : World) : World :=
  {| user := user w; store := store w; characteristics := characteristics w;
     accessories := accessories w; hap_initialized := hap_initialized w;
     trace := trace w ++ [e] |}.

(** *** Computations: state passing; [None] is an execution that does not
    return (undefined behaviour, or an exception such as
    [std::bad_function_call] leaving the bridge). *)
Definition M (A : Type) : Type := World -> option (A * World).

Definition ret {A} (a : A) : M A := fun w => Some (a, w).
Definition bind {A B} (m : M A) (k : A -> M B) : M B :=
  fun w => match m w with Some (a, w') => k a w' | None => None end.
Definition fail {A} : M A := fun _ => None.
Definition get : M World := fun w => Some (w, w).
Definition modify (f : World -> World) : M unit := fun w => Some (tt, f w).
Definition lift {A} (o : option A) : M A :=
  fun w => match o with Some a => Some (a, w) | None => None end.

#[local] Instance M_ret : MRet M := @ret.
#[local] Instance M_bind : MBind M := fun A B k m => bind m k.

Definition log (e : event) : M unit := modify (emit e).

(** Following a [Characteristic*] or an [Accessory*]. *)
Definition the_characteristic (this : payload) : M Characteristic :=
  w ← get; lift (characteristics w !! this).
Definition the_accessory (this : payload) : M Accessory :=
  w ← get; lift (accessories w !! this).

Definition put_characteristic (this : payload) (c : Characteristic) : M unit :=
  modify (fun w => set_characteristics (<[this := c]> (characteristics w)) w).
Definition put_accessory (this : payload) (a : Accessory) : M unit :=
  modify (fun w => set_accessories (<[this := a]> (accessories w)) w).

(** [new T[n]] and [delete[]]. *)
Definition new_array (b : block) : M payload :=
  w ← get;
  let '(a, m) := allocate b (store w) in
  modify (set_store m);; log (Ev_new a);; ret a.
Definition delete_array (a : payload) : M unit :=
  w ← get;
  m ← lift (release a (store w));
  modify (set_store m);; log (Ev_delete a).


(** ** The capability model: [class Characteristic] *)

(** The virtual functions of [Characteristic].  The [const] ones look at the
    user's state and at storage only; [write] is a full computation, given
    [this], the value and the length. *)
Record Characteristic_vtable : Type := {
  read : U -> memory -> option (payload * memory);
  canRead : U -> bool;
  write : payload -> payload -> Z -> M unit;
  canWrite : U -> bool;
  get_max_value_override : U -> option (bool * payload);
  get_min_value_override : U -> option (bool * payload);
  get_valid_values_override : U -> bool * list Z;
}.

(** The host's [hap_event_response]. *)
Definition hap_event_response (handle ev_handle value : payload) : M unit :=
  log (Ev_hap_event_response handle ev_handle value).

(** The loop over [value_changed_listeners]: an empty [std::function] is
    skipped, every other one is called with [this]. *)
Fixpoint call_listeners (this : payload) (i : nat) (ls : list listener) : M unit :=
  match ls with
  | [] => ret tt
  | l :: rest =>
      match l with
      | Some f => log (Ev_listener this i);;
                  modify (fun w => set_user (f this (user w)) w)
      | None => ret tt
      end;;
      call_listeners this (S i) rest
  end.

(** [Characteristic::value_changed] (hap.hpp 60-71).  Passing
    [accessory_handle] to the host reads it: undefined while indeterminate. *)
Definition value_changed (this new_value : payload) : M unit :=
  log (Ev_value_changed this new_value);;
  c ← the_characteristic this;
  (if event_handle c =? nullptr then ret tt
   else h ← lift (accessory_handle c);
        hap_event_response h (event_handle c) new_value);;
  call_listeners this 0 (value_changed_listeners c).

(** [Characteristic::set_event_handle] (hap.hpp 138-141). *)
Definition set_event_handle (this handle : payload) (enable : bool) : M unit :=
  c ← the_characteristic this;
  put_characteristic this
    {| c_type := c_type c; accessory_handle := accessory_handle c;
       event_handle := if enable then handle else nullptr;
       value_changed_listeners := value_changed_listeners c |}.

(** [Characteristic::register_for_notifications] (hap.hpp 38-41). *)
Definition register_for_notifications (this : payload) (cb : listener) : M unit :=
  c ← the_characteristic this;
  put_characteristic this
    {| c_type := c_type c; accessory_handle := accessory_handle c;
       event_handle := event_handle c;
       value_changed_listeners := value_changed_listeners c ++ [cb] |}.

(** ** The typed bridges *)

(** [class StringCharacteristic]: its pure virtuals, and the probes a
    subclass supplies. *)
Record StringCharacteristic : Type := {
  readString : U -> option string;
  writeString : string -> U -> option U;
  string_canRead : U -> bool;
  string_canWrite : U -> bool;
}.

(** [StringCharacteristic::read] (hap.hpp 195-198).  [readString] returns a
    [std::string] by value: a temporary, whose characters [c_str] points at,
    and which is destroyed when the [return] statement is complete. *)
Definition StringCharacteristic_read (sc : StringCharacteristic)
    (u : U) (m : memory) : option (payload * memory) :=
  s ← readString sc u;
  let '(temporary, m1) := allocate (BChars s) m in
  let result := temporary in
  m2 ← release temporary m1;
  Some (result, m2).

(** [StringCharacteristic::write] (hap.hpp 200-204): [len] is not used, the
    characters are taken up to the first NUL. *)
Definition StringCharacteristic_write (sc : StringCharacteristic)
    (this value : payload) (len : Z) : M unit :=
  w ← get;
  s ← lift (c_string_at (store w) value);
  u ← lift (writeString sc s (user w));
  modify (set_user u);;
  value_changed this value.

Definition StringCharacteristic_vtable (sc : StringCharacteristic)
    : Characteristic_vtable :=
  {| read := StringCharacteristic_read sc;
     canRead := string_canRead sc;
     write := StringCharacteristic_write sc;
     canWrite := string_canWrite sc;
     get_max_value_override := fun _ => Some (false, nullptr);
     get_min_value_override := fun _ => Some (false, nullptr);
     get_valid_values_override := fun _ => (false, []) |}.

(** [class FloatCharacteristic]. *)
Record FloatCharacteristic : Type := {
  readFloat : U -> option float;
  writeFloat : float -> U -> option U;
  float_canRead : U -> bool;
  float_canWrite : U -> bool;
  get_max_value_override_float : U -> bool * float;
  get_min_value_override_float : U -> bool * float;
}.

(** [FloatCharacteristic::read] (hap.hpp 245-248). *)
Definition FloatCharacteristic_read (fc : FloatCharacteristic)
    (u : U) (m : memory) : option (payload * memory) :=
  v ← readFloat fc u;
  p ← floatToVoid v;
  Some (p, m).

(** [FloatCharacteristic::write] (hap.hpp 250-254). *)
Definition FloatCharacteristic_write (fc : FloatCharacteristic)
    (this value : payload) (len : Z) : M unit :=
  w ← get;
  u ← lift (writeFloat fc (voidToFloat value) (user w));
  modify (set_user u);;
  value_changed this value.

(** The erased override probes of the float bridge (hap.hpp 261-272). *)
Definition FloatCharacteristic_override (probe : U -> bool * float)
    (u : U) : option (bool * payload) :=
  let result := probe u in
  p ← floatToVoid (snd result);
  Some (fst result, p).

Definition FloatCharacteristic_vtable (fc : FloatCharacteristic)
    : Characteristic_vtable :=
  {| read := FloatCharacteristic_read fc;
     canRead := float_canRead fc;
     write := FloatCharacteristic_write fc;
     canWrite := float_canWrite fc;
     get_max_value_override :=
       FloatCharacteristic_override (get_max_value_override_float fc);
     get_min_value_override :=
       FloatCharacteristic_override (get_min_value_override_float fc);
     get_valid_values_override := fun _ => (false, []) |}.

(** [class IntCharacteristic]. *)
Record IntCharacteristic : Type := {
  readInt : U -> option Z;
  writeInt : Z -> U -> option U;
  int_canRead : U -> bool;
  int_canWrite : U -> bool;
  get_max_value_override_int : U -> bool * Z;
  get_min_value_override_int : U -> bool * Z;
}.

(** [IntCharacteristic::read] (hap.hpp 328-331). *)
Definition IntCharacteristic_read (ic : IntCharacteristic)
    (u : U) (m : memory) : option (payload * memory) :=
  v ← readInt ic u;
  Some (int_to_ptr v, m).

(** [IntCharacteristic::write] (hap.hpp 333-337). *)
Definition IntCharacteristic_write (ic : IntCharacteristic)
    (this value : payload) (len : Z) : M unit :=
  w ← get;
  u ← lift (writeInt ic (ptr_to_int value) (user w));
  modify (set_user u);;
  value_changed this value.

Definition IntCharacteristic_override (probe : U -> bool * Z)
    (u : U) : option (bool * payload) :=
  let result := probe u in
  Some (fst result, int_to_ptr (snd result)).

Definition IntCharacteristic_vtable (ic : IntCharacteristic)
    : Characteristic_vtable :=
  {| read := IntCharacteristic_read ic;
     canRead := int_canRead ic;
     write := IntCharacteristic_write ic;
     canWrite := int_canWrite ic;
     get_max_value_override :=
       IntCharacteristic_override (get_max_value_override_int ic);
     get_min_value_override :=
       IntCharacteristic_override (get_min_value_override_int ic);
     get_valid_values_override := fun _ => (false, []) |}.

(** ** Functional composition *)

(** [FunctionCharacteristic<T>]: two [std::function] members; calling an
    empty one throws [std::bad_function_call]. *)
Record FunctionCharacteristic (T : Type) : Type := {
  readFunction : option (U -> T);
  writeFunction : option (T -> U -> U);
}.
Arguments readFunction {T} _.
Arguments writeFunction {T} _.

Definition call_readFunction {T} (f : FunctionCharacteristic T) (u : U)
    : option T :=
  match readFunction f with Some g => Some (g u) | None => None end.
Definition call_writeFunction {T} (f : FunctionCharacteristic T) (v : T) (u : U)
    : option U :=
  match writeFunction f with Some g => Some (g v u) | None => None end.

(** [std::function != nullptr]. *)
Definition is_set {A} (o : option A) : bool :=
  match o with Some _ => true | None => false end.

(** [class StringFunctionCharacteristic] (hap.hpp 211-228). *)
Definition StringFunctionCharacteristic (f : FunctionCharacteristic string)
    : StringCharacteristic :=
  {| readString := call_readFunction f;
     writeString := call_writeFunction f;
     string_canRead := fun _ => is_set (readFunction f);
     string_canWrite := fun _ => is_set (writeFunction f) |}.

(** [class FloatFunctionCharacteristic] (hap.hpp 294-311). *)
Definition FloatFunctionCharacteristic (f : FunctionCharacteristic float)
    : FloatCharacteristic :=
  {| readFloat := call_readFunction f;
     writeFloat := call_writeFunction f;
     float_canRead := fun _ => is_set (readFunction f);
     float_canWrite := fun _ => is_set (writeFunction f);
     get_max_value_override_float := fun _ => (false, S754_zero false);
     get_min_value_override_float := fun _ => (false, S754_zero false) |}.

(** [class IntFunctionCharacteristic] (hap.hpp 363-380). *)
Definition IntFunctionCharacteristic (f : FunctionCharacteristic Z)
    : IntCharacteristic :=
  {| readInt := call_readFunction f;
     writeInt := call_writeFunction f;
     int_canRead := fun _ => is_set (readFunction f);
     int_canWrite := fun _ => is_set (writeFunction f);
     get_max_value_override_int := fun _ => (false, 0);
     get_min_value_override_int := fun _ => (false, 0) |}.

(** ** Objects and the host *)

(** The dynamic type of the characteristic at each address. *)
Variable vptr : payload -> Characteristic_vtable.

(** What the host returns from [hap_accessory_register] and from
    [hap_accessory_add], given everything that happened up to and including
    the call. *)
Variable hap_accessory_register_result : list event -> payload.
Variable hap_accessory_add_result : list event -> payload.

(** A virtual call of [read]. *)
Definition call_read (this : payload) : M payload :=
  fun w => match read (vptr this) (user w) (store w) with
           | Some (p, m) => Some (p, set_store m w)
           | None => None
           end.

(** [Characteristic::notify] (hap.hpp 23-31). *)
Definition notify (this : payload) : M unit :=
  w ← get;
  if negb (canRead (vptr this) (user w)) then ret tt
  else new_value ← call_read this; value_changed this new_value.

(** The free functions handed to the host (hap.cpp 12-35). *)
Definition identify_read (arg : payload) : M payload := ret 1.
Definition read_characteristic (arg : payload) : M payload := call_read arg.
Definition write_characteristic (arg value : payload) (len : Z) : M unit :=
  write (vptr arg) arg value len.
Definition set_characteristic_event_handle
    (arg ev_handle : payload) (enable : bool) : M unit :=
  set_event_handle arg ev_handle enable.

(** [Characteristic::get_characteristic_struct] (hap.cpp 37-72). *)
Definition get_characteristic_struct (this : payload) : M hap_characteristic_ex :=
  c ← the_characteristic this;
  w ← get;
  let vt := vptr this in
  '(override_max, max) ← lift (get_max_value_override vt (user w));
  '(override_min, min) ← lift (get_min_value_override vt (user w));
  let '(override_vv, vv) := get_valid_values_override vt (user w) in
  valid_values_dyn ←
    (if override_vv then new_array (BInts vv) else ret nullptr);
  value ← call_read this;
  ret {| type := c_type c;
         initial_value := value;
         callback_arg := this;
         read_fn := if canRead vt (user w)
                    then Some read_characteristic_fn else None;
         write_fn := if canWrite vt (user w)
                     then Some write_characteristic_fn else None;
         event_fn := Some set_characteristic_event_handle_fn;
         override_max_value := override_max;
         max_value := max;
         override_min_value := override_min;
         min_value := min;
         reserved_flag := false;
         reserved_pointer := nullptr;
         override_valid_values := override_vv;
         valid_values_length :=
           if override_vv then Z.of_nat (length vv) else 0;
         valid_values := valid_values_dyn |}.

(** [Characteristic::delete_characteristic_struct_internals]
    (hap.cpp 74-80). *)
Definition delete_characteristic_struct_internals (cs : hap_characteristic_ex)
    : M unit :=
  if override_valid_values cs && negb (valid_values cs =? nullptr)
  then delete_array (valid_values cs)
  else ret tt.

(** The assignment [characteristic->accessory_handle = accessory_handle]
    (hap.cpp 133). *)
Definition assign_accessory_handle (characteristic handle : payload) : M unit :=
  c ← the_characteristic characteristic;
  put_characteristic characteristic
    {| c_type := c_type c; accessory_handle := Some handle;
       event_handle := event_handle c;
       value_changed_listeners := value_changed_listeners c |};;
  log (Ev_accessory_handle_set characteristic handle).

(** The first loop of [add_service]: the back-reference is assigned, then
    the transfer structure is built and stored at [hap_cs[i++]]. *)
Fixpoint fill_structs (handle : payload) (characteristics : list payload)
    : M (list hap_characteristic_ex) :=
  match characteristics with
  | [] => ret []
  | characteristic :: rest =>
      assign_accessory_handle characteristic handle;;
      cs ← get_characteristic_struct characteristic;
      tail ← fill_structs handle rest;
      ret (cs :: tail)
  end.

(** The second loop of [add_service]. *)
Fixpoint delete_structs (hap_cs : list hap_characteristic_ex) : M unit :=
  match hap_cs with
  | [] => ret tt
  | cs :: rest => delete_characteristic_struct_internals cs;;
                  delete_structs rest
  end.

(** [Accessory::add_service] (hap.cpp 125-149).  The cells of the array
    [hap_cs] are held in a list; its storage is a [BStructs] block. *)
Definition add_service (this : payload) (service_type : hap_service_type)
    (characteristics : list payload) : M unit :=
  a ← the_accessory this;
  hap_cs_array ← new_array (BStructs (length characteristics));
  hap_cs ← fill_structs (a_accessory_handle a) characteristics;
  log (Ev_hap_service_and_characteristics_ex_add
         (a_accessory_handle a) (accessory_object a) service_type
         hap_cs (Z.of_nat (length hap_cs)));;
  delete_structs hap_cs;;
  delete_array hap_cs_array.

(** The assignment [hap_initialized = true] (hap.cpp 86). *)
Definition mark_hap_initialized : M unit :=
  modify (set_hap_initialized true);; log Ev_hap_initialized_set.

(** [Accessory::register_accessory] (hap.cpp 82-101). *)
Definition register_accessory (this : payload) : M unit :=
  a ← the_accessory this;
  w ← get;
  (if hap_initialized w then ret tt
   else mark_hap_initialized;; log Ev_hap_init);;
  log (Ev_hap_accessory_register
         (name a) (id a) (setup_code a) (manufacturer_name a)
         (category a) (port a) (configuration_version a)
         this accessory_init_fn);;
  w' ← get;
  put_accessory this
    {| name := name a; id := id a; setup_code := setup_code a;
       manufacturer_name := manufacturer_name a;
       firmware_version := firmware_version a; model := model a;
       serial_number := serial_number a; category := category a;
       port := port a; configuration_version := configuration_version a;
       a_accessory_handle := hap_accessory_register_result (trace w');
       accessory_object := accessory_object a;
       init := init a |}.

(** The array [cs] of [init_callback]. *)
Definition information_characteristics (a : Accessory) : list hap_characteristic :=
  [ {| hc_type := HAP_CHARACTER_IDENTIFY; hc_initial_value := 1;
       hc_callback_arg := nullptr; hc_read := Some identify_read_fn;
       hc_write := None; hc_event := None |};
    {| hc_type := HAP_CHARACTER_MANUFACTURER;
       hc_initial_value := manufacturer_name a;
       hc_callback_arg := nullptr; hc_read := None;
       hc_write := None; hc_event := None |};
    {| hc_type := HAP_CHARACTER_MODEL; hc_initial_value := model a;
       hc_callback_arg := nullptr; hc_read := None;
       hc_write := None; hc_event := None |};
    {| hc_type := HAP_CHARACTER_NAME; hc_initial_value := name a;
       hc_callback_arg := nullptr; hc_read := None;
       hc_write := None; hc_event := None |};
    {| hc_type := HAP_CHARACTER_SERIAL_NUMBER;
       hc_initial_value := serial_number a;
       hc_callback_arg := nullptr; hc_read := None;
       hc_write := None; hc_event := None |};
    {| hc_type := HAP_CHARACTER_FIRMWARE_REVISION;
       hc_initial_value := firmware_version a;
       hc_callback_arg := nullptr; hc_read := None;
       hc_write := None; hc_event := None |} ].

(** The user's [init]: its [add_service] calls, in order. *)
Fixpoint run_init (this : payload)
    (services : list (hap_service_type * list payload)) : M unit :=
  match services with
  | [] => ret tt
  | (ty, cs) :: rest => add_service this ty cs;; run_init this rest
  end.

(** [Accessory::init_callback] (hap.cpp 103-123). *)
Definition init_callback (this : payload) : M unit :=
  a ← the_accessory this;
  log (Ev_hap_accessory_add (a_accessory_handle a));;
  w ← get;
  let object := hap_accessory_add_result (trace w) in
  put_accessory this
    {| name := name a; id := id a; setup_code := setup_code a;
       manufacturer_name := manufacturer_name a;
       firmware_version := firmware_version a; model := model a;
       serial_number := serial_number a; category := category a;
       port := port a; configuration_version := configuration_version a;
       a_accessory_handle := a_accessory_handle a;
       accessory_object := object;
       init := init a |};;
  let cs := information_characteristics a in
  log (Ev_hap_service_and_characteristics_add
         (a_accessory_handle a) object HAP_SERVICE_ACCESSORY_INFORMATION
         cs (Z.of_nat (length cs)));;
  run_init this (init a).

(** [accessory_init] (hap.cpp 32-35). *)
Definition accessory_init (arg : payload) : M unit := init_callback arg.

(** ** Runs of the process *)

(** What can happen to the bridge: calls by the user's code, and calls by
    the host through the function pointers and contexts it was given. *)
Inductive op : Type :=
| Call_register_accessory (this : payload)
| Call_notify (this : payload)
| Call_register_for_notifications (this : payload) (cb : listener)
| Host_accessory_init (arg : payload)
| Host_read_characteristic (arg : payload)
| Host_write_characteristic (arg value : payload) (len : Z)
| Host_set_characteristic_event_handle (arg ev_handle : payload) (enable : bool).

Definition run_op (o : op) : M unit :=
  match o with
  | Call_register_accessory this => register_accessory this
  | Call_notify this => notify this
  | Call_register_for_notifications this cb =>
      register_for_notifications this cb
  | Host_accessory_init arg => accessory_init arg
  | Host_read_characteristic arg => read_characteristic arg;; ret tt
  | Host_write_characteristic arg value len =>
      write_characteristic arg value len
  | Host_set_characteristic_event_handle arg ev_handle enable =>
      set_characteristic_event_handle arg ev_handle enable
  end.

(** The transfer structures the host has been given so far. *)
Definition structs_given (e : event) : list hap_characteristic_ex :=
  match e with
  | Ev_hap_service_and_characteristics_ex_add _ _ _ cs _ => cs
  | _ => []
  end.

Definition given_with (tr : list event) (arg : payload)
    (pick : hap_characteristic_ex -> option callback) (f : callback) : Prop :=
  exists e cs, e ∈ tr /\ cs ∈ structs_given e /\
               callback_arg cs = arg /\ pick cs = Some f.

(** The host calls only what it was handed: a callback of a transfer
    structure with that structure's context, and [accessory_init] with the
    context of a registration. *)
Definition permitted (tr : list event) (o : op) : Prop :=
  match o with
  | Host_accessory_init arg =>
      exists n i s m c p v, Ev_hap_accessory_register n i s m c p v arg
                              accessory_init_fn ∈ tr
  | Host_read_characteristic arg =>
      given_with tr arg read_fn read_characteristic_fn
  | Host_write_characteristic arg _ _ =>
      given_with tr arg write_fn write_characteristic_fn
  | Host_set_characteristic_event_handle arg _ _ =>
      given_with tr arg event_fn set_characteristic_event_handle_fn
  | _ => True
  end.

Inductive run : World -> list op -> World -> Prop :=
| run_done w : run w [] w
| run_step w o w1 os w2 :
    permitted (trace w) o ->
    run_op o w = Some (tt, w1) ->
    run w1 os w2 ->
    run w (o :: os) w2.

(** The process at start-up: nothing has happened, the static flag is
    [false], and no characteristic has an event handle or a back-reference
    yet (hap.hpp 148-149). *)
Definition at_startup (w : World) : Prop :=
  trace w = [] /\ hap_initialized w = false /\
  forall this c, characteristics w !! this = Some c ->
                 event_handle c = nullptr /\ accessory_handle c = None.

End Bridge.

Arguments listener : clear implicits.
Arguments Characteristic : clear implicits.
Arguments Accessory : clear implicits.
Arguments World : clear implicits.
Arguments M : clear implicits.
Arguments Characteristic_vtable : clear implicits.
Arguments StringCharacteristic : clear implicits.
Arguments FloatCharacteristic : clear implicits.
Arguments IntCharacteristic : clear implicits.
Arguments FunctionCharacteristic : clear implicits.
Arguments op : clear implicits.
Arguments readFunction {U T} _.
Arguments writeFunction {U T} _.

(** ** Vocabulary of the statements *)

Section Observations.

Context {U : Type}.

(** The three bridges of hap.hpp, and their functional forms. *)
Inductive Typed : Type :=
| TString (sc : StringCharacteristic U)
| TFloat (fc : FloatCharacteristic U)
| TInt (ic : IntCharacteristic U).

Definition typed_vtable (t : Typed) : Characteristic_vtable U :=
  match t with
  | TString sc => StringCharacteristic_vtable sc
  | TFloat fc => FloatCharacteristic_vtable fc
  | TInt ic => IntCharacteristic_vtable ic
  end.

Inductive Functional : Type :=
| FString (f : FunctionCharacteristic U string)
| FFloat (f : FunctionCharacteristic U float)
| FInt (f : FunctionCharacteristic U Z).

Definition functional_typed (f : Functional) : Typed :=
  match f with
  | FString f => TString (StringFunctionCharacteristic f)
  | FFloat f => TFloat (FloatFunctionCharacteristic f)
  | FInt f => TInt (IntFunctionCharacteristic f)
  end.

Definition supplier_set (f : Functional) : bool :=
  match f with
  | FString f => is_set (readFunction f)
  | FFloat f => is_set (readFunction f)
  | FInt f => is_set (readFunction f)
  end.

Definition consumer_set (f : Functional) : bool :=
  match f with
  | FString f => is_set (writeFunction f)
  | FFloat f => is_set (writeFunction f)
  | FInt f => is_set (writeFunction f)
  end.

(** The user's state once a bridge has decoded [value] and passed it to its
    typed writer. *)
Definition typed_apply (t : Typed) (value : payload) (u : U) (m : memory)
    : option U :=
  match t with
  | TString sc => s ← c_string_at m value; writeString sc s u
  | TFloat fc => writeFloat fc (voidToFloat value) u
  | TInt ic => writeInt ic (ptr_to_int value) u
  end.

(** The listener calls of one dispatch, and what they do to the user's
    state. *)
Fixpoint listener_events (this : payload) (i : nat) (ls : list (listener U))
    : list event :=
  match ls with
  | [] => []
  | Some _ :: rest => Ev_listener this i :: listener_events this (S i) rest
  | None :: rest => listener_events this (S i) rest
  end.

Fixpoint run_listeners (this : payload) (ls : list (listener U)) (u : U) : U :=
  match ls with
  | [] => u
  | Some f :: rest => run_listeners this rest (f this u)
  | None :: rest => run_listeners this rest u
  end.

Definition is_dispatch (e : event) : bool :=
  match e with Ev_value_changed _ _ => true | _ => false end.
Definition is_listener_call (e : event) : bool :=
  match e with Ev_listener _ _ => true | _ => false end.
Definition is_emit_event (e : event) : bool :=
  match e with Ev_hap_event_response _ _ _ => true | _ => false end.
Definition is_hap_init (e : event) : bool :=
  match e with Ev_hap_init => true | _ => false end.
Definition is_register (e : event) : bool :=
  match e with
  | Ev_hap_accessory_register _ _ _ _ _ _ _ _ _ => true
  | _ => false
  end.
Definition is_service (e : event) : bool :=
  match e with
  | Ev_hap_service_and_characteristics_add _ _ _ _ _ => true
  | Ev_hap_service_and_characteristics_ex_add _ _ _ _ _ => true
  | _ => false
  end.

(** The back-reference and the event handle of the object at [this]. *)
Definition back_reference (w : World U) (this : payload) : option payload :=
  c ← characteristics w !! this; accessory_handle c.
Definition event_handle_of (w : World U) (this : payload) : option payload :=
  event_handle <$> characteristics w !! this.



(** The world after a dispatch whose host part appended [host]. *)
Definition dispatched (this value : payload) (c : Characteristic U)
    (host : list event) (w : World U) : World U :=
  {| user := run_listeners this (value_changed_listeners c) (user w);
     store := store w;
     characteristics := characteristics w;
     accessories := accessories w;
     hap_initialized := hap_initialized w;
     trace := trace w ++ Ev_value_changed this value :: host ++
              listener_events this 0 (value_changed_listeners c) |}.

(** The transfer structure of the object [c] at [this], given the results
    of its probes, its value and its valid-value array. *)
Definition transfer_structure (vt : Characteristic_vtable U) (u : U)
    (this : payload) (c : Characteristic U) (max min : bool * payload)
    (vv : bool * list Z) (value dyn : payload) : hap_characteristic_ex :=
  {| type := c_type c;
     initial_value := value;
     callback_arg := this;
     read_fn := if canRead vt u then Some read_characteristic_fn else None;
     write_fn := if canWrite vt u then Some write_characteristic_fn else None;
     event_fn := Some set_characteristic_event_handle_fn;
     override_max_value := fst max;
     max_value := snd max;
     override_min_value := fst min;
     min_value := snd min;
     reserved_flag := false;
     reserved_pointer := nullptr;
     override_valid_values := fst vv;
     valid_values_length := if fst vv then Z.of_nat (length (snd vv)) else 0;
     valid_values := dyn |}.

(** The object at [this] with its back-reference assigned. *)
Definition assign_back_reference (h : payload)
    (cm : gmap Z (Characteristic U)) (this : payload)
    : gmap Z (Characteristic U) :=
  match cm !! this with
  | Some c => <[this := {| c_type := c_type c; accessory_handle := Some h;
                           event_handle := event_handle c;
                           value_changed_listeners :=
                             value_changed_listeners c |}]> cm
  | None => cm
  end.


Definition is_flag_set (e : event) : bool :=
  match e with Ev_hap_initialized_set => true | _ => false end.
Definition is_assignment (e : event) : bool :=
  match e with Ev_accessory_handle_set _ _ => true | _ => false end.

(** What the loops of [add_service] leave in the trace: storage management
    and the assignments of back-references. *)
Definition is_bookkeeping_event (e : event) : bool :=
  match e with
  | Ev_new _ | Ev_delete _ | Ev_accessory_handle_set _ _ => true
  | _ => false
  end.

(** The transfer structure carries an array that is to be released. *)
Definition has_array (s : hap_characteristic_ex) : bool :=
  override_valid_values s && negb (valid_values s =? nullptr).


(** The accessory once the host has returned its object. *)
Definition with_object (a : Accessory) (object : payload) : Accessory :=
  {| name := name a; id := id a; setup_code := setup_code a;
     manufacturer_name := manufacturer_name a;
     firmware_version := firmware_version a; model := model a;
     serial_number := serial_number a; category := category a;
     port := port a; configuration_version := configuration_version a;
     a_accessory_handle := a_accessory_handle a;
     accessory_object := object;
     init := init a |}.

(** The accessory once the host has returned its handle. *)
Definition with_handle (a : Accessory) (handle : payload) : Accessory :=
  {| name := name a; id := id a; setup_code := setup_code a;
     manufacturer_name := manufacturer_name a;
     firmware_version := firmware_version a; model := model a;
     serial_number := serial_number a; category := category a;
     port := port a; configuration_version := configuration_version a;
     a_accessory_handle := handle;
     accessory_object := accessory_object a;
     init := init a |}.

(** The two host calls [init_callback] makes before it runs [init]. *)
Definition information_events (a : Accessory) (object : payload) : list event :=
  [ Ev_hap_accessory_add (a_accessory_handle a);
    Ev_hap_service_and_characteristics_add
      (a_accessory_handle a) object HAP_SERVICE_ACCESSORY_INFORMATION
      (information_characteristics a) 6 ].

(** The world in which [init_callback] calls the user's [init]. *)
Definition information_installed
    (hap_accessory_add_result : list event -> payload)
    (this : payload) (a : Accessory) (w : World U) : World U :=
  let object :=
    hap_accessory_add_result
      (trace w ++ [Ev_hap_accessory_add (a_accessory_handle a)]) in
  {| user := user w; store := store w;
     characteristics := characteristics w;
     accessories := <[this := with_object a object]> (accessories w);
     hap_initialized := hap_initialized w;
     trace := trace w ++ information_events a object |}.

(** The registration event of the accessory [a] at [this]. *)
Definition registration_event (this : payload) (a : Accessory) : event :=
  Ev_hap_accessory_register
    (name a) (id a) (setup_code a) (manufacturer_name a)
    (category a) (port a) (configuration_version a) this accessory_init_fn.

(** From [w] to [w']: no event handle changed, no back-reference was lost,
    events were only added, and every characteristic handed to the host in
    the new events has its back-reference assigned. *)
Definition evolves (w w' : World U) : Prop :=
  (forall this, event_handle_of w' this = event_handle_of w this) /\
  (forall this, is_Some (back_reference w this) ->
                is_Some (back_reference w' this)) /\
  exists delta,
    trace w' = trace w ++ delta /\
    forall e cs, e ∈ delta -> cs ∈ structs_given e ->
                 is_Some (back_reference w' (callback_arg cs)).

(** The six mandatory characteristics, in the order of [init_callback]. *)
Definition mandatory_types : list hap_characteristic_type :=
  [ HAP_CHARACTER_IDENTIFY; HAP_CHARACTER_MANUFACTURER; HAP_CHARACTER_MODEL;
    HAP_CHARACTER_NAME; HAP_CHARACTER_SERIAL_NUMBER;
    HAP_CHARACTER_FIRMWARE_REVISION ].

(** Every characteristic object writes as one of the three bridges does:
    its [write] is the one of hap.hpp 200-204, 250-254 or 333-337, over
    whatever typed writer its subclass supplies.  Nothing is asked of its
    [read], of its capabilities or of its override probes, which a subclass
    is free to override. *)
Definition bridge_writes (vptr : payload -> Characteristic_vtable U) : Prop :=
  forall this, exists t, write (vptr this) = write (typed_vtable t).

(** The operation switches eventing on for the characteristic at [this]. *)
Definition enables (this : payload) (o : op U) : Prop :=
  match o with
  | Host_set_characteristic_event_handle arg _ true => arg = this
  | _ => False
  end.

(** Whatever the host was handed has its back-reference, and an event
    handle is set only where the back-reference is. *)
Definition safe (w : World U) : Prop :=
  (forall e cs, e ∈ trace w -> cs ∈ structs_given e ->
                is_Some (back_reference w (callback_arg cs))) /\
  (forall this c, characteristics w !! this = Some c ->
                  event_handle c <> nullptr -> is_Some (accessory_handle c)).

End Observations.

Arguments Typed : clear implicits.
Arguments Functional : clear implicits.

(** ** Vocabulary of the further properties *)

(** The negation of a float: the sign bit flipped. *)
Definition float_opp (x : float) : float := SFopp x.

Section Contracts.

Context {U : Type}.

(** The function pointers of the transfer structure [s] say what the
    characteristic behind it can do in the state [u]: a pointer is null
    exactly where the capability is absent, and the event-enable pointer
    is always there (hap.cpp 54-71). *)
Definition mirrors (vptr : payload -> Characteristic_vtable U) (u : U)
    (s : hap_characteristic_ex) : Prop :=
  read_fn s = (if canRead (vptr (callback_arg s)) u
               then Some read_characteristic_fn else None) /\
  write_fn s = (if canWrite (vptr (callback_arg s)) u
                then Some write_characteristic_fn else None) /\
  event_fn s = Some set_characteristic_event_handle_fn.

(** The structures of the event [e] were all built by
    [get_characteristic_struct] in the state [u]. *)
Definition hands_mirrors (vptr : payload -> Characteristic_vtable U) (u : U)
    (e : event) : Prop :=
  forall s, s ∈ structs_given e -> mirrors vptr u s.

(** The handle and the object a service registration names, and its
    service type. *)
Definition service_target (e : event) : option (payload * payload) :=
  match e with
  | Ev_hap_service_and_characteristics_add h o _ _ _ => Some (h, o)
  | Ev_hap_service_and_characteristics_ex_add h o _ _ _ => Some (h, o)
  | _ => None
  end.
Definition service_type_of (e : event) : option hap_service_type :=
  match e with
  | Ev_hap_service_and_characteristics_add _ _ ty _ _ => Some ty
  | Ev_hap_service_and_characteristics_ex_add _ _ ty _ _ => Some ty
  | _ => None
  end.

(** The object [c] with its back-reference set to [h]. *)
Definition with_back_reference (h : payload) (c : Characteristic U)
    : Characteristic U :=
  {| c_type := c_type c; accessory_handle := Some h;
     event_handle := event_handle c;
     value_changed_listeners := value_changed_listeners c |}.

(** The object [c] with the listeners [cbs] registered after its own. *)
Definition with_listeners (c : Characteristic U) (cbs : list (listener U))
    : Characteristic U :=
  {| c_type := c_type c; accessory_handle := accessory_handle c;
     event_handle := event_handle c;
     value_changed_listeners := value_changed_listeners c ++ cbs |}.

(** An operation that registers an accessory. *)
Definition is_registration (o : op U) : bool :=
  match o with Call_register_accessory _ => true | _ => false end.

(** From the object [c] to the object [c']: the same type, and the
    listeners of [c] still there, in front. *)
Definition persists (c c' : Characteristic U) : Prop :=
  c_type c' = c_type c /\
  exists more, value_changed_listeners c' = value_changed_listeners c ++ more.

(** An event that is neither the start of the host library, nor the
    assignment of the static flag, nor a registration, and hands over only
    structures that [get_characteristic_struct] built in the state [u]. *)
Definition ordinary_event (vptr : payload -> Characteristic_vtable U) (u : U)
    (e : event) : Prop :=
  is_hap_init e = false /\ is_flag_set e = false /\ is_register e = false /\
  hands_mirrors vptr u e.

(** Before position [i] of the trace the static flag has been assigned
    and, after that, the host library started. *)
Definition started_before (tr : list event) (i : nat) : Prop :=
  exists j k, (j < k < i)%nat /\
              tr !! j = Some Ev_hap_initialized_set /\
              tr !! k = Some Ev_hap_init.

(** The static flag has been assigned and the host library started as
    often as the flag says, in that order, and both precede every
    registration. *)
Definition started_once (w : World U) : Prop :=
  filter (fun e => is_flag_set e = true \/ is_hap_init e = true) (trace w) =
    (if hap_initialized w then [Ev_hap_initialized_set; Ev_hap_init]
     else []) /\
  (hap_initialized w = true -> started_before (trace w) (length (trace w))) /\
  forall i e, trace w !! i = Some e -> is_register e = true ->
              started_before (trace w) i.

End Contracts.


(** ** A small process, for the examples *)

Module Example.

(** The user's state: one integer, which the closures read and write. *)
Definition U : Type := Z.

Definition int_closures : FunctionCharacteristic U Z :=
  {| readFunction := Some (fun u : U => u);
     writeFunction := Some (fun (v : Z) (_ : U) => v) |}.

Definition name_closures : FunctionCharacteristic U string :=
  {| readFunction := Some (fun _ : U => "Kitchen Light"%string);
     writeFunction := None |}.

(** The object at 100 is a functional int characteristic, the one at 101 a
    read-only functional string characteristic, the one at 102 an int
    characteristic whose subclass overrides the valid-value probe. *)
Definition brightness : Characteristic_vtable U :=
  IntCharacteristic_vtable (IntFunctionCharacteristic int_closures).

Definition light_name : Characteristic_vtable U :=
  StringCharacteristic_vtable (StringFunctionCharacteristic name_closures).

Definition mode : Characteristic_vtable U :=
  {| read := read brightness;
     canRead := canRead brightness;
     write := write brightness;
     canWrite := canWrite brightness;
     get_max_value_override := get_max_value_override brightness;
     get_min_value_override := get_min_value_override brightness;
     get_valid_values_override := fun _ => (true, [0; 1; 3]) |}.

Definition typed_objects (this : payload) : Characteristic_vtable U :=
  if this =? 101 then light_name else brightness.

Definition objects (this : payload) : Characteristic_vtable U :=
  if this =? 102 then mode else typed_objects this.

Definition fresh_characteristic (n : Z) : Characteristic U :=
  {| c_type := HAP_CHARACTER_number n;
     accessory_handle := None;
     event_handle := nullptr;
     value_changed_listeners := [Some (fun _ u => u + 1); None] |}.

Definition lamp : Accessory :=
  {| name := 1; id := 2; setup_code := 3; manufacturer_name := 4;
     firmware_version := 5; model := 6; serial_number := 7;
     category := 5; port := 811; configuration_version := 1;
     a_accessory_handle := nullptr; accessory_object := nullptr;
     init := [] |}.

Definition startup : World U :=
  {| user := 7;
     store := [Live (BChars "Lamp"); Live (BChars "AA:BB"); Live (BChars "053-58-197");
               Live (BChars "ACME"); Live (BChars "1.0"); Live (BChars "L1");
               Live (BChars "0001")];
     characteristics :=
       <[100 := fresh_characteristic 1]>
         (<[101 := fresh_characteristic 2]>
            (<[102 := fresh_characteristic 3]> ∅));
     accessories := <[200 := lamp]> (<[201 := lamp]> ∅);
     hap_initialized := false;
     trace := [] |}.

(** The handles the host returns. *)
Definition host_handle (tr : list event) : payload := 1000 + Z.of_nat (length tr).
Definition host_object (tr : list event) : payload := 2000 + Z.of_nat (length tr).

(** The characteristic at 100 after registration and with eventing on. *)
Definition listening_brightness : Characteristic U :=
  {| c_type := HAP_CHARACTER_number 1;
     accessory_handle := Some 1001;
     event_handle := 55;
     value_changed_listeners := [Some (fun _ u => u + 1); None] |}.

Definition listening : World U :=
  set_characteristics
    (<[100 := listening_brightness]> (characteristics startup)) startup.

(** The world [listening] once the host has switched eventing off. *)
Definition muted : World U :=
  set_characteristics
    (<[100 := {| c_type := HAP_CHARACTER_number 1;
                 accessory_handle := Some 1001;
                 event_handle := nullptr;
                 value_changed_listeners :=
                   [Some (fun _ u => u + 1); None] |}]>
       (characteristics listening))
    listening.

(** ... and after a [notify] and one more listener. *)
Definition muted_later : World U :=
  {| user := 8; store := store startup;
     characteristics :=
       <[100 := {| c_type := HAP_CHARACTER_number 1;
                   accessory_handle := Some 1001;
                   event_handle := nullptr;
                   value_changed_listeners :=
                     [Some (fun _ u => u + 1); None; None] |}]>
         (characteristics muted);
     accessories := accessories startup;
     hap_initialized := false;
     trace := [Ev_value_changed 100 7; Ev_listener 100 0] |}.

(** A write-only functional int characteristic, for the object at 103. *)
Definition switch_closures : FunctionCharacteristic U Z :=
  {| readFunction := None;
     writeFunction := Some (fun (v : Z) (_ : U) => v) |}.

Definition switch : Characteristic_vtable U :=
  IntCharacteristic_vtable (IntFunctionCharacteristic switch_closures).

Definition objects_with_switch (this : payload) : Characteristic_vtable U :=
  if this =? 103 then switch else objects this.

(** The process of [startup] with one more object, that switch at 103. *)
Definition workshop : World U :=
  set_characteristics
    (<[103 := fresh_characteristic 4]> (characteristics startup)) startup.

(** An accessory whose [init] adds one service, with the characteristics
    at 100 and 101. *)
Definition thermostat : Accessory :=
  {| name := 1; id := 2; setup_code := 3; manufacturer_name := 4;
     firmware_version := 5; model := 6; serial_number := 7;
     category := 9; port := 812; configuration_version := 1;
     a_accessory_handle := nullptr; accessory_object := nullptr;
     init := [(HAP_SERVICE_number 9, [100; 101])] |}.

(** The process at start-up, with that accessory at 300. *)
Definition home : World U :=
  {| user := 7;
     store := store startup;
     characteristics := characteristics startup;
     accessories := <[300 := thermostat]> ∅;
     hap_initialized := false;
     trace := [] |}.

(** The user's calls and the host's that bring the accessory up. *)
Definition bring_up : list (op U) :=
  [Call_register_accessory 300; Host_accessory_init 300].

(** An accessory whose service also holds the characteristic at 102, of
    the subclass that overrides the valid-value probe, and the process at
    start-up with that accessory at 300. *)
Definition dimmer : Accessory :=
  {| name := 1; id := 2; setup_code := 3; manufacturer_name := 4;
     firmware_version := 5; model := 6; serial_number := 7;
     category := 9; port := 813; configuration_version := 1;
     a_accessory_handle := nullptr; accessory_object := nullptr;
     init := [(HAP_SERVICE_number 9, [100; 102; 101])] |}.

Definition studio : World U :=
  {| user := 7;
     store := store startup;
     characteristics := characteristics startup;
     accessories := <[300 := dimmer]> ∅;
     hap_initialized := false;
     trace := [] |}.

(** A float characteristic whose subclass declares no maximum and returns
    infinity as the value that goes with the flag. *)
Definition unbounded_sensor : FloatCharacteristic U :=
  {| readFloat := fun _ => Some f_21_5;
     writeFloat := fun _ u => Some u;
     float_canRead := fun _ => true;
     float_canWrite := fun _ => false;
     get_max_value_override_float := fun _ => (false, S754_infinity false);
     get_min_value_override_float := fun _ => (true, S754_zero false) |}.

Definition sensor_objects (this : payload) : Characteristic_vtable U :=
  FloatCharacteristic_vtable unbounded_sensor.

(** ... and then the host's subscription to the characteristic at 100. *)
Definition subscribe : list (op U) :=
  bring_up ++ [Host_set_characteristic_event_handle 100 55 true].

(** A transfer structure that carries a valid-value array at address 1. *)
Definition structure_with_array : hap_characteristic_ex :=
  {| type := HAP_CHARACTER_number 3; initial_value := 0; callback_arg := 102;
     read_fn := Some read_characteristic_fn;
     write_fn := Some write_characteristic_fn;
     event_fn := Some set_characteristic_event_handle_fn;
     override_max_value := false; max_value := nullptr;
     override_min_value := false; min_value := nullptr;
     reserved_flag := false; reserved_pointer := nullptr;
     override_valid_values := true; valid_values_length := 3;
     valid_values := 1 |}.


End Example.


(** * Properties *)

(** ** The fixed-point codec *)

Lemma digits2_pos_size (p : positive) : digits2_pos p = Pos.size p.
Proof. induction p; cbn; congruence. Qed.

Lemma digits2_pos_bounds (p : positive) :
  2 ^ (Zpos (digits2_pos p) - 1) <= Zpos p < 2 ^ Zpos (digits2_pos p).
Proof.
  rewrite digits2_pos_size. split.
  - pose proof (Pos.size_le p) as H.
    assert (2 ^ Zpos (Pos.size p) <= 2 * Zpos p) as H'.
    { rewrite <- Pos2Z.inj_pow. change (2 * Zpos p) with (Zpos p~0). lia. }
    replace (Zpos (Pos.size p)) with (Z.succ (Zpos (Pos.size p) - 1)) in H' by lia.
    rewrite Z.pow_succ_r in H' by lia. lia.
  - pose proof (Pos.size_gt p) as H. rewrite <- Pos2Z.inj_pow. lia.
Qed.

Lemma digits2_pos_unique (p : positive) (n : Z) :
  2 ^ (n - 1) <= Zpos p < 2 ^ n -> Zpos (digits2_pos p) = n.
Proof.
  intros [Hlo Hhi]. pose proof (digits2_pos_bounds p) as [Hlo' Hhi'].
  set (d := Zpos (digits2_pos p)) in *.
  assert (0 < n).
  { destruct (Z.ltb_spec 0 n); [done|].
    rewrite (Z.pow_neg_r 2 (n-1)) in Hlo by lia.
    destruct (Z.eqb_spec n 0) as [->|]; [cbn in Hhi; lia|].
    rewrite (Z.pow_neg_r 2 n) in Hhi by lia. lia. }
  destruct (Z.lt_trichotomy d n) as [Hlt|[Heq|Hgt]]; [|done|].
  - assert (2 ^ d <= 2 ^ (n - 1)) by (apply Z.pow_le_mono_r; lia). lia.
  - assert (2 ^ n <= 2 ^ (d - 1)) by (apply Z.pow_le_mono_r; lia). lia.
Qed.

Lemma shr_1_nonneg (m : Z) (r s : bool) :
  0 <= m ->
  shr_1 {| shr_m := m; shr_r := r; shr_s := s |} =
  {| shr_m := m / 2; shr_r := Z.odd m; shr_s := r || s |}.
Proof.
  intros Hm. destruct m as [|p|p]; [done| |lia].
  destruct p as [p|p|]; cbn [shr_1 Z.odd].
  - f_equal. change (Zpos p~1) with (2 * Zpos p + 1).
    apply Z.div_unique with 1; lia.
  - f_equal. change (Zpos p~0) with (2 * Zpos p).
    apply Z.div_unique with 0; lia.
  - done.
Qed.

Lemma iter_pos_nat {A} (f : A -> A) (p : positive) :
  forall x, iter_pos f p x = Nat.iter (Pos.to_nat p) f x.
Proof.
  induction p as [p IH|p IH|]; intros x; cbn [iter_pos].
  - rewrite !IH, Pos2Nat.inj_xI.
    replace (S (2 * Pos.to_nat p))%nat
      with (S (Pos.to_nat p + Pos.to_nat p))%nat by lia.
    by rewrite Nat.iter_succ_r, Nat.iter_add.
  - rewrite !IH, Pos2Nat.inj_xO.
    replace (2 * Pos.to_nat p)%nat with (Pos.to_nat p + Pos.to_nat p)%nat by lia.
    by rewrite Nat.iter_add.
  - done.
Qed.

Lemma shr_iter (n : nat) (m : Z) (r s : bool) :
  0 <= m ->
  Nat.iter (S n) shr_1 {| shr_m := m; shr_r := r; shr_s := s |} =
  {| shr_m := m / 2 ^ Z.of_nat (S n);
     shr_r := Z.odd (m / 2 ^ Z.of_nat n);
     shr_s := r || s || negb (m mod 2 ^ Z.of_nat n =? 0) |}.
Proof.
  intros Hm. induction n as [|n IH].
  - cbn [Nat.iter]. rewrite shr_1_nonneg by done.
    change (2 ^ Z.of_nat 1) with 2. change (2 ^ Z.of_nat 0) with 1.
    rewrite Z.div_1_r, Z.mod_1_r. cbn. by rewrite orb_false_r.
  - rewrite Nat.iter_succ, IH.
    assert (0 < 2 ^ Z.of_nat n) by (apply Z.pow_pos_nonneg; lia).
    assert (2 ^ Z.of_nat (S n) = 2 ^ Z.of_nat n * 2) as E1.
    { rewrite Nat2Z.inj_succ, Z.pow_succ_r by lia. lia. }
    assert (2 ^ Z.of_nat (S (S n)) = 2 ^ Z.of_nat (S n) * 2) as E2.
    { rewrite (Nat2Z.inj_succ (S n)), Z.pow_succ_r by lia. lia. }
    rewrite shr_1_nonneg by (apply Z.div_pos; lia).
    f_equal.
    + rewrite E2. by rewrite Z.div_div by lia.
    + rewrite E1. rewrite Z.rem_mul_r by lia. rewrite Zmod_odd.
      pose proof (Z.mod_pos_bound m (2 ^ Z.of_nat n) ltac:(lia)) as Hb.
      destruct (Z.odd (m / 2 ^ Z.of_nat n)), r, s; cbn; try done;
        destruct (Z.eqb_spec (m mod 2 ^ Z.of_nat n) 0) as [E|E];
        cbn; try done.
      all: match goal with |- context [?x =? 0] =>
             destruct (Z.eqb_spec x 0) as [E'|E']; cbn; try done; try lia end.
Qed.

Lemma round_nearest_even_Zrne (q : Z) (r s : bool) :
  round_nearest_even q
    (loc_of_shr_record {| shr_m := q; shr_r := r; shr_s := s |}) = Zrne q r s.
Proof.
  unfold Zrne. destruct r, s; cbn; try done.
  by rewrite <- Z.negb_odd; destruct (Z.odd q).
Qed.

Lemma shr_record_of_loc_eq (m : Z) (l : location) :
  shr_record_of_loc m l = {| shr_m := m; shr_r := loc_r l; shr_s := loc_s l |}.
Proof. by destruct l as [|[]]. Qed.

Lemma fexp_normal (d e : Z) :
  -149 <= d + e - 24 -> fexp 24 128 (d + e) = d + e - 24.
Proof. unfold fexp, emin. lia. Qed.

Lemma shr_fexp_exact_24 (sx : bool) (m' e : Z) :
  8388608 <= m' <= 16777216 -> -149 <= e <= 103 ->
  (let '(mrs, e'') := shr_fexp 24 128 m' e loc_Exact in
   match shr_m mrs with
   | Z0 => S754_zero sx
   | Zpos m => if e'' <=? 128 - 24 then S754_finite sx m e''
               else S754_infinity sx
   | Zneg _ => S754_nan
   end) = Znormal sx m' e.
Proof.
  intros Hm He. unfold Znormal.
  destruct (Z.ltb_spec m' 16777216) as [Hlt|Hge].
  - destruct m' as [|p|p]; [lia| |lia].
    unfold shr_fexp. cbn [Zdigits2].
    rewrite (digits2_pos_unique p 24) by (cbn; lia).
    rewrite fexp_normal by lia.
    replace (24 + e - 24 - e) with 0 by lia. cbn [shr shr_record_of_loc shr_m].
    rewrite (proj2 (Z.leb_le e (128 - 24))) by lia. reflexivity.
  - assert (m' = 16777216) as -> by lia.
    unfold shr_fexp. change (Zdigits2 16777216) with 25.
    rewrite fexp_normal by lia.
    replace (25 + e - 24 - e) with 1 by lia.
    cbn [shr shr_record_of_loc iter_pos shr_1 shr_m].
    rewrite (proj2 (Z.leb_le (e + 1) (128 - 24))) by lia. reflexivity.
Qed.

Lemma Zrne_bounds (q : Z) (r s : bool) : q <= Zrne q r s <= q + 1.
Proof. unfold Zrne. destruct (r && (s || Z.odd q)); lia. Qed.

Lemma binary_round_aux_closed (sx : bool) (m : positive) (e : Z)
    (l : location) (n : Z) :
  Zpos (digits2_pos m) = 24 + n -> 0 <= n -> -149 <= e + n <= 103 ->
  binary_round_aux 24 128 sx (Zpos m) e l =
  Znormal sx (Zround_shift (Zpos m) n (loc_r l) (loc_s l)) (e + n).
Proof.
  intros Hd Hn He. pose proof (digits2_pos_bounds m) as Hb.
  rewrite Hd in Hb.
  unfold binary_round_aux.
  assert (shr_fexp 24 128 (Zpos m) e l =
          shr {| shr_m := Zpos m; shr_r := loc_r l; shr_s := loc_s l |} e n)
    as ->.
  { unfold shr_fexp. cbn [Zdigits2]. rewrite Hd, fexp_normal by lia.
    rewrite shr_record_of_loc_eq. f_equal. lia. }
  unfold Zround_shift. destruct n as [|p|p]; [| |lia].
  - cbn [shr Z.eqb]. rewrite round_nearest_even_Zrne.
    rewrite Z.add_0_r in *. apply shr_fexp_exact_24; [|lia].
    pose proof (Zrne_bounds (Zpos m) (loc_r l) (loc_s l)).
    change (2 ^ (24 - 1)) with 8388608 in Hb.
    change (2 ^ 24) with 16777216 in Hb. lia.
  - cbn [shr Z.eqb]. rewrite iter_pos_nat.
    destruct (Pos2Nat.is_succ p) as [k Hk]. rewrite Hk.
    rewrite shr_iter by lia.
    assert (Z.of_nat (S k) = Zpos p) as -> by lia.
    assert (Z.of_nat k = Zpos p - 1) as -> by lia.
    rewrite round_nearest_even_Zrne.
    assert (0 < 2 ^ Zpos p) by (apply Z.pow_pos_nonneg; lia).
    apply shr_fexp_exact_24; [|lia].
    match goal with |- context [Zrne ?q ?r ?s] =>
      pose proof (Zrne_bounds q r s) end.
    replace (24 + Zpos p - 1) with (23 + Zpos p) in Hb by lia.
    rewrite !Z.pow_add_r in Hb by lia.
    change (2 ^ 23) with 8388608 in Hb. change (2 ^ 24) with 16777216 in Hb.
    assert (8388608 <= Zpos m / 2 ^ Zpos p)
      by (apply Z.div_le_lower_bound; lia).
    assert (Zpos m / 2 ^ Zpos p < 16777216)
      by (apply Z.div_lt_upper_bound; lia).
    lia.
Qed.

Lemma pos_iter_xO (p c : positive) :
  Zpos (Pos.iter xO p c) = Zpos p * 2 ^ Zpos c.
Proof.
  induction c as [|c IH] using Pos.peano_ind.
  - cbn. lia.
  - rewrite Pos.iter_succ, Pos2Z.inj_succ, Z.pow_succ_r by lia.
    change (Zpos (Pos.iter xO p c)~0) with (2 * Zpos (Pos.iter xO p c)).
    rewrite IH. lia.
Qed.

Lemma Zround_shift_exact (m : Z) : Zround_shift m 0 false false = m.
Proof. done. Qed.

Lemma hundred_eq : Float32.hundred = S754_finite false 13107200 (-17).
Proof. reflexivity. Qed.

Lemma of_int_closed (sx : bool) (a d : Z) :
  1 <= d <= 24 -> 2 ^ (d - 1) <= a < 2 ^ d ->
  Float32.of_int (cond_Zopp sx a) =
  S754_finite sx (Z.to_pos (a * 2 ^ (24 - d))) (d - 24).
Proof.
  intros Hd Ha.
  assert (0 < 2 ^ (d - 1)) by (apply Z.pow_pos_nonneg; lia).
  destruct a as [|p|p]; [lia| |lia].
  pose proof (digits2_pos_unique p d Ha) as Hdig.
  assert (Float32.of_int (cond_Zopp sx (Zpos p)) =
          binary_round 24 128 sx p 0) as ->.
  { unfold Float32.of_int, Float32.prec, Float32.emax. by destruct sx. }
  unfold binary_round. rewrite Z.add_0_r, Hdig.
  assert (fexp 24 128 d = d - 24) as -> by (unfold fexp, emin; lia).
  assert (shl_align p 0 (d - 24) = (Z.to_pos (Zpos p * 2 ^ (24 - d)), d - 24))
    as ->.
  { unfold shl_align. rewrite Z.sub_0_r.
    destruct (d - 24) as [|c|c] eqn:Hc; [|lia|].
    - replace (24 - d) with 0 by lia. f_equal.
      by rewrite Z.mul_1_r.
    - f_equal. replace (24 - d) with (Zpos c) by lia.
      by rewrite <- pos_iter_xO. }
  assert (0 < 2 ^ (24 - d)) by (apply Z.pow_pos_nonneg; lia).
  assert (2 ^ (24 - d) * 2 ^ (d - 1) = 8388608) as E1.
  { rewrite <- Z.pow_add_r by lia. by replace (24 - d + (d - 1)) with 23 by lia. }
  assert (2 ^ (24 - d) * 2 ^ d = 16777216) as E2.
  { rewrite <- Z.pow_add_r by lia. by replace (24 - d + d) with 24 by lia. }
  assert (8388608 <= Zpos p * 2 ^ (24 - d) < 16777216) as Hm by nia.
  destruct (Zpos p * 2 ^ (24 - d)) as [|m|m] eqn:Hmz; [lia| |lia].
  cbn [Z.to_pos].
  rewrite (binary_round_aux_closed sx m (d - 24) loc_Exact 0);
    [|apply digits2_pos_unique; cbn; lia|lia|lia].
  cbn [loc_r loc_s]. rewrite Zround_shift_exact, Z.add_0_r.
  unfold Znormal. by rewrite (proj2 (Z.ltb_lt _ _)) by lia.
Qed.

Lemma mul_hundred_closed (sx : bool) (mv : positive) (ev : Z) :
  8388608 <= Zpos mv < 16777216 -> -100 <= ev <= 80 ->
  Float32.mul (S754_finite sx mv ev) Float32.hundred =
  let P := Zpos mv * 13107200 in
  let n := if P <? 2 ^ 47 then 23 else 24 in
  Znormal sx (Zround_shift P n false false) (ev - 17 + n).
Proof.
  intros Hm He. rewrite hundred_eq. cbn zeta.
  unfold Float32.mul, Float32.prec, Float32.emax, SFmul.
  rewrite xorb_false_r. change (ev + -17) with (ev - 17).
  change (Zpos mv * 13107200) with (Zpos (mv * 13107200)).
  assert (Zpos (mv * 13107200) = Zpos mv * 13107200) as HP by done.
  change (2 ^ 47) with 140737488355328.
  destruct (Z.ltb_spec (Zpos (mv * 13107200)) 140737488355328) as [Hlt|Hge].
  - apply binary_round_aux_closed; [|lia|lia].
    apply digits2_pos_unique.
    change (2 ^ (24 + 23 - 1)) with 70368744177664.
    change (2 ^ (24 + 23)) with 140737488355328. lia.
  - apply binary_round_aux_closed; [|lia|lia].
    apply digits2_pos_unique.
    change (2 ^ (24 + 24 - 1)) with 140737488355328.
    change (2 ^ (24 + 24)) with 281474976710656. lia.
Qed.

Lemma div_hundred_closed (sx : bool) (m1 : positive) (e1 : Z) :
  8388608 <= Zpos m1 < 16777216 -> -100 <= e1 <= 80 ->
  Float32.div (S754_finite sx m1 e1) Float32.hundred =
  let M := Zpos m1 * 16777216 in
  let q := M / 13107200 in
  let l := new_location 13107200 (M mod 13107200) in
  let n := if q <? 16777216 then 0 else 1 in
  Znormal sx (Zround_shift q n (loc_r l) (loc_s l)) (e1 - 7 + n).
Proof.
  intros Hm He. rewrite hundred_eq. cbn zeta.
  unfold Float32.div, Float32.prec, Float32.emax, SFdiv.
  rewrite xorb_false_r.
  assert (SFdiv_core_binary 24 128 (Zpos m1) e1 13107200 (-17) =
          (Zpos m1 * 16777216 / 13107200, e1 - 7,
           new_location 13107200 ((Zpos m1 * 16777216) mod 13107200))) as ->.
  { unfold SFdiv_core_binary. cbn [Zdigits2].
    rewrite (digits2_pos_unique m1 24) by (cbn; lia).
    change (Zpos (digits2_pos 13107200)) with 24.
    assert (fexp 24 128 (24 + e1 - (24 + -17)) = e1 - 7) as ->
      by (unfold fexp, emin; lia).
    replace (Z.min (e1 - 7) (e1 - -17)) with (e1 - 7) by lia.
    replace (e1 - -17 - (e1 - 7)) with 24 by lia.
    rewrite Z.shiftl_mul_pow2 by lia. change (2 ^ 24) with 16777216.
    unfold Z.div, Z.modulo.
    by destruct (Z.div_eucl (Zpos m1 * 16777216) 13107200). }
  set (M := Zpos m1 * 16777216).
  assert (10737418 <= M / 13107200) by (apply Z.div_le_lower_bound; lia).
  assert (M / 13107200 < 21474837) by (apply Z.div_lt_upper_bound; lia).
  destruct (M / 13107200) as [|q|q] eqn:Hq; [lia| |lia].
  destruct (Z.ltb_spec (Zpos q) 16777216) as [Hlt|Hge].
  - apply binary_round_aux_closed; [|lia|lia].
    apply digits2_pos_unique. cbn. lia.
  - apply binary_round_aux_closed; [|lia|lia].
    apply digits2_pos_unique. cbn. lia.
Qed.

Lemma round_closed (sx : bool) (mp : positive) (ep : Z) :
  0 < Float32.round_magnitude mp ep ->
  Float32.round (S754_finite sx mp ep) =
  Float32.of_int (cond_Zopp sx (Float32.round_magnitude mp ep)).
Proof.
  intros HN. unfold Float32.round, Float32.of_int.
  destruct (Float32.round_magnitude mp ep) as [|p|p]; [lia| |lia].
  by destruct sx.
Qed.

Lemma to_int_of_int (sx : bool) (N : Z) :
  0 < N < 16777216 ->
  Float32.to_int (Float32.of_int (cond_Zopp sx N)) = Some (cond_Zopp sx N).
Proof.
  intros HN. destruct N as [|p|p]; [lia| |lia].
  pose proof (digits2_pos_bounds p) as Hb.
  set (d := Zpos (digits2_pos p)) in *.
  assert (1 <= d) by (unfold d; lia).
  assert (d <= 24).
  { destruct (Z.leb_spec d 24); [done|].
    assert (2 ^ 24 <= 2 ^ (d - 1)) by (apply Z.pow_le_mono_r; lia).
    change (2 ^ 24) with 16777216 in *. lia. }
  rewrite (of_int_closed sx (Zpos p) d) by (done || lia).
  assert (0 < 2 ^ (24 - d)) by (apply Z.pow_pos_nonneg; lia).
  unfold Float32.to_int.
  assert (Float32.trunc_magnitude (Z.to_pos (Zpos p * 2 ^ (24 - d))) (d - 24)
          = Zpos p) as ->.
  { unfold Float32.trunc_magnitude.
    destruct (d - 24) as [|c|c] eqn:Hc; [|lia|].
    - replace (24 - d) with 0 by lia. rewrite Z.mul_1_r. done.
    - rewrite Z2Pos.id by lia. rewrite Z.shiftr_div_pow2 by lia.
      replace (24 - d) with (Zpos c) by lia. by rewrite Z.div_mul by lia. }
  assert (int_min <= cond_Zopp sx (Zpos p) <= int_max) as [Hlo Hhi].
  { unfold int_min, int_max. change (2 ^ 31) with 2147483648.
    destruct sx; cbn [cond_Zopp]; lia. }
  apply Z.leb_le in Hlo, Hhi. by rewrite Hlo, Hhi.
Qed.

Lemma div_round_spec_0 (M : Z) :
  0 <= M ->
  let q := M / 13107200 in
  let l := new_location 13107200 (M mod 13107200) in
  let R := Zround_shift q 0 (loc_r l) (loc_s l) in
  -6553600 <= 13107200 * R - M <= 6553600.
Proof.
  intros HM. cbn zeta. unfold Zround_shift. cbn [Z.eqb].
  unfold new_location. change (Z.even 13107200) with true. cbv iota.
  unfold new_location_even.
  pose proof (Z.mod_pos_bound M 13107200 ltac:(lia)) as Hr.
  pose proof (Z.div_mod M 13107200 ltac:(lia)) as Hq.
  set (q := M / 13107200) in *. set (r := M mod 13107200) in *.
  unfold Zrne.
  destruct (Z.eqb_spec r 0) as [Hr0|Hr0]; cbn [loc_r loc_s andb].
  - lia.
  - destruct (Z.compare_spec (2 * r) 13107200); cbn [loc_r loc_s andb orb];
      try lia.
    destruct (Z.odd q); lia.
Qed.

Lemma div_round_spec_1 (M : Z) :
  0 <= M ->
  let q := M / 13107200 in
  let l := new_location 13107200 (M mod 13107200) in
  let R := Zround_shift q 1 (loc_r l) (loc_s l) in
  -13107200 <= 26214400 * R - M <= 13107200.
Proof.
  intros HM. cbn zeta. unfold Zround_shift. cbn [Z.eqb].
  change (2 ^ 1) with 2. change (2 ^ (1 - 1)) with 1.
  rewrite Z.div_1_r, Z.mod_1_r. cbn [Z.eqb negb]. rewrite orb_false_r.
  unfold new_location. change (Z.even 13107200) with true. cbv iota.
  unfold new_location_even.
  pose proof (Z.mod_pos_bound M 13107200 ltac:(lia)) as Hr.
  pose proof (Z.div_mod M 13107200 ltac:(lia)) as Hq.
  set (q := M / 13107200) in *. set (r := M mod 13107200) in *.
  unfold Zrne. rewrite !Zodd_mod.
  pose proof (Z.div_mod q 2 ltac:(lia)) as Hq2.
  pose proof (Z.mod_pos_bound q 2 ltac:(lia)) as Hq2b.
  pose proof (Z.div_mod (q / 2) 2 ltac:(lia)) as Hq4.
  pose proof (Z.mod_pos_bound (q / 2) 2 ltac:(lia)) as Hq4b.
  destruct (Z.eqb_spec (q mod 2) 1) as [Ho|Ho];
    destruct (Z.eqb_spec ((q / 2) mod 2) 1) as [Ho'|Ho'];
    destruct (Z.eqb_spec r 0) as [Hr0|Hr0]; cbn [loc_r loc_s andb orb];
    try lia;
    destruct (Z.compare_spec (2 * r) 13107200); cbn [loc_r loc_s andb orb];
    lia.
Qed.

Ltac mul_round_tac :=
  unfold Zround_shift; cbn [Z.eqb]; unfold Zrne; cbn [orb];
  rewrite !Zodd_mod;
  repeat match goal with
         | |- context [2 ^ ?n] =>
             let v := eval vm_compute in (2 ^ n) in change (2 ^ n) with v
         end;
  repeat match goal with
         | |- context [?x =? ?y] => destruct (Z.eqb_spec x y)
         end;
  cbn [andb orb negb]; Z.div_mod_to_equations; lia.

Lemma mul_round_spec_23 (P : Z) :
  0 <= P ->
  -4194304 <= 8388608 * Zround_shift P 23 false false - P <= 4194304.
Proof. intros HP. mul_round_tac. Qed.

Lemma mul_round_spec_24 (P : Z) :
  0 <= P ->
  -8388608 <= 16777216 * Zround_shift P 24 false false - P <= 8388608.
Proof. intros HP. mul_round_tac. Qed.

Lemma Znormal_cases (sx : bool) (R e : Z) :
  8388608 <= R <= 16777216 ->
  exists mp e',
    Znormal sx R e = S754_finite sx mp e' /\
    ((Zpos mp = R /\ e' = e /\ R < 16777216) \/
     (Zpos mp = 8388608 /\ e' = e + 1 /\ R = 16777216)).
Proof.
  intros HR. unfold Znormal. destruct (Z.ltb_spec R 16777216).
  - exists (Z.to_pos R), e. split; [done|]. left. rewrite Z2Pos.id by lia. lia.
  - exists 8388608%positive, (e + 1). split; [done|]. right. lia.
Qed.

(** The quotient by [100.0f] of a normal float. *)
Lemma div_step (sx : bool) (m1 : positive) (e1 : Z) :
  8388608 <= Zpos m1 < 16777216 -> -100 <= e1 <= 80 ->
  exists mv ev,
    Float32.div (S754_finite sx m1 e1) Float32.hundred = S754_finite sx mv ev /\
    8388608 <= Zpos mv < 16777216 /\
    ((ev = e1 - 7 /\
      -6553600 <= 13107200 * Zpos mv - Zpos m1 * 16777216 <= 6553600) \/
     (ev = e1 - 6 /\
      -13107200 <= 26214400 * Zpos mv - Zpos m1 * 16777216 <= 13107200)).
Proof.
  intros Hm He. rewrite div_hundred_closed by done. cbn zeta.
  set (M := Zpos m1 * 16777216).
  assert (0 <= M) by lia.
  pose proof (Z.mod_pos_bound M 13107200 ltac:(lia)) as Hr.
  pose proof (Z.div_mod M 13107200 ltac:(lia)) as Hq.
  destruct (Z.ltb_spec (M / 13107200) 16777216) as [Hlt|Hge].
  - pose proof (div_round_spec_0 M ltac:(lia)) as HR. cbn zeta in HR.
    match type of HR with context [13107200 * ?x - M] => set (R := x) in * end.
    destruct (Znormal_cases sx R (e1 - 7 + 0)) as (mp & e' & -> & Hcase);
      [lia|].
    exists mp, e'. split; [done|]. destruct Hcase as [(E1 & -> & ?)|(E1 & -> & E2)].
    + split; [lia|]. left. split; [lia|]. by rewrite E1.
    + exfalso. lia.
  - pose proof (div_round_spec_1 M ltac:(lia)) as HR. cbn zeta in HR.
    match type of HR with context [26214400 * ?x - M] => set (R := x) in * end.
    destruct (Znormal_cases sx R (e1 - 7 + 1)) as (mp & e' & -> & Hcase);
      [lia|].
    exists mp, e'. split; [done|]. destruct Hcase as [(E1 & -> & ?)|(E1 & -> & E2)].
    + split; [lia|]. right. split; [lia|]. by rewrite E1.
    + exfalso. lia.
Qed.

(** The product with [100.0f] of a normal float: the mantissa [R] rounded
    to 24 bits, renormalised when it reaches 2^24. *)
Lemma mul_step (sx : bool) (mv : positive) (ev : Z) :
  8388608 <= Zpos mv < 16777216 -> -100 <= ev <= 80 ->
  exists mp ep R,
    Float32.mul (S754_finite sx mv ev) Float32.hundred = S754_finite sx mp ep /\
    ((-4194304 <= 8388608 * R - Zpos mv * 13107200 <= 4194304 /\
      ((Zpos mp = R /\ ep = ev + 6 /\ R < 16777216) \/
       (Zpos mp = 8388608 /\ ep = ev + 7 /\ R = 16777216))) \/
     (-8388608 <= 16777216 * R - Zpos mv * 13107200 <= 8388608 /\
      Zpos mp = R /\ ep = ev + 7 /\ R < 16777216)).
Proof.
  intros Hm He. rewrite mul_hundred_closed by done. cbn zeta.
  set (P := Zpos mv * 13107200). change (2 ^ 47) with 140737488355328.
  destruct (Z.ltb_spec P 140737488355328) as [Hlt|Hge].
  - pose proof (mul_round_spec_23 P ltac:(lia)) as HR.
    set (R := Zround_shift P 23 false false) in *.
    destruct (Znormal_cases sx R (ev - 17 + 23)) as (mp & e' & -> & Hcase);
      [lia|].
    exists mp, e', R. split; [done|]. left. split; [done|].
    destruct Hcase as [(E1 & -> & ?)|(E1 & -> & E2)]; [left|right]; lia.
  - pose proof (mul_round_spec_24 P ltac:(lia)) as HR.
    set (R := Zround_shift P 24 false false) in *.
    destruct (Znormal_cases sx R (ev - 17 + 24)) as (mp & e' & -> & Hcase);
      [lia|].
    exists mp, e', R. split; [done|]. right. split; [done|].
    destruct Hcase as [(E1 & -> & ?)|(E1 & -> & E2)]; lia.
Qed.

Ltac compute_pow :=
  repeat match goal with
         | |- context [2 ^ ?n] =>
             let v := eval vm_compute in (2 ^ n) in change (2 ^ n) with v
         | H : context [2 ^ ?n] |- _ =>
             let v := eval vm_compute in (2 ^ n) in change (2 ^ n) with v in H
         end.

Ltac round_magnitude_tac :=
  match goal with
  | |- context [Float32.round_magnitude ?m ?e] =>
      let v := eval vm_compute in e in change e with v
  end;
  cbn [Float32.round_magnitude];
  rewrite ?Z.shiftr_div_pow2 by lia;
  repeat match goal with
         | |- context [Z.pos ?p - 1] =>
             let v := eval vm_compute in (Z.pos p - 1) in
             change (Z.pos p - 1) with v
         end;
  compute_pow; Z.div_mod_to_equations; lia.

Lemma round_of_product (a d : Z) (m1 mv mp : positive) (ev ep R : Z) :
  1 <= d <= 23 -> 2 ^ (d - 1) <= a < 2 ^ d -> a < 6553600 ->
  Zpos m1 = a * 2 ^ (24 - d) ->
  8388608 <= Zpos mv < 16777216 ->
  ((ev = d - 24 - 7 /\
    -6553600 <= 13107200 * Zpos mv - Zpos m1 * 16777216 <= 6553600) \/
   (ev = d - 24 - 6 /\
    -13107200 <= 26214400 * Zpos mv - Zpos m1 * 16777216 <= 13107200)) ->
  ((-4194304 <= 8388608 * R - Zpos mv * 13107200 <= 4194304 /\
    ((Zpos mp = R /\ ep = ev + 6 /\ R < 16777216) \/
     (Zpos mp = 8388608 /\ ep = ev + 7 /\ R = 16777216))) \/
   (-8388608 <= 16777216 * R - Zpos mv * 13107200 <= 8388608 /\
    Zpos mp = R /\ ep = ev + 7 /\ R < 16777216)) ->
  Float32.round_magnitude mp ep = a.
Proof.
  intros Hd Ha Hlim Hm1 Hmv Hdiv Hmul.
  assert (d = 1 \/ d = 2 \/ d = 3 \/ d = 4 \/ d = 5 \/ d = 6 \/ d = 7 \/
          d = 8 \/ d = 9 \/ d = 10 \/ d = 11 \/ d = 12 \/
          d = 13 \/ d = 14 \/ d = 15 \/ d = 16 \/ d = 17 \/ d = 18 \/
          d = 19 \/ d = 20 \/ d = 21 \/ d = 22 \/ d = 23) as Hcases by lia.
  destruct Hdiv as [[-> Hdiv]|[-> Hdiv]];
    destruct Hmul as [[Hmul [(E & -> & HR)|(E & -> & HR)]]|(Hmul & E & -> & HR)];
    repeat (destruct Hcases as [->|Hcases]); try subst d;
    compute_pow; round_magnitude_tac.
Qed.

Lemma ptr_to_int_int_to_ptr (k : Z) :
  int_min <= k <= int_max -> ptr_to_int (int_to_ptr k) = k.
Proof.
  unfold int_min, int_max, ptr_to_int, int_to_ptr.
  change (2 ^ 31) with 2147483648. change (2 ^ 32) with 4294967296.
  intros Hk. rewrite Z.mod_mod by lia.
  destruct (Z.ltb_spec (k mod 4294967296) 2147483648);
    Z.div_mod_to_equations; lia.
Qed.

Lemma codec_magnitude (sx : bool) (a : Z) :
  1 <= a < 6553600 ->
  floatToVoid (Float32.div (Float32.of_int (cond_Zopp sx a)) Float32.hundred)
  = Some (int_to_ptr (cond_Zopp sx a)).
Proof.
  intros Ha. destruct a as [|p|p]; [lia| |lia].
  pose proof (digits2_pos_bounds p) as Hb.
  set (d := Zpos (digits2_pos p)) in *.
  assert (1 <= d) by (unfold d; lia).
  assert (d <= 23).
  { destruct (Z.leb_spec d 23); [done|].
    assert (2 ^ 23 <= 2 ^ (d - 1)) by (apply Z.pow_le_mono_r; lia).
    change (2 ^ 23) with 8388608 in *. lia. }
  rewrite (of_int_closed sx (Zpos p) d) by (done || lia).
  assert (0 < 2 ^ (24 - d)) by (apply Z.pow_pos_nonneg; lia).
  assert (2 ^ (24 - d) * 2 ^ (d - 1) = 8388608) as E1.
  { rewrite <- Z.pow_add_r by lia. by replace (24 - d + (d - 1)) with 23 by lia. }
  assert (2 ^ (24 - d) * 2 ^ d = 16777216) as E2.
  { rewrite <- Z.pow_add_r by lia. by replace (24 - d + d) with 24 by lia. }
  set (m1 := Z.to_pos (Zpos p * 2 ^ (24 - d))).
  assert (Zpos m1 = Zpos p * 2 ^ (24 - d)) as Hm1
    by (unfold m1; rewrite Z2Pos.id; lia).
  assert (8388608 <= Zpos m1 < 16777216) as Hm1b by nia.
  destruct (div_step sx m1 (d - 24) Hm1b ltac:(lia))
    as (mv & ev & -> & Hmv & Hdiv).
  unfold floatToVoid.
  destruct (mul_step sx mv ev Hmv) as (mp & ep & R & -> & Hmul);
    [destruct Hdiv as [[-> _]|[-> _]]; lia|].
  assert (Float32.round_magnitude mp ep = Zpos p) as HN.
  { apply (round_of_product (Zpos p) d m1 mv mp ev ep R); try done; lia. }
  rewrite round_closed by (rewrite HN; lia).
  rewrite HN, to_int_of_int; [done|lia].
Qed.

Lemma Qabs_diag (q : Q) (tol : Q) : (0 <= tol)%Q -> (Qabs (q - q) <= tol)%Q.
Proof.
  intros Htol. assert (q - q == 0)%Q as -> by ring. exact Htol.
Qed.

(** C1, as the code has it.  For every count [k] of hundredths of
    magnitude below 65536.00, the float [k / 100.0f] that decoding gives
    for it encodes back to [k]: the round trip through encode and decode
    returns that float exactly, well within 0.005; and 21.5 is encoded as
    the integer 2150. *)
Theorem float_codec_round_trip (k : Z) :
  - codec_bound < k < codec_bound ->
  floatToVoid (voidToFloat (int_to_ptr k)) = Some (int_to_ptr k) /\
  roundtrip_within (1 # 200) (voidToFloat (int_to_ptr k)) /\
  floatToVoid f_21_5 = Some 2150 /\ voidToFloat 2150 = f_21_5.
Proof.
  unfold codec_bound. intros Hk.
  assert (floatToVoid (voidToFloat (int_to_ptr k)) = Some (int_to_ptr k))
    as Hround.
  { unfold voidToFloat. cbn zeta.
    rewrite ptr_to_int_int_to_ptr
      by (unfold int_min, int_max; change (2 ^ 31) with 2147483648; lia).
    destruct (Z.lt_trichotomy k 0) as [Hneg|[->|Hpos]].
    - replace k with (cond_Zopp true (- k)) by (cbn; lia).
      apply codec_magnitude. lia.
    - by vm_compute.
    - apply (codec_magnitude false k). lia. }
  split; [done|]. split; [|by vm_compute].
  exists (int_to_ptr k). split; [done|]. by apply Qabs_diag.
Qed.

(** ** The codec beyond the round trip *)

Lemma ptr_to_int_range (p : payload) : int_min <= ptr_to_int p <= int_max.
Proof.
  unfold int_min, int_max, ptr_to_int.
  change (2 ^ 31) with 2147483648. change (2 ^ 32) with 4294967296.
  destruct (Z.ltb_spec (p mod 4294967296) 2147483648);
    Z.div_mod_to_equations; lia.
Qed.

Lemma int_to_ptr_range (n : Z) : 0 <= int_to_ptr n < 2 ^ 32.
Proof. unfold int_to_ptr. apply Z.mod_pos_bound. done. Qed.

Lemma int_to_ptr_ptr_to_int (p : payload) :
  0 <= p < 2 ^ 32 -> int_to_ptr (ptr_to_int p) = p.
Proof.
  unfold ptr_to_int, int_to_ptr.
  change (2 ^ 31) with 2147483648. change (2 ^ 32) with 4294967296.
  intros Hp. destruct (Z.ltb_spec (p mod 4294967296) 2147483648);
    Z.div_mod_to_equations; lia.
Qed.

(** The conversion of a non-zero [int] is a normal float. *)
Lemma of_int_normal (sx : bool) (a : Z) :
  1 <= a <= 2147483648 ->
  exists m e,
    Float32.of_int (cond_Zopp sx a) = S754_finite sx m e /\
    8388608 <= Zpos m < 16777216 /\ -23 <= e <= 9.
Proof.
  intros Ha. destruct a as [|p|p]; [lia| |lia].
  pose proof (digits2_pos_bounds p) as Hb.
  pose proof (eq_refl (Zpos (digits2_pos p))) as Hdig.
  set (d := Zpos (digits2_pos p)) in Hb, Hdig at 2.
  assert (1 <= d) by (unfold d; lia).
  assert (d <= 32).
  { destruct (Z.leb_spec d 32); [done|].
    assert (2 ^ 32 <= 2 ^ (d - 1)) by (apply Z.pow_le_mono_r; lia).
    change (2 ^ 32) with 4294967296 in *. lia. }
  destruct (Z.leb_spec d 24) as [Hsmall|Hbig].
  - rewrite (of_int_closed sx (Zpos p) d) by (done || lia).
    assert (0 < 2 ^ (24 - d)) by (apply Z.pow_pos_nonneg; lia).
    assert (2 ^ (24 - d) * 2 ^ (d - 1) = 8388608) as E1.
    { rewrite <- Z.pow_add_r by lia.
      by replace (24 - d + (d - 1)) with 23 by lia. }
    assert (2 ^ (24 - d) * 2 ^ d = 16777216) as E2.
    { rewrite <- Z.pow_add_r by lia. by replace (24 - d + d) with 24 by lia. }
    eexists _, _. split; [done|]. rewrite Z2Pos.id by nia. split; [nia|lia].
  - assert (Float32.of_int (cond_Zopp sx (Zpos p)) =
            binary_round 24 128 sx p 0) as ->.
    { unfold Float32.of_int, Float32.prec, Float32.emax. by destruct sx. }
    unfold binary_round. rewrite Z.add_0_r, Hdig.
    assert (fexp 24 128 d = d - 24) as -> by (unfold fexp, emin; lia).
    assert (shl_align p 0 (d - 24) = (p, 0)) as ->.
    { unfold shl_align. rewrite Z.sub_0_r.
      destruct (d - 24) as [|c|c] eqn:Hc; [lia|done|lia]. }
    rewrite (binary_round_aux_closed sx p 0 loc_Exact (d - 24))
      by (rewrite ?Hdig; lia).
    cbn [loc_r loc_s]. rewrite Z.add_0_l.
    set (R := Zround_shift (Zpos p) (d - 24) false false).
    assert (8388608 <= R <= 16777216) as HR.
    { unfold R, Zround_shift.
      rewrite (proj2 (Z.eqb_neq (d - 24) 0)) by lia.
      match goal with |- context [Zrne ?q ?r ?s] =>
        pose proof (Zrne_bounds q r s) end.
      assert (0 < 2 ^ (d - 24)) by (apply Z.pow_pos_nonneg; lia).
      assert (2 ^ (d - 1) = 8388608 * 2 ^ (d - 24)) as E1.
      { change 8388608 with (2 ^ 23). rewrite <- Z.pow_add_r by lia.
        f_equal. lia. }
      assert (2 ^ d = 16777216 * 2 ^ (d - 24)) as E2.
      { change 16777216 with (2 ^ 24). rewrite <- Z.pow_add_r by lia.
        f_equal. lia. }
      assert (8388608 <= Zpos p / 2 ^ (d - 24))
        by (apply Z.div_le_lower_bound; lia).
      assert (Zpos p / 2 ^ (d - 24) < 16777216)
        by (apply Z.div_lt_upper_bound; lia).
      lia. }
    destruct (Znormal_cases sx R (d - 24) HR) as (mp & e' & -> & Hcase).
    exists mp, e'. split; [done|]. destruct Hcase as [(E & -> & ?)|(E & -> & ?)]; lia.
Qed.

Lemma valid_normal (sx : bool) (m : positive) (e : Z) :
  8388608 <= Zpos m < 16777216 -> -149 <= e <= 104 ->
  Float32.valid (S754_finite sx m e) = true.
Proof.
  intros Hm He.
  unfold Float32.valid, Float32.prec, Float32.emax, valid_binary, bounded,
    canonical_mantissa.
  rewrite (digits2_pos_unique m 24) by (cbn; lia).
  rewrite fexp_normal by lia. replace (24 + e - 24) with e by lia.
  rewrite (proj2 (Z.leb_le e (128 - 24))) by lia.
  rewrite andb_true_r. apply Z.eqb_refl.
Qed.

Lemma voidToFloat_nonzero (sx : bool) (a : Z) :
  1 <= a <= 2147483648 ->
  exists m e,
    Float32.div (Float32.of_int (cond_Zopp sx a)) Float32.hundred
      = S754_finite sx m e /\
    8388608 <= Zpos m < 16777216 /\ -30 <= e <= 3.
Proof.
  intros Ha. destruct (of_int_normal sx a Ha) as (m1 & e1 & -> & Hm1 & He1).
  destruct (div_step sx m1 e1 Hm1 ltac:(lia)) as (mv & ev & -> & Hmv & Hev).
  exists mv, ev. split; [done|]. split; [done|].
  destruct Hev as [[-> _]|[-> _]]; lia.
Qed.

(** X2.  [voidToFloat] is total, and whatever 32-bit pattern the host
    passes, the float handed to [writeFloat] is a well-formed finite
    binary32 number, never a NaN or an infinity; it is zero exactly for the
    pattern of the integer 0, and it has the sign of the integer the pattern
    stands for. *)
Theorem voidToFloat_is_finite (p : payload) :
  Float32.is_finite (voidToFloat p) = true /\
  Float32.valid (voidToFloat p) = true /\
  match voidToFloat p with
  | S754_zero _ => ptr_to_int p = 0
  | S754_finite s _ _ => s = (ptr_to_int p <? 0) /\ ptr_to_int p <> 0
  | _ => False
  end.
Proof.
  unfold voidToFloat. cbn zeta.
  pose proof (ptr_to_int_range p) as Hr. unfold int_min, int_max in Hr.
  change (2 ^ 31) with 2147483648 in Hr.
  destruct (Z.lt_trichotomy (ptr_to_int p) 0) as [Hneg|[->|Hpos]].
  - destruct (voidToFloat_nonzero true (- ptr_to_int p) ltac:(lia))
      as (m & e & Heq & Hm & He).
    replace (cond_Zopp true (- ptr_to_int p)) with (ptr_to_int p) in Heq
      by (cbn; lia).
    rewrite Heq. split; [done|]. split; [apply valid_normal; lia|].
    split; [|lia]. symmetry. by apply Z.ltb_lt.
  - by vm_compute.
  - destruct (voidToFloat_nonzero false (ptr_to_int p) ltac:(lia))
      as (m & e & Heq & Hm & He).
    cbn [cond_Zopp] in Heq.
    rewrite Heq. split; [done|]. split; [apply valid_normal; lia|].
    split; [|lia]. symmetry. apply Z.ltb_ge. lia.
Qed.

Lemma to_int_range (x : float) (n : Z) :
  Float32.to_int x = Some n -> int_min <= n <= int_max.
Proof.
  destruct x as [s|s| |s m e]; cbn; try done.
  - intros [= <-]. unfold int_min, int_max.
    change (2 ^ 31) with 2147483648. lia.
  - destruct (Z.leb_spec int_min (cond_Zopp s (Float32.trunc_magnitude m e)));
      [|done].
    destruct (Z.leb_spec (cond_Zopp s (Float32.trunc_magnitude m e)) int_max);
      [|done].
    cbn. by intros [= <-].
Qed.

(** X3.  [floatToVoid] returns only for a finite float whose rounded
    product with [100.0f] fits an [int]: for a NaN or an infinity the cast
    is undefined.  When it returns, the payload is the 32-bit image of that
    [int], so reading it back as an [int] loses nothing. *)
Theorem floatToVoid_defined_within_int (v : float) (p : payload) :
  floatToVoid v = Some p ->
  Float32.is_finite v = true /\
  0 <= p < 2 ^ 32 /\
  int_min <= ptr_to_int p <= int_max /\
  Float32.to_int (Float32.round (Float32.mul v Float32.hundred))
    = Some (ptr_to_int p) /\
  int_to_ptr (ptr_to_int p) = p.
Proof.
  unfold floatToVoid.
  destruct (Float32.to_int _) as [n|] eqn:Hn; [|done].
  intros [= <-]. pose proof (to_int_range _ _ Hn) as Hr.
  rewrite ptr_to_int_int_to_ptr by done.
  split; [|split; [apply int_to_ptr_range|done]].
  by destruct v as [s|[]| |s m e].
Qed.


(** *** The encoding of a negated value *)

Lemma binary_round_aux_opp (sx : bool) (m e : Z) (l : location) :
  binary_round_aux 24 128 (negb sx) m e l =
  SFopp (binary_round_aux 24 128 sx m e l).
Proof.
  unfold binary_round_aux.
  destruct (shr_fexp 24 128 m e l) as [mrs e'].
  destruct (shr_fexp 24 128 _ e' loc_Exact) as [mrs' e''].
  destruct (shr_m mrs'); [done| |done]. by destruct (e'' <=? _).
Qed.

Lemma mul_hundred_opp (v : float) :
  Float32.mul (float_opp v) Float32.hundred =
  float_opp (Float32.mul v Float32.hundred).
Proof.
  rewrite hundred_eq.
  unfold float_opp, Float32.mul, Float32.prec, Float32.emax.
  destruct v as [s|s| |s m e]; cbn [SFopp SFmul].
  - by destruct s.
  - by destruct s.
  - done.
  - destruct s; cbn [xorb negb].
    + apply (binary_round_aux_opp true).
    + apply (binary_round_aux_opp false).
Qed.

Lemma round_magnitude_nonneg (m : positive) (e : Z) :
  0 <= Float32.round_magnitude m e.
Proof.
  unfold Float32.round_magnitude. destruct e as [|p|p]; [lia| |].
  - apply Z.shiftl_nonneg. lia.
  - apply Z.shiftr_nonneg.
    assert (0 <= Z.shiftr (Zpos m) (Zpos p - 1))
      by (apply Z.shiftr_nonneg; lia).
    lia.
Qed.

Lemma round_opp (x : float) :
  Float32.round (float_opp x) = float_opp (Float32.round x).
Proof.
  unfold float_opp. destruct x as [s|s| |s m e]; try done.
  cbn [SFopp Float32.round].
  pose proof (round_magnitude_nonneg m e) as HN.
  destruct (Float32.round_magnitude m e) as [|p|p]; [by destruct s| |lia].
  unfold Float32.prec, Float32.emax.
  destruct s.
  - change (binary_round 24 128 false p 0 =
            SFopp (binary_round 24 128 true p 0)).
    unfold binary_round. destruct (shl_align _ _ _) as [mz ez].
    apply (binary_round_aux_opp true).
  - change (binary_round 24 128 true p 0 =
            SFopp (binary_round 24 128 false p 0)).
    unfold binary_round. destruct (shl_align _ _ _) as [mz ez].
    apply (binary_round_aux_opp false).
Qed.

Lemma to_int_opp (x : float) (n : Z) :
  Float32.to_int x = Some n -> n <> int_min ->
  Float32.to_int (float_opp x) = Some (- n).
Proof.
  unfold float_opp. destruct x as [s|s| |s m e]; cbn; try done.
  - by intros [= <-].
  - set (T := Float32.trunc_magnitude m e).
    destruct (Z.leb_spec int_min (cond_Zopp s T)); [|done].
    destruct (Z.leb_spec (cond_Zopp s T) int_max); [|done].
    cbn. intros [= <-] Hne.
    assert (cond_Zopp (negb s) T = - cond_Zopp s T) as ->
      by (destruct s; cbn; lia).
    unfold int_min, int_max in *. change (2 ^ 31) with 2147483648 in *.
    rewrite (proj2 (Z.leb_le _ _)) by lia.
    by rewrite (proj2 (Z.leb_le _ _)) by lia.
Qed.

(** X17.  The encoding is odd: when [floatToVoid] returns for a value,
    it returns for the negated value too, with the opposite integer, the
    one exception being the integer [INT_MIN], whose opposite is not an
    [int]. *)
Theorem floatToVoid_is_odd (v : float) (p : payload) :
  floatToVoid v = Some p ->
  ptr_to_int p <> int_min ->
  floatToVoid (float_opp v) = Some (int_to_ptr (- ptr_to_int p)) /\
  ptr_to_int (int_to_ptr (- ptr_to_int p)) = - ptr_to_int p.
Proof.
  unfold floatToVoid. rewrite mul_hundred_opp, round_opp.
  destruct (Float32.to_int _) as [n|] eqn:Hn; [|done].
  intros [= <-]. pose proof (to_int_range _ _ Hn) as Hr.
  rewrite ptr_to_int_int_to_ptr by done. intros Hne.
  rewrite (to_int_opp _ n Hn Hne). split; [done|].
  apply ptr_to_int_int_to_ptr. unfold int_min, int_max in *. lia.
Qed.


Section Properties.

Context {U : Type}.
Variable vptr : payload -> Characteristic_vtable U.
Variable hap_accessory_register_result : list event -> payload.
Variable hap_accessory_add_result : list event -> payload.

#[local] Existing Instances M_ret M_bind.

Ltac unfold_M :=
  repeat progress
    (unfold mbind, M_bind, bind, mret, M_ret, ret, get, modify,
            lift, log, fail in *);
  cbn.

Lemma filter_none {A} (P : A -> Prop) `{forall x, Decision (P x)} (l : list A) :
  (forall x, x ∈ l -> ~ P x) -> filter P l = [].
Proof.
  induction l as [|x l IH]; intros Hl; [done|].
  rewrite filter_cons_False by (apply Hl; left).
  apply IH. intros y Hy. apply Hl. by right.
Qed.

(** ** Dispatching *)

Lemma call_listeners_eq (this : payload) (ls : list (listener U)) :
  forall i (w : World U),
    call_listeners this i ls w =
    Some (tt, {| user := run_listeners this ls (user w);
                 store := store w;
                 characteristics := characteristics w;
                 accessories := accessories w;
                 hap_initialized := hap_initialized w;
                 trace := trace w ++ listener_events this i ls |}).
Proof.
  induction ls as [|[f|] ls IH]; intros i w; cbn [call_listeners].
  - unfold_M. destruct w; cbn. by rewrite app_nil_r.
  - unfold_M. rewrite IH. cbn. by rewrite <- app_assoc.
  - unfold_M. by rewrite IH.
Qed.

Lemma value_changed_quiet this value (w : World U) c :
  characteristics w !! this = Some c ->
  event_handle c = nullptr ->
  value_changed this value w = Some (tt, dispatched this value c [] w).
Proof.
  intros Hc He. unfold value_changed, the_characteristic. unfold_M. cbn.
  rewrite Hc, He. cbn. rewrite call_listeners_eq. cbn.
  unfold dispatched. cbn. by rewrite <- app_assoc.
Qed.

Lemma value_changed_emits this value (w : World U) c h :
  characteristics w !! this = Some c ->
  event_handle c <> nullptr ->
  accessory_handle c = Some h ->
  value_changed this value w =
  Some (tt, dispatched this value c
              [Ev_hap_event_response h (event_handle c) value] w).
Proof.
  intros Hc He Hh. unfold value_changed, the_characteristic, hap_event_response.
  unfold_M. cbn. rewrite Hc.
  destruct (Z.eqb_spec (event_handle c) nullptr) as [|_]; [done|].
  rewrite Hh. cbn. rewrite call_listeners_eq. cbn.
  unfold dispatched. cbn. by rewrite <- !app_assoc.
Qed.

Lemma listener_events_not_dispatch this (ls : list (listener U)) :
  forall i e, e ∈ listener_events this i ls ->
              is_dispatch e = false /\ is_emit_event e = false.
Proof.
  induction ls as [|[f|] ls IH]; intros i e He; cbn in He.
  - by apply elem_of_nil in He.
  - apply elem_of_cons in He as [->|He]; [done|]. by eapply IH.
  - by eapply IH.
Qed.

Lemma listener_events_all_calls this (ls : list (listener U)) :
  forall i, filter (fun e => is_listener_call e = true)
                   (listener_events this i ls) = listener_events this i ls.
Proof.
  induction ls as [|[f|] ls IH]; intros i; cbn [listener_events];
    [done| |by apply IH].
  rewrite filter_cons_True by done. by rewrite IH.
Qed.

(** ** Capabilities of the functional characteristics *)

(** C3.  For the string, float and int functional characteristics,
    [canRead] is true exactly when the read supplier is set and [canWrite]
    is true exactly when the write consumer is set, whatever the state:
    omitting a closure is all it takes to make a characteristic write-only
    or read-only. *)
Theorem functional_capabilities_mirror_closures :
  (forall (f : FunctionCharacteristic U string) (u : U),
      (canRead (StringCharacteristic_vtable (StringFunctionCharacteristic f)) u
       = true <-> is_Some (readFunction f)) /\
      (canWrite (StringCharacteristic_vtable (StringFunctionCharacteristic f)) u
       = true <-> is_Some (writeFunction f))) /\
  (forall (f : FunctionCharacteristic U float) (u : U),
      (canRead (FloatCharacteristic_vtable (FloatFunctionCharacteristic f)) u
       = true <-> is_Some (readFunction f)) /\
      (canWrite (FloatCharacteristic_vtable (FloatFunctionCharacteristic f)) u
       = true <-> is_Some (writeFunction f))) /\
  (forall (f : FunctionCharacteristic U Z) (u : U),
      (canRead (IntCharacteristic_vtable (IntFunctionCharacteristic f)) u
       = true <-> is_Some (readFunction f)) /\
      (canWrite (IntCharacteristic_vtable (IntFunctionCharacteristic f)) u
       = true <-> is_Some (writeFunction f))).
Proof.
  repeat split; intros H; cbn in *;
    first [ by destruct (readFunction f); [eauto | discriminate]
          | by destruct (writeFunction f); [eauto | discriminate]
          | by destruct H as [g ->] ].
Qed.

(** ** Writes *)

Lemma typed_write_eq (t : Typed U) this value len (w : World U) :
  write (typed_vtable t) this value len w =
  match typed_apply t value (user w) (store w) with
  | Some u' => value_changed this value (set_user u' w)
  | None => None
  end.
Proof.
  destruct t as [sc|fc|ic]; cbn;
    [unfold StringCharacteristic_write
    |unfold FloatCharacteristic_write
    |unfold IntCharacteristic_write]; unfold_M.
  - destruct (c_string_at (store w) value) as [s|]; cbn; [|done].
    by destruct (writeString sc s (user w)).
  - by destruct (writeFloat fc (voidToFloat value) (user w)).
  - by destruct (writeInt ic (ptr_to_int value) (user w)).
Qed.

Lemma value_changed_defined this value (w : World U) c :
  characteristics w !! this = Some c ->
  (event_handle c <> nullptr -> is_Some (accessory_handle c)) ->
  exists host,
    value_changed this value w = Some (tt, dispatched this value c host w) /\
    (forall e, e ∈ host -> is_dispatch e = false /\ is_listener_call e = false) /\
    (event_handle c = nullptr -> host = []).
Proof.
  intros Hc Hh. destruct (decide (event_handle c = nullptr)) as [He|He].
  - exists []. split; [by apply value_changed_quiet|].
    split; [by intros e ?%elem_of_nil|done].
  - destruct (Hh He) as [h Hah].
    exists [Ev_hap_event_response h (event_handle c) value].
    split; [by apply value_changed_emits|].
    split; [|done]. by intros e ->%list_elem_of_singleton.
Qed.


(** ** Notifications *)

(** C4.  [notify] calls the registered listeners if [canRead] is true,
    each one once, in order, so that the user's state is what they make of
    it, and calls none if it is false, leaving the user's state as it was;
    and while the event handle is null it makes no call of the host's
    event path. *)
Theorem notify_listeners_iff_canRead
    (this : payload) (w : World U) (c : Characteristic U) :
  characteristics w !! this = Some c ->
  (canRead (vptr this) (user w) = true ->
   is_Some (read (vptr this) (user w) (store w))) ->
  (event_handle c <> nullptr -> is_Some (accessory_handle c)) ->
  exists w' delta,
    notify vptr this w = Some (tt, w') /\
    trace w' = trace w ++ delta /\
    filter (fun e => is_listener_call e = true) delta =
      (if canRead (vptr this) (user w)
       then listener_events this 0 (value_changed_listeners c) else []) /\
    user w' =
      (if canRead (vptr this) (user w)
       then run_listeners this (value_changed_listeners c) (user w)
       else user w) /\
    (event_handle c = nullptr -> forall e, e ∈ delta -> is_emit_event e = false).
Proof.
  intros Hc Hread Hh. unfold notify. unfold_M.
  destruct (canRead (vptr this) (user w)) eqn:Hcan; cbn.
  - destruct (Hread eq_refl) as [[p m] Hr]. unfold call_read. rewrite Hr.
    destruct (value_changed_defined this p (set_store m w) c Hc Hh)
      as (host & -> & Hhost & Hquiet).
    eexists _, _. split; [done|]. cbn. split; [done|]. split; [|split].
    + rewrite filter_cons_False by done. rewrite filter_app.
      rewrite listener_events_all_calls.
      replace (filter _ host) with (@nil event); [done|].
      symmetry. apply filter_none.
      intros e He Hl. apply Hhost in He as [_ He]. congruence.
    + done.
    + intros He e. rewrite (Hquiet He). cbn.
      intros [->|Hin]%elem_of_cons; [done|].
      by eapply listener_events_not_dispatch.
  - exists w, []. rewrite app_nil_r. split; [done|]. split; [done|].
    split; [done|]. split; [done|]. by intros _ e ?%elem_of_nil.
Qed.

(** ** Storage *)

Lemma index_of_address_of (i : nat) : index_of (address_of i) = Some i.
Proof.
  unfold index_of, address_of.
  destruct (Z.leb_spec 1 (Z.of_nat i + 1)); [|lia].
  f_equal. lia.
Qed.

Lemma address_of_inj (i j : nat) : address_of i = address_of j -> i = j.
Proof. unfold address_of. lia. Qed.

Lemma address_of_not_null (i : nat) : address_of i <> nullptr.
Proof. unfold address_of, nullptr. lia. Qed.

Lemma deref_address_of (m : memory) (i : nat) :
  deref m (address_of i) =
  match m !! i with Some (Live b) => Some b | _ => None end.
Proof. unfold deref. by rewrite index_of_address_of. Qed.

Lemma deref_Some (m : memory) (a : payload) (b : block) :
  deref m a = Some b <-> exists i, a = address_of i /\ m !! i = Some (Live b).
Proof.
  split.
  - unfold deref, index_of. destruct (Z.leb_spec 1 a); [|done].
    destruct (m !! Z.to_nat (a - 1)) as [[b'|]|] eqn:E; [|done..].
    intros [= ->]. exists (Z.to_nat (a - 1)). split; [|done].
    unfold address_of. lia.
  - intros (i & -> & Hi). by rewrite deref_address_of, Hi.
Qed.




Lemma release_Some (a : payload) (m m' : memory) :
  release a m = Some m' <->
  exists i b, a = address_of i /\ m !! i = Some (Live b) /\
              m' = <[i := Freed]> m.
Proof.
  split.
  - unfold release, index_of. destruct (Z.leb_spec 1 a); [|done].
    destruct (m !! Z.to_nat (a - 1)) as [[b|]|] eqn:E; [|done..].
    intros [= <-]. exists (Z.to_nat (a - 1)), b.
    split; [unfold address_of; lia|done].
  - intros (i & b & -> & Hi & ->). unfold release.
    by rewrite index_of_address_of, Hi.
Qed.

Lemma release_allocate (m : memory) (b : block) :
  release (fst (allocate b m)) (snd (allocate b m)) = Some (m ++ [Freed]).
Proof.
  apply release_Some. exists (length m), b. unfold allocate. cbn [fst snd].
  split; [done|]. split.
  - by rewrite lookup_app_r, Nat.sub_diag by lia.
  - rewrite insert_app_r_alt, Nat.sub_diag by lia. done.
Qed.

(** ** Reading a textual characteristic *)

Lemma string_read_eq (sc : StringCharacteristic U) (u : U) (m : memory) :
  StringCharacteristic_read sc u m =
  match readString sc u with
  | Some _ => Some (address_of (length m), m ++ [Freed])
  | None => None
  end.
Proof.
  unfold StringCharacteristic_read.
  destruct (readString sc u) as [s|]; cbn; [|done].
  pose proof (release_allocate m (BChars s)) as Hrel.
  unfold allocate in *. cbn [fst snd] in Hrel. by rewrite Hrel.
Qed.

(** C9.  What [StringCharacteristic::read] returns is the address of the
    characters of the temporary that [readString] returned, and that
    temporary is destroyed before [read] returns: in the store [read]
    leaves, the address holds no characters. *)
Theorem string_read_address_is_released
    (sc : StringCharacteristic U) (u : U) (m : memory) :
  match StringCharacteristic_read sc u m with
  | Some (p, m') =>
      is_Some (readString sc u) /\
      p = address_of (length m) /\ m' = m ++ [Freed] /\
      deref m' p = None /\ c_string_at m' p = None
  | None => readString sc u = None
  end.
Proof.
  rewrite string_read_eq. destruct (readString sc u) as [s|]; [|done].
  split; [by eexists|]. do 2 (split; [done|]).
  assert (deref (m ++ [Freed]) (address_of (length m)) = None) as Hd.
  { rewrite deref_address_of.
    by rewrite lookup_app_r, Nat.sub_diag by lia. }
  split; [done|]. unfold c_string_at. by rewrite Hd.
Qed.

(** ** Building and releasing transfer structures *)

Lemma bind_Some {A B} (m : M U A) (k : A -> M U B) (w : World U) r :
  (m ≫= k) w = Some r <-> exists a w1, m w = Some (a, w1) /\ k a w1 = Some r.
Proof.
  unfold mbind, M_bind, bind. split.
  - destruct (m w) as [[a w1]|]; [eauto|done].
  - by intros (a & w1 & -> & ?).
Qed.

Lemma get_characteristic_struct_eq (this : payload) (w : World U) :
  get_characteristic_struct vptr this w =
  (c ← characteristics w !! this;
   max ← get_max_value_override (vptr this) (user w);
   min ← get_min_value_override (vptr this) (user w);
   let vv := get_valid_values_override (vptr this) (user w) in
   let fresh := address_of (length (store w)) in
   '(value, m') ← read (vptr this) (user w)
                    (if fst vv then store w ++ [Live (BInts (snd vv))]
                     else store w);
   Some (transfer_structure (vptr this) (user w) this c max min vv value
           (if fst vv then fresh else nullptr),
         {| user := user w; store := m';
            characteristics := characteristics w;
            accessories := accessories w;
            hap_initialized := hap_initialized w;
            trace := trace w ++ (if fst vv then [Ev_new fresh] else []) |})).
Proof.
  unfold get_characteristic_struct, the_characteristic, new_array, call_read.
  unfold_M.
  destruct (characteristics w !! this) as [c|]; cbn; [|done].
  destruct (get_max_value_override (vptr this) (user w)) as [[omax max]|];
    cbn; [|done].
  destruct (get_min_value_override (vptr this) (user w)) as [[omin min]|];
    cbn; [|done].
  destruct (get_valid_values_override (vptr this) (user w)) as [[|] vv]; cbn.
  - destruct (read (vptr this) (user w) (store w ++ [Live (BInts vv)]))
      as [[value m']|]; cbn; done.
  - destruct (read (vptr this) (user w) (store w)) as [[value m']|]; cbn;
      [|done].
    rewrite app_nil_r. by destruct w.
Qed.

Lemma assign_accessory_handle_eq (ch h : payload) (w : World U) :
  assign_accessory_handle ch h w =
  match characteristics w !! ch with
  | None => None
  | Some _ =>
      Some (tt, emit (Ev_accessory_handle_set ch h)
                  (set_characteristics
                     (assign_back_reference h (characteristics w) ch) w))
  end.
Proof.
  unfold assign_accessory_handle, the_characteristic, put_characteristic.
  unfold_M. unfold assign_back_reference.
  by destruct (characteristics w !! ch) as [c|].
Qed.

Lemma fill_structs_cons_eq (h ch : payload) (rest : list payload) (w : World U) :
  fill_structs vptr h (ch :: rest) w =
  match characteristics w !! ch with
  | None => None
  | Some _ =>
      match get_characteristic_struct vptr ch
              (emit (Ev_accessory_handle_set ch h)
                 (set_characteristics
                    (assign_back_reference h (characteristics w) ch) w)) with
      | None => None
      | Some (s, w1) =>
          match fill_structs vptr h rest w1 with
          | None => None
          | Some (tail, w') => Some (s :: tail, w')
          end
      end
  end.
Proof.
  cbn [fill_structs].
  change (fill_structs vptr h (ch :: rest) w) with
    ((assign_accessory_handle ch h ≫= fun _ =>
      get_characteristic_struct vptr ch ≫= fun cs =>
      fill_structs vptr h rest ≫= fun tail => mret (cs :: tail)) w).
  unfold mbind at 1, M_bind at 1, bind at 1.
  rewrite assign_accessory_handle_eq.
  destruct (characteristics w !! ch) as [c|]; [|done].
  unfold_M.
  destruct (get_characteristic_struct vptr ch _) as [[s w1]|]; [|done].
  by destruct (fill_structs vptr h rest w1) as [[tail w']|].
Qed.




Lemma deref_release (a a' : payload) (m m' : memory) :
  release a m = Some m' ->
  length m' = length m /\
  deref m' a' = if decide (a' = a) then None else deref m a'.
Proof.
  intros (i & b & -> & Hi & ->)%release_Some.
  split; [by rewrite length_insert|].
  destruct (decide (a' = address_of i)) as [->|Hne].
  - rewrite deref_address_of, list_lookup_insert_eq; [done|].
    by eapply lookup_lt_Some.
  - unfold deref. destruct (index_of a') as [j|] eqn:Hj; [|done].
    rewrite list_lookup_insert_ne; [done|].
    intros <-. apply Hne. unfold index_of in Hj.
    destruct (Z.leb_spec 1 a'); [|done]. injection Hj as <-.
    unfold address_of. lia.
Qed.

Lemma delete_array_eq (a : payload) (w : World U) :
  delete_array a w =
  match release a (store w) with
  | Some m => Some (tt, {| user := user w; store := m;
                           characteristics := characteristics w;
                           accessories := accessories w;
                           hap_initialized := hap_initialized w;
                           trace := trace w ++ [Ev_delete a] |})
  | None => None
  end.
Proof.
  unfold delete_array. unfold_M. by destruct (release a (store w)).
Qed.


Lemma assign_back_reference_lookup (h ch x : payload)
    (cm : gmap Z (Characteristic U)) :
  assign_back_reference h cm ch !! x =
  if decide (x = ch)
  then (fun c => {| c_type := c_type c; accessory_handle := Some h;
                    event_handle := event_handle c;
                    value_changed_listeners := value_changed_listeners c |})
         <$> cm !! x
  else cm !! x.
Proof.
  unfold assign_back_reference. destruct (decide (x = ch)) as [->|Hne].
  - destruct (cm !! ch) as [c|] eqn:Hc.
    + by rewrite lookup_insert_eq.
    + by rewrite Hc.
  - destruct (cm !! ch) as [c|]; [|done]. by rewrite lookup_insert_ne.
Qed.

Lemma assign_back_reference_is_Some (h ch x : payload)
    (cm : gmap Z (Characteristic U)) :
  is_Some (assign_back_reference h cm ch !! x) <-> is_Some (cm !! x).
Proof.
  rewrite assign_back_reference_lookup. case_decide; [|done].
  by rewrite fmap_is_Some.
Qed.


Lemma new_array_eq (b : block) (w : World U) :
  new_array b w =
  Some (address_of (length (store w)),
        emit (Ev_new (address_of (length (store w))))
          (set_store (store w ++ [Live b]) w)).
Proof. unfold new_array. by unfold_M. Qed.

Lemma add_service_eq (this : payload) (ty : hap_service_type)
    (chars : list payload) (w : World U) :
  add_service vptr this ty chars w =
  match accessories w !! this with
  | None => None
  | Some a =>
      match new_array (BStructs (length chars)) w with
      | None => None
      | Some (arr, w0) =>
          match fill_structs vptr (a_accessory_handle a) chars w0 with
          | None => None
          | Some (l, w1) =>
              match delete_structs l
                      (emit (Ev_hap_service_and_characteristics_ex_add
                               (a_accessory_handle a) (accessory_object a)
                               ty l (Z.of_nat (length l))) w1) with
              | None => None
              | Some (_, w2) => delete_array arr w2
              end
          end
      end
  end.
Proof.
  rewrite new_array_eq.
  unfold add_service, the_accessory, new_array. unfold_M.
  destruct (accessories w !! this) as [a|]; cbn; [|done].
  destruct (fill_structs vptr (a_accessory_handle a) chars _)
    as [[l w1]|]; [|done].
  by destruct (delete_structs l _) as [[[] w2]|].
Qed.



(** ** Bringing an accessory up *)

Lemma register_accessory_eq (this : payload) (w : World U) :
  register_accessory hap_accessory_register_result this w =
  match accessories w !! this with
  | None => None
  | Some a =>
      let tr := trace w ++
                (if hap_initialized w then []
                 else [Ev_hap_initialized_set; Ev_hap_init])
                ++ [registration_event this a] in
      Some (tt, {| user := user w; store := store w;
                   characteristics := characteristics w;
                   accessories :=
                     <[this := with_handle a
                                 (hap_accessory_register_result tr)]>
                       (accessories w);
                   hap_initialized := true;
                   trace := tr |})
  end.
Proof.
  unfold register_accessory, mark_hap_initialized, the_accessory,
    put_accessory. unfold_M.
  destruct (accessories w !! this) as [a|]; cbn; [|done].
  destruct (hap_initialized w) eqn:Hi;
    unfold set_accessories, emit, set_hap_initialized; cbn.
  - by rewrite Hi.
  - by rewrite <- !app_assoc.
Qed.

Lemma init_callback_eq (this : payload) (w : World U) :
  init_callback vptr hap_accessory_add_result this w =
  match accessories w !! this with
  | None => None
  | Some a =>
      run_init vptr this (init a)
        (information_installed hap_accessory_add_result this a w)
  end.
Proof.
  unfold init_callback, the_accessory, put_accessory. unfold_M.
  destruct (accessories w !! this) as [a|]; cbn; [|done].
  unfold information_installed, information_events, set_accessories, emit.
  cbn. by rewrite <- app_assoc.
Qed.

Lemma fill_structs_frame (h : payload) (chars : list payload) :
  forall (w : World U) l w',
    fill_structs vptr h chars w = Some (l, w') ->
    user w' = user w /\ accessories w' = accessories w /\
    hap_initialized w' = hap_initialized w /\
    characteristics w' =
      foldl (assign_back_reference h) (characteristics w) chars /\
    callback_arg <$> l = chars /\
    (forall ch, ch ∈ chars -> is_Some (characteristics w !! ch)) /\
    exists delta, trace w' = trace w ++ delta /\
                  Forall (fun e => is_bookkeeping_event e = true) delta.
Proof.
  induction chars as [|ch rest IH]; intros w l w' Hrun.
  - cbn in Hrun. injection Hrun as <- <-. cbn. do 5 (split; [done|]).
    split; [by intros ch ?%elem_of_nil|].
    exists []. by rewrite app_nil_r.
  - rewrite fill_structs_cons_eq in Hrun.
    destruct (characteristics w !! ch) as [c0|] eqn:Hc0; [|done].
    destruct (get_characteristic_struct vptr ch _) as [[s w1]|] eqn:Hs; [|done].
    destruct (fill_structs vptr h rest w1) as [[tail w2]|] eqn:Ht; [|done].
    injection Hrun as <- <-.
    rewrite get_characteristic_struct_eq in Hs. cbn in Hs.
    destruct (assign_back_reference h (characteristics w) ch !! ch)
      as [c|]; cbn in Hs; [|done].
    destruct (get_max_value_override (vptr ch) (user w)) as [max|];
      cbn in Hs; [|done].
    destruct (get_min_value_override (vptr ch) (user w)) as [min|];
      cbn in Hs; [|done].
    destruct (read (vptr ch) (user w) _) as [[value m']|];
      cbn in Hs; [|done].
    injection Hs as <- <-.
    apply IH in Ht as (Hu & Ha & Hi & Hcs & Hargs & Hex & delta & Htr & Hd).
    cbn in Hu, Ha, Hi, Hcs, Hex, Htr.
    do 4 (split; [done|]). split; [cbn; by rewrite Hargs|]. split.
    + intros x [->|Hx]%elem_of_cons; [by eexists|].
      by apply (assign_back_reference_is_Some h ch), Hex.
    + eexists. rewrite Htr, <- !app_assoc. split; [done|].
      apply Forall_cons. split; [done|].
      apply Forall_app. split; [|done].
      destruct (fst (get_valid_values_override (vptr ch) (user w)));
        by repeat constructor.
Qed.

Lemma delete_structs_frame (l : list hap_characteristic_ex) :
  forall (w w' : World U),
    delete_structs l w = Some (tt, w') ->
    user w' = user w /\ accessories w' = accessories w /\
    hap_initialized w' = hap_initialized w /\
    characteristics w' = characteristics w /\
    exists delta, trace w' = trace w ++ delta /\
                  Forall (fun e => is_bookkeeping_event e = true) delta.
Proof.
  induction l as [|s l IH]; intros w w' Hrun.
  - cbn in Hrun. injection Hrun as <-. do 4 (split; [done|]).
    exists []. by rewrite app_nil_r.
  - cbn [delete_structs] in Hrun.
    apply bind_Some in Hrun as ([] & w1 & H1 & H2).
    apply IH in H2 as (Hu & Ha & Hi & Hcs & delta & Htr & Hd).
    unfold delete_characteristic_struct_internals in H1.
    destruct (override_valid_values s && negb (valid_values s =? nullptr)).
    + rewrite delete_array_eq in H1.
      destruct (release (valid_values s) (store w)); [|done].
      injection H1 as <-. cbn in *. do 4 (split; [done|]).
      eexists. rewrite Htr, <- app_assoc. split; [done|].
      by repeat constructor.
    + injection H1 as <-. do 4 (split; [done|]). by exists delta.
Qed.

Lemma add_service_frame (this : payload) (ty : hap_service_type)
    (chars : list payload) (w w' : World U) :
  add_service vptr this ty chars w = Some (tt, w') ->
  exists a l before after,
    accessories w !! this = Some a /\
    user w' = user w /\ accessories w' = accessories w /\
    hap_initialized w' = hap_initialized w /\
    characteristics w' =
      foldl (assign_back_reference (a_accessory_handle a))
            (characteristics w) chars /\
    callback_arg <$> l = chars /\
    (forall ch, ch ∈ chars -> is_Some (characteristics w !! ch)) /\
    trace w' = trace w ++ before ++
               [Ev_hap_service_and_characteristics_ex_add
                  (a_accessory_handle a) (accessory_object a) ty l
                  (Z.of_nat (length l))] ++ after /\
    Forall (fun e => is_bookkeeping_event e = true) before /\
    Forall (fun e => is_bookkeeping_event e = true) after.
Proof.
  unfold add_service, the_accessory, new_array. unfold_M.
  destruct (accessories w !! this) as [a|]; cbn; [|done].
  destruct (fill_structs vptr (a_accessory_handle a) chars _)
    as [[l w1]|] eqn:Hfill; [|done].
  apply fill_structs_frame in Hfill
    as (Hu & Ha & Hi & Hcs & Hargs & Hex & d1 & Htr1 & Hd1).
  destruct (delete_structs l _) as [[[] w2]|] eqn:Hdel; [|done].
  apply delete_structs_frame in Hdel
    as (Hu2 & Ha2 & Hi2 & Hcs2 & d2 & Htr2 & Hd2).
  rewrite delete_array_eq.
  destruct (release _ (store w2)); [|done].
  intros [= <-]. cbn in *.
  eexists a, l, (_ :: d1), (d2 ++ [_]). split; [done|].
  split; [congruence|]. split; [congruence|]. split; [congruence|].
  split; [congruence|]. split; [done|]. split; [done|].
  split.
  { rewrite Htr2, Htr1. rewrite <- !app_assoc. reflexivity. }
  split; [by constructor|].
  apply Forall_app. split; [done|]. by repeat constructor.
Qed.

Lemma run_init_extends (this : payload)
    (services : list (hap_service_type * list payload)) :
  forall w w' : World U,
    run_init vptr this services w = Some (tt, w') ->
    exists delta, trace w' = trace w ++ delta.
Proof.
  induction services as [|[ty cs] rest IH]; intros w w' Hrun.
  - cbn in Hrun. injection Hrun as <-. exists []. by rewrite app_nil_r.
  - cbn [run_init] in Hrun.
    apply bind_Some in Hrun as ([] & w1 & H1 & H2).
    apply add_service_frame in H1
      as (a & l & before & after & _ & _ & _ & _ & _ & _ & _ & Htr & _).
    apply IH in H2 as [delta Hd]. rewrite Hd, Htr.
    rewrite <- (app_assoc (trace w)). by eexists.
Qed.

(** C7.  [init_callback] calls the user's [init] in a world in which the
    accessory-information service, with exactly the six mandatory
    characteristics, has already been handed to the host: whatever [init]
    adds comes after it.  With no user service, the accessory ends up with
    that one service of six characteristics. *)
Theorem init_callback_installs_information_first
    (this : payload) (w : World U) (a : Accessory) :
  accessories w !! this = Some a ->
  exists object,
    init_callback vptr hap_accessory_add_result this w =
      run_init vptr this (init a)
        (information_installed hap_accessory_add_result this a w) /\
    trace (information_installed hap_accessory_add_result this a w) =
      trace w ++ information_events a object /\
    filter (fun e => is_service e = true) (information_events a object) =
      [Ev_hap_service_and_characteristics_add
         (a_accessory_handle a) object HAP_SERVICE_ACCESSORY_INFORMATION
         (information_characteristics a) 6] /\
    hc_type <$> information_characteristics a = mandatory_types /\
    (forall w', init_callback vptr hap_accessory_add_result this w
                = Some (tt, w') ->
                exists user_events,
                  trace w' = trace w ++ information_events a object
                             ++ user_events) /\
    (init a = [] ->
     exists w', init_callback vptr hap_accessory_add_result this w
                = Some (tt, w') /\
                trace w' = trace w ++ information_events a object).
Proof.
  intros Ha. eexists. rewrite init_callback_eq, Ha.
  split; [done|]. split; [done|]. split; [done|]. split; [done|]. split.
  - intros w' [delta Hd]%run_init_extends. exists delta.
    rewrite Hd. unfold information_installed. cbn [trace].
    by rewrite <- app_assoc.
  - intros ->. by eexists.
Qed.

Lemma registers_run (accs : list payload) :
  forall w : World U,
    (forall x, x ∈ accs -> is_Some (accessories w !! x)) ->
    exists w' rest,
      run vptr hap_accessory_register_result hap_accessory_add_result
          w (Call_register_accessory <$> accs) w' /\
      trace w' =
        trace w ++
        (if hap_initialized w || (if accs is [] then true else false)
         then [] else [Ev_hap_initialized_set; Ev_hap_init]) ++ rest /\
      hap_initialized w' =
        (if accs is [] then hap_initialized w else true) /\
      Forall (fun e => is_hap_init e = false /\ is_flag_set e = false) rest /\
      length (filter (fun e => is_register e = true) rest) = length accs.
Proof.
  induction accs as [|x accs IH]; intros w Hex.
  - exists w, []. rewrite orb_true_r, !app_nil_r. split; [constructor|].
    do 2 (split; [done|]). split; [constructor|]. done.
  - destruct (Hex x) as [a Ha]; [by left|].
    pose proof (register_accessory_eq x w) as Hreg. rewrite Ha in Hreg.
    cbn zeta in Hreg.
    match type of Hreg with _ = Some (tt, ?w1') => set (w1 := w1') in * end.
    destruct (IH w1) as (w' & rest & Hrun & Htr & Hini & Hrest & Hlen).
    { intros y Hy. cbn. destruct (decide (y = x)) as [->|Hne].
      - rewrite lookup_insert_eq. by eexists.
      - rewrite lookup_insert_ne by done. apply Hex. by right. }
    cbn in Htr, Hini.
    exists w', (registration_event x a :: rest).
    split; [by econstructor|]. rewrite orb_false_r.
    split; [by rewrite Htr, <- !app_assoc|].
    split; [by destruct accs|].
    split; [by constructor|].
    rewrite filter_cons_True by done. cbn. by rewrite Hlen.
Qed.

(** C6.  From process start, any sequence of [register_accessory] calls,
    on any accessories, assigns the static flag exactly once and runs the
    host's global initialisation exactly once: the assignment comes first,
    the initialisation next, and only then does the first registration ask
    the host for a handle. *)
Theorem host_init_runs_exactly_once (accs : list payload) (w : World U) :
  at_startup w ->
  accs <> [] ->
  (forall x, x ∈ accs -> is_Some (accessories w !! x)) ->
  (exists w' rest,
     run vptr hap_accessory_register_result hap_accessory_add_result
         w (Call_register_accessory <$> accs) w' /\
     trace w' = Ev_hap_initialized_set :: Ev_hap_init :: rest /\
     Forall (fun e => is_hap_init e = false /\ is_flag_set e = false) rest /\
     length (filter (fun e => is_register e = true) rest) = length accs /\
     hap_initialized w' = true) /\
  (forall x a,
     head accs = Some x -> accessories w !! x = Some a ->
     exists w1,
       register_accessory hap_accessory_register_result x w = Some (tt, w1) /\
       hap_initialized w1 = true /\
       trace w1 =
         [Ev_hap_initialized_set; Ev_hap_init; registration_event x a] /\
       a_accessory_handle <$> accessories w1 !! x =
         Some (hap_accessory_register_result (trace w1))).
Proof.
  intros (Htr0 & Hflag & _) Hne Hex. split.
  - destruct (registers_run accs w Hex)
      as (w' & rest & Hrun & Htr & Hini & Hrest & Hlen).
    rewrite Hflag, Htr0 in Htr. exists w', rest.
    destruct accs as [|x accs]; [done|]. by cbn in Htr.
  - intros x a _ Ha. rewrite register_accessory_eq, Ha, Hflag, Htr0.
    cbn zeta. eexists. split; [done|]. cbn.
    split; [done|]. split; [done|]. by rewrite lookup_insert_eq.
Qed.

(** ** How the operations change the world *)

Lemma evolves_refl (w : World U) : evolves w w.
Proof.
  split; [done|]. split; [done|]. exists []. rewrite app_nil_r.
  split; [done|]. by intros e cs ?%elem_of_nil.
Qed.

Lemma evolves_trans (w1 w2 w3 : World U) :
  evolves w1 w2 -> evolves w2 w3 -> evolves w1 w3.
Proof.
  intros (He1 & Hb1 & d1 & Ht1 & Hd1) (He2 & Hb2 & d2 & Ht2 & Hd2).
  split; [intros this; by rewrite He2|]. split; [by auto|].
  exists (d1 ++ d2). split; [by rewrite Ht2, Ht1, <- app_assoc|].
  intros e cs [He|He]%elem_of_app Hcs; [|by eauto].
  apply Hb2. by eauto.
Qed.

Lemma evolves_same_objects (w w' : World U) (delta : list event) :
  characteristics w' = characteristics w ->
  trace w' = trace w ++ delta ->
  (forall e, e ∈ delta -> structs_given e = []) ->
  evolves w w'.
Proof.
  intros Hc Ht Hd. unfold evolves, event_handle_of, back_reference.
  rewrite Hc. split; [done|]. split; [done|]. exists delta. split; [done|].
  intros e cs He Hcs. rewrite (Hd e He) in Hcs. by apply elem_of_nil in Hcs.
Qed.

Lemma value_changed_frame (this value : payload) (w w' : World U) :
  value_changed this value w = Some (tt, w') ->
  characteristics w' = characteristics w /\
  accessories w' = accessories w /\
  hap_initialized w' = hap_initialized w /\
  exists delta, trace w' = trace w ++ delta /\
                forall e, e ∈ delta -> structs_given e = [].
Proof.
  intros Hrun.
  destruct (characteristics w !! this) as [c|] eqn:Hc.
  2:{ unfold value_changed, the_characteristic in Hrun. unfold_M.
      cbn in Hrun. by rewrite Hc in Hrun. }
  assert (exists host, w' = dispatched this value c host w /\
                       forall e, e ∈ host -> structs_given e = [])
    as (host & -> & Hhost).
  { destruct (decide (event_handle c = nullptr)) as [He|He].
    - rewrite (value_changed_quiet _ _ _ c) in Hrun by done.
      injection Hrun as <-. exists []. split; [done|].
      by intros e ?%elem_of_nil.
    - destruct (accessory_handle c) as [h|] eqn:Hh.
      + rewrite (value_changed_emits _ _ _ c h) in Hrun by done.
        injection Hrun as <-. eexists. split; [done|].
        by intros e ->%list_elem_of_singleton.
      + unfold value_changed, the_characteristic in Hrun. unfold_M.
        cbn in Hrun. rewrite Hc in Hrun. cbn in Hrun.
        destruct (Z.eqb_spec (event_handle c) nullptr); [done|].
        by rewrite Hh in Hrun. }
  do 3 (split; [done|]). eexists. split; [done|].
  intros e [->|[He|He]%elem_of_app]%elem_of_cons; [done|by apply Hhost|].
  clear -He. revert He. generalize 0%nat.
  induction (value_changed_listeners c) as [|[f|] ls IH]; intros i He;
    cbn in He.
  - by apply elem_of_nil in He.
  - apply elem_of_cons in He as [->|He]; [done|by eapply IH].
  - by eapply IH.
Qed.

Lemma value_changed_evolves (this value : payload) (w w' : World U) :
  value_changed this value w = Some (tt, w') -> evolves w w'.
Proof.
  intros (Hc & _ & _ & delta & Ht & Hd)%value_changed_frame.
  by eapply evolves_same_objects.
Qed.

Lemma notify_evolves (this : payload) (w w' : World U) :
  notify vptr this w = Some (tt, w') -> evolves w w'.
Proof.
  unfold notify, call_read. unfold_M.
  destruct (canRead (vptr this) (user w)); cbn.
  - destruct (read (vptr this) (user w) (store w)) as [[p m]|]; [|done].
    intros Hv%value_changed_evolves.
    eapply evolves_trans; [|exact Hv].
    eapply (evolves_same_objects _ _ []); [done|by rewrite app_nil_r|].
    by intros e ?%elem_of_nil.
  - intros [= <-]. apply evolves_refl.
Qed.

Lemma typed_write_evolves (t : Typed U) (this value : payload) (len : Z)
    (w w' : World U) :
  write (typed_vtable t) this value len w = Some (tt, w') -> evolves w w'.
Proof.
  rewrite typed_write_eq.
  destruct (typed_apply t value (user w) (store w)) as [u'|]; [|done].
  intros Hv%value_changed_evolves.
  eapply evolves_trans; [|exact Hv].
  eapply (evolves_same_objects _ _ []); [done|by rewrite app_nil_r|].
  by intros e ?%elem_of_nil.
Qed.

Lemma register_for_notifications_evolves (this : payload) (cb : listener U)
    (w w' : World U) :
  register_for_notifications this cb w = Some (tt, w') -> evolves w w'.
Proof.
  unfold register_for_notifications, the_characteristic, put_characteristic.
  unfold_M. destruct (characteristics w !! this) as [c|] eqn:Hc; cbn; [|done].
  intros [= <-]. unfold evolves, event_handle_of, back_reference. cbn.
  split; [|split].
  - intros x. destruct (decide (x = this)) as [->|Hne].
    + by rewrite lookup_insert_eq, Hc.
    + by rewrite lookup_insert_ne.
  - intros x. destruct (decide (x = this)) as [->|Hne].
    + by rewrite lookup_insert_eq, Hc.
    + by rewrite lookup_insert_ne.
  - exists []. rewrite app_nil_r. split; [done|].
    by intros e cs ?%elem_of_nil.
Qed.

Lemma register_accessory_evolves (this : payload) (w w' : World U) :
  register_accessory hap_accessory_register_result this w = Some (tt, w') ->
  evolves w w'.
Proof.
  rewrite register_accessory_eq.
  destruct (accessories w !! this) as [a|]; [|done]. cbn zeta.
  intros [= <-]. eapply evolves_same_objects; [done..|].
  intros e He. cbn in He. destruct (hap_initialized w); cbn in He.
  - by apply list_elem_of_singleton in He as ->.
  - do 2 (apply elem_of_cons in He as [->|He]; [done|]).
    by apply list_elem_of_singleton in He as ->.
Qed.

Lemma assign_back_reference_event_handle (h ch x : payload)
    (cm : gmap Z (Characteristic U)) :
  event_handle <$> assign_back_reference h cm ch !! x = event_handle <$> cm !! x.
Proof.
  rewrite assign_back_reference_lookup. case_decide; [|done].
  by destruct (cm !! x).
Qed.

Lemma assign_back_reference_keeps (h ch x : payload)
    (cm : gmap Z (Characteristic U)) :
  is_Some (cm !! x ≫= accessory_handle) ->
  is_Some (assign_back_reference h cm ch !! x ≫= accessory_handle).
Proof.
  rewrite assign_back_reference_lookup. case_decide; [|done].
  destruct (cm !! x); [by eexists|done].
Qed.

Lemma assign_all_event_handle (h x : payload) (chars : list payload) :
  forall cm : gmap Z (Characteristic U),
    event_handle <$> foldl (assign_back_reference h) cm chars !! x
    = event_handle <$> cm !! x.
Proof.
  induction chars as [|ch rest IH]; intros cm; [done|]. cbn.
  by rewrite IH, assign_back_reference_event_handle.
Qed.

Lemma assign_all_keeps (h x : payload) (chars : list payload) :
  forall cm : gmap Z (Characteristic U),
    is_Some (cm !! x ≫= accessory_handle) ->
    is_Some (foldl (assign_back_reference h) cm chars !! x
             ≫= accessory_handle).
Proof.
  induction chars as [|ch rest IH]; intros cm Hx; [done|]. cbn.
  by apply IH, assign_back_reference_keeps.
Qed.

Lemma assign_all_assigns (h x : payload) (chars : list payload) :
  forall cm : gmap Z (Characteristic U),
    x ∈ chars -> is_Some (cm !! x) ->
    is_Some (foldl (assign_back_reference h) cm chars !! x
             ≫= accessory_handle).
Proof.
  induction chars as [|ch rest IH]; intros cm Hin Hx.
  - by apply elem_of_nil in Hin.
  - cbn. destruct (decide (x = ch)) as [->|Hne].
    + apply assign_all_keeps. rewrite assign_back_reference_lookup.
      rewrite decide_True by done. destruct Hx as [c ->]. by eexists.
    + apply elem_of_cons in Hin as [?|Hin]; [done|].
      apply IH; [done|]. by apply assign_back_reference_is_Some.
Qed.

Lemma add_service_evolves (this : payload) (ty : hap_service_type)
    (chars : list payload) (w w' : World U) :
  add_service vptr this ty chars w = Some (tt, w') -> evolves w w'.
Proof.
  intros (a & l & before & after & _ & _ & _ & _ & Hcs & Hargs & Hex
          & Htr & Hb & Ha)%add_service_frame.
  unfold evolves, event_handle_of, back_reference. rewrite Hcs.
  split; [intros x; apply assign_all_event_handle|].
  split; [intros x; apply assign_all_keeps|].
  eexists. split; [exact Htr|].
  intros e cs [He|[He|He]%elem_of_cons]%elem_of_app Hin.
  - rewrite Forall_forall in Hb. specialize (Hb e He).
    destruct e; try done; by apply elem_of_nil in Hin.
  - subst e. cbn in Hin.
    assert (callback_arg cs ∈ chars) as Hc.
    { rewrite <- Hargs. apply list_elem_of_fmap. by exists cs. }
    apply assign_all_assigns; [done|by apply Hex].
  - rewrite Forall_forall in Ha. specialize (Ha e He).
    destruct e; try done; by apply elem_of_nil in Hin.
Qed.

Lemma run_init_evolves (this : payload)
    (services : list (hap_service_type * list payload)) :
  forall w w' : World U,
    run_init vptr this services w = Some (tt, w') -> evolves w w'.
Proof.
  induction services as [|[ty cs] rest IH]; intros w w' Hrun.
  - cbn in Hrun. injection Hrun as <-. apply evolves_refl.
  - cbn [run_init] in Hrun.
    apply bind_Some in Hrun as ([] & w1 & H1 & H2).
    eapply evolves_trans; [by eapply add_service_evolves|by apply IH].
Qed.

Lemma init_callback_evolves (this : payload) (w w' : World U) :
  init_callback vptr hap_accessory_add_result this w = Some (tt, w') ->
  evolves w w'.
Proof.
  rewrite init_callback_eq.
  destruct (accessories w !! this) as [a|]; [|done].
  intros Hrun%run_init_evolves. eapply evolves_trans; [|exact Hrun].
  eapply evolves_same_objects; [done..|].
  intros e [->|He]%elem_of_cons; [done|].
  by apply list_elem_of_singleton in He as ->.
Qed.

Lemma call_read_evolves (this : payload) (p : payload) (w w' : World U) :
  call_read vptr this w = Some (p, w') -> evolves w w'.
Proof.
  unfold call_read.
  destruct (read (vptr this) (user w) (store w)) as [[q m]|]; [|done].
  intros [= _ <-].
  eapply (evolves_same_objects _ _ []); [done|by rewrite app_nil_r|].
  by intros e ?%elem_of_nil.
Qed.

Lemma set_event_handle_eq (this handle : payload) (enable : bool)
    (w : World U) :
  set_event_handle this handle enable w =
  match characteristics w !! this with
  | None => None
  | Some c =>
      Some (tt, set_characteristics
                  (<[this := {| c_type := c_type c;
                                accessory_handle := accessory_handle c;
                                event_handle :=
                                  if enable then handle else nullptr;
                                value_changed_listeners :=
                                  value_changed_listeners c |}]>
                     (characteristics w)) w)
  end.
Proof.
  unfold set_event_handle, the_characteristic, put_characteristic. unfold_M.
  by destruct (characteristics w !! this).
Qed.

(** Every operation but the event-enable entry point evolves the world. *)
Lemma run_op_evolves (o : op U) (w w' : World U) :
  bridge_writes vptr ->
  (forall arg h en, o <> Host_set_characteristic_event_handle arg h en) ->
  run_op vptr hap_accessory_register_result hap_accessory_add_result o w
    = Some (tt, w') ->
  evolves w w'.
Proof.
  intros Htyped Hne. destruct o; cbn [run_op].
  - apply register_accessory_evolves.
  - apply notify_evolves.
  - apply register_for_notifications_evolves.
  - apply init_callback_evolves.
  - unfold read_characteristic. intros Hrun.
    apply bind_Some in Hrun as (p & w1 & H1 & [= <-]).
    by eapply call_read_evolves.
  - unfold write_characteristic. destruct (Htyped arg) as [t ->].
    apply typed_write_evolves.
  - by destruct (Hne arg ev_handle enable).
Qed.

(** ** The back-reference and the event handle *)

Lemma at_startup_safe (w : World U) : at_startup w -> safe w.
Proof.
  intros (Htr & _ & Hfresh). split.
  - rewrite Htr. by intros e cs ?%elem_of_nil.
  - intros this c Hc He. by destruct (Hfresh this c Hc).
Qed.

Lemma safe_evolves (w w' : World U) : safe w -> evolves w w' -> safe w'.
Proof.
  intros [Hgiven Hev] (He & Hb & delta & Htr & Hd). split.
  - intros e cs Hin Hcs. rewrite Htr in Hin.
    apply elem_of_app in Hin as [Hin|Hin]; [|by eauto].
    apply Hb. by eauto.
  - intros this c' Hc' Hne.
    assert (is_Some (back_reference w' this)) as [h Hh].
    { apply Hb. pose proof (He this) as Heq. unfold event_handle_of in Heq.
      rewrite Hc' in Heq. unfold back_reference.
      destruct (characteristics w !! this) as [c|] eqn:Hc; [|done].
      cbn in *. injection Heq as Heq. apply (Hev this c Hc). congruence. }
    unfold back_reference in Hh. rewrite Hc' in Hh. by eexists.
Qed.

Lemma classic_set_event (o : op U) :
  (exists arg h en, o = Host_set_characteristic_event_handle arg h en) \/
  (forall arg h en, o <> Host_set_characteristic_event_handle arg h en).
Proof. destruct o; first [by right | left; by eauto]. Qed.

Lemma safe_step (o : op U) (w w' : World U) :
  bridge_writes vptr ->
  safe w ->
  permitted (trace w) o ->
  run_op vptr hap_accessory_register_result hap_accessory_add_result o w
    = Some (tt, w') ->
  safe w'.
Proof.
  intros Htyped Hsafe Hperm Hrun.
  destruct (classic_set_event o) as [(arg & h & en & ->)|Hne].
  2:{ eapply safe_evolves; [done|]. by eapply run_op_evolves. }
  cbn in Hperm, Hrun. unfold set_characteristic_event_handle in Hrun.
  rewrite set_event_handle_eq in Hrun.
  destruct (characteristics w !! arg) as [c|] eqn:Hc; [|done].
  injection Hrun as <-. destruct Hsafe as [Hgiven Hev].
  assert (is_Some (accessory_handle c)) as Hassigned.
  { destruct Hperm as (e & cs & He & Hcs & Harg & _).
    specialize (Hgiven e cs He Hcs). rewrite Harg in Hgiven.
    unfold back_reference in Hgiven. by rewrite Hc in Hgiven. }
  split.
  - intros e cs He Hcs. cbn in He. specialize (Hgiven e cs He Hcs).
    unfold back_reference in *. cbn.
    destruct (decide (callback_arg cs = arg)) as [->|Hne].
    + by rewrite lookup_insert_eq.
    + by rewrite lookup_insert_ne.
  - intros this c'. cbn. destruct (decide (this = arg)) as [->|Hne].
    + rewrite lookup_insert_eq. by intros [= <-] _.
    + rewrite lookup_insert_ne by done. apply Hev.
Qed.

Lemma safe_run (w w' : World U) (os : list (op U)) :
  bridge_writes vptr ->
  safe w ->
  run vptr hap_accessory_register_result hap_accessory_add_result w os w' ->
  safe w'.
Proof.
  intros Htyped Hsafe Hrun. induction Hrun as [|w o w1 os w2 Hp Hs _ IH];
    [done|].
  apply IH. by eapply safe_step.
Qed.

Lemma fill_structs_app (h : payload) (before after : list payload) :
  forall w : World U,
    fill_structs vptr h (before ++ after) w =
    match fill_structs vptr h before w with
    | None => None
    | Some (l1, w0) =>
        match fill_structs vptr h after w0 with
        | None => None
        | Some (l2, w') => Some (l1 ++ l2, w')
        end
    end.
Proof.
  induction before as [|ch rest IH]; intros w.
  - cbn. by destruct (fill_structs vptr h after w) as [[l2 w']|].
  - rewrite <- app_comm_cons, !fill_structs_cons_eq.
    destruct (characteristics w !! ch); [|done].
    destruct (get_characteristic_struct vptr ch _) as [[s w1]|]; [|done].
    rewrite IH.
    destruct (fill_structs vptr h rest w1) as [[l1 w0]|]; [|done].
    by destruct (fill_structs vptr h after w0) as [[l2 w']|].
Qed.

Lemma assign_all_lookup (h : payload) (chars : list payload) :
  forall (cm : gmap Z (Characteristic U)) (x : payload),
    foldl (assign_back_reference h) cm chars !! x =
    if decide (x ∈ chars) then with_back_reference h <$> cm !! x
    else cm !! x.
Proof.
  induction chars as [|ch rest IH]; intros cm x; cbn [foldl].
  - rewrite decide_False; [done|]. by intros ?%elem_of_nil.
  - rewrite IH, assign_back_reference_lookup.
    destruct (decide (x = ch)) as [->|Hne].
    + rewrite (decide_True (P := ch ∈ ch :: rest)) by left.
      case_decide; [|done]. by destruct (cm !! ch).
    + destruct (decide (x ∈ rest)) as [Hin|Hout].
      * rewrite decide_True; [done|by right].
      * rewrite decide_False; [done|].
        by intros [?|?]%elem_of_cons.
Qed.

Lemma delete_array_trace (arr : payload) (w w' : World U) :
  delete_array arr w = Some (tt, w') -> trace w' = trace w ++ [Ev_delete arr].
Proof.
  rewrite delete_array_eq. destruct (release arr (store w)); [|done].
  by intros [= <-].
Qed.

Lemma get_characteristic_struct_trace (ch : payload) (w w' : World U)
    (s : hap_characteristic_ex) :
  get_characteristic_struct vptr ch w = Some (s, w') ->
  callback_arg s = ch /\
  trace w' = trace w ++ (if has_array s then [Ev_new (valid_values s)] else []) /\
  characteristics w' = characteristics w /\ user w' = user w.
Proof.
  rewrite get_characteristic_struct_eq.
  destruct (characteristics w !! ch) as [c|]; cbn; [|done].
  destruct (get_max_value_override (vptr ch) (user w)) as [max|]; cbn; [|done].
  destruct (get_min_value_override (vptr ch) (user w)) as [min|]; cbn; [|done].
  destruct (read (vptr ch) (user w) _) as [[value m']|]; cbn; [|done].
  intros [= <- <-]. unfold has_array. cbn.
  destruct (fst (get_valid_values_override (vptr ch) (user w))); [|done].
  cbn. destruct (Z.eqb_spec (address_of (length (store w))) nullptr) as [He|];
    [|done].
  by apply address_of_not_null in He.
Qed.

(** C8, as the code has it.  In an [add_service] call that returns, the
    loop reaches each characteristic of the vector after the ones before
    it, assigns the accessory's handle to its back-reference, and only then
    converts it, in the world the assignment left: the assignment is in the
    trace before the allocation the conversion makes, and both are before
    the host is handed the structure.  A dispatch can come earlier
    ([notify] is public and needs no registration), but as long as the
    back-reference of a characteristic is unassigned its event handle is
    null, in every world a run from process start reaches: the dispatch
    returns, applies the listeners to the user's state and hands nothing to
    the host. *)
Theorem back_reference_assigned_before_it_is_used :
  (forall (this : payload) (ty : hap_service_type)
          (before : list payload) (ch : payload) (after : list payload)
          (w w' : World U) (a : Accessory),
      accessories w !! this = Some a ->
      add_service vptr this ty (before ++ ch :: after) w = Some (tt, w') ->
      exists hap_cs_array w_loop l1 w0 w1 s w2 l2 w_call released,
        new_array (BStructs (length (before ++ ch :: after))) w
          = Some (hap_cs_array, w_loop) /\
        fill_structs vptr (a_accessory_handle a) before w_loop
          = Some (l1, w0) /\
        assign_accessory_handle ch (a_accessory_handle a) w0
          = Some (tt, w1) /\
        trace w1 =
          trace w0 ++ [Ev_accessory_handle_set ch (a_accessory_handle a)] /\
        back_reference w1 ch = Some (a_accessory_handle a) /\
        get_characteristic_struct vptr ch w1 = Some (s, w2) /\
        callback_arg s = ch /\
        trace w2 =
          trace w1 ++ (if has_array s then [Ev_new (valid_values s)] else []) /\
        fill_structs vptr (a_accessory_handle a) after w2
          = Some (l2, w_call) /\
        (exists later, trace w_call = trace w2 ++ later) /\
        trace w' =
          trace w_call ++
          Ev_hap_service_and_characteristics_ex_add
            (a_accessory_handle a) (accessory_object a) ty (l1 ++ s :: l2)
            (Z.of_nat (length (before ++ ch :: after))) :: released /\
        back_reference w' ch = Some (a_accessory_handle a)) /\
  (bridge_writes vptr ->
   forall (w : World U) (os : list (op U)) (w' : World U),
     at_startup w ->
     run vptr hap_accessory_register_result hap_accessory_add_result
         w os w' ->
     forall this c,
       characteristics w' !! this = Some c ->
       accessory_handle c = None ->
       event_handle c = nullptr /\
       forall value,
         exists w'',
           value_changed this value w' = Some (tt, w'') /\
           trace w'' = trace w' ++ Ev_value_changed this value ::
                       listener_events this 0 (value_changed_listeners c) /\
           user w'' =
             run_listeners this (value_changed_listeners c) (user w') /\
           characteristics w'' = characteristics w').
Proof.
  split.
  - intros this ty before ch after w w' a Ha Hadd.
    pose proof Hadd as Hall.
    rewrite add_service_eq, Ha, new_array_eq in Hadd.
    destruct (fill_structs vptr _ _ _) as [[l w_call]|] eqn:Hfill; [|done].
    destruct (delete_structs l _) as [[[] w3]|] eqn:Hdel; [|done].
    apply delete_structs_frame in Hdel as (_ & _ & _ & _ & delta & Hdelta & _).
    apply delete_array_trace in Hadd. cbn in Hdelta.
    rewrite fill_structs_app in Hfill.
    destruct (fill_structs vptr _ before _) as [[l1 w0]|] eqn:Hbefore; [|done].
    pose proof Hfill as Hcons. rewrite fill_structs_cons_eq in Hcons.
    destruct (characteristics w0 !! ch) as [c|] eqn:Hc; [|done].
    destruct (get_characteristic_struct vptr ch _) as [[s w2]|] eqn:Hs;
      [|done].
    destruct (fill_structs vptr _ after w2) as [[l2 w4]|] eqn:Hafter; [|done].
    injection Hcons as <- <-. clear Hfill.
    destruct (get_characteristic_struct_trace _ _ _ _ Hs)
      as (Harg & Htr2 & _ & _).
    destruct (fill_structs_frame _ _ _ _ _ Hafter)
      as (_ & _ & _ & _ & Hargs2 & _ & later & Hlater & _).
    eexists _, _, l1, w0, _, s, w2, l2, w4, (delta ++ [Ev_delete _]).
    split; [apply new_array_eq|]. split; [exact Hbefore|].
    split; [by rewrite assign_accessory_handle_eq, Hc|].
    split; [done|].
    split.
    { unfold back_reference. cbn.
      by rewrite assign_back_reference_lookup, decide_True, Hc. }
    split; [exact Hs|]. split; [done|]. split; [done|].
    split; [done|]. split; [by exists later|].
    split.
    { rewrite Hadd, Hdelta. rewrite <- !app_assoc. cbn.
      do 3 f_equal.
      destruct (fill_structs_frame _ _ _ _ _ Hbefore)
        as (_ & _ & _ & _ & Hl1 & _).
      rewrite !length_app. cbn.
      by rewrite <- Hl1, <- Hargs2, !length_fmap. }
    destruct (add_service_frame _ _ _ _ _ Hall)
      as (a' & l' & _ & _ & Ha' & _ & _ & _ & Hcs & _ & Hex & _).
    rewrite Ha in Ha'. injection Ha' as <-.
    assert (ch ∈ before ++ ch :: after) as Hin
      by (apply elem_of_app; right; by left).
    unfold back_reference.
    rewrite Hcs, assign_all_lookup, decide_True by done.
    destruct (Hex ch Hin) as [c' ->]. done.
  - intros Htyped w os w' Hstart Hrun this c Hc Hnone.
    pose proof (safe_run w w' os Htyped (at_startup_safe w Hstart) Hrun)
      as [_ Hev].
    assert (event_handle c = nullptr) as He.
    { destruct (decide (event_handle c = nullptr)) as [|Hne]; [done|].
      destruct (Hev this c Hc Hne) as [h Hh]. congruence. }
    split; [done|]. intros value. eexists.
    split; [by apply value_changed_quiet|done].
Qed.

(** ** Switching eventing off *)

Lemma event_handle_stays_null (this : payload) (o : op U) (w w' : World U) :
  bridge_writes vptr ->
  ~ enables this o ->
  run_op vptr hap_accessory_register_result hap_accessory_add_result o w
    = Some (tt, w') ->
  event_handle_of w this = Some nullptr ->
  event_handle_of w' this = Some nullptr.
Proof.
  intros Htyped Hen Hrun Hnull.
  destruct (classic_set_event o) as [(arg & h & en & ->)|Hne].
  2:{ destruct (run_op_evolves o w w' Htyped Hne Hrun) as [He _].
      by rewrite He. }
  cbn in Hrun, Hen. unfold set_characteristic_event_handle in Hrun.
  rewrite set_event_handle_eq in Hrun.
  destruct (characteristics w !! arg) as [c|] eqn:Hc; [|done].
  injection Hrun as <-. unfold event_handle_of in *. cbn.
  destruct (decide (this = arg)) as [->|Hneq].
  - rewrite lookup_insert_eq. cbn. by destruct en.
  - by rewrite lookup_insert_ne.
Qed.

(** C10.  Once the host has called the event-enable entry point with
    [enable = false], the event handle is null, and it stays null through
    everything that happens until the host enables eventing for this
    characteristic again, whatever the characteristics' classes are as long
    as their [write] is the one of the bridges: each value-changed dispatch
    in between returns, makes no call of the host's event path, and calls
    every set listener, once and in registration order, so that the user's
    state afterwards is what the listeners make of it. *)
Theorem disabling_events_silences_the_host_path
    (this handle : payload) (w w1 : World U) (os : list (op U))
    (w2 : World U) :
  bridge_writes vptr ->
  set_characteristic_event_handle this handle false w = Some (tt, w1) ->
  run vptr hap_accessory_register_result hap_accessory_add_result w1 os w2 ->
  (forall o, o ∈ os -> ~ enables this o) ->
  event_handle_of w1 this = Some nullptr /\
  exists c2,
    characteristics w2 !! this = Some c2 /\
    event_handle c2 = nullptr /\
    forall value w',
      characteristics w' = characteristics w2 ->
      exists w'',
        value_changed this value w' = Some (tt, w'') /\
        trace w'' = trace w' ++ Ev_value_changed this value ::
                    listener_events this 0 (value_changed_listeners c2) /\
        Forall (fun e => is_emit_event e = false)
               (Ev_value_changed this value ::
                listener_events this 0 (value_changed_listeners c2)) /\
        filter (fun e => is_listener_call e = true)
               (listener_events this 0 (value_changed_listeners c2)) =
          listener_events this 0 (value_changed_listeners c2) /\
        user w'' =
          run_listeners this (value_changed_listeners c2) (user w') /\
        characteristics w'' = characteristics w'.
Proof.
  intros Htyped Hoff Hrun Hquiet.
  assert (event_handle_of w1 this = Some nullptr) as H1.
  { unfold set_characteristic_event_handle in Hoff.
    rewrite set_event_handle_eq in Hoff.
    destruct (characteristics w !! this) as [c|]; [|done].
    injection Hoff as <-. unfold event_handle_of. cbn.
    by rewrite lookup_insert_eq. }
  split; [done|].
  assert (event_handle_of w2 this = Some nullptr) as H2.
  { clear Hoff. induction Hrun as [|w1 o w1' os w2 Hp Hs _ IH]; [done|].
    apply IH.
    - intros o' Ho'. apply Hquiet. by right.
    - eapply event_handle_stays_null; [done| |done..].
      apply Hquiet. by left. }
  unfold event_handle_of in H2.
  destruct (characteristics w2 !! this) as [c2|] eqn:Hc2; [|done].
  injection H2 as H2. exists c2. split; [done|]. split; [done|].
  intros value w' Hsame. eexists.
  split; [apply value_changed_quiet; [by rewrite Hsame|done]|].
  split; [done|]. split; [|split; [apply listener_events_all_calls|done]].
  constructor; [done|].
  apply Forall_forall. intros e He.
  by eapply listener_events_not_dispatch.
Qed.

(** ** The bridges satisfy what the theorems ask of a vtable *)


(** ** The integer bridge *)

(** X1.  An [int] goes through the pointer-sized payload unchanged: what
    [IntCharacteristic::read] returns for the value [v] is a 32-bit pattern
    that [IntCharacteristic::write] decodes to [v] again, negative values
    included, and no other pattern stands for [v]. *)
Theorem int_value_survives_erasure
    (ic : IntCharacteristic U) (u u0 : U) (m : memory) (v : Z) :
  readInt ic u = Some v ->
  int_min <= v <= int_max ->
  exists p,
    read (typed_vtable (TInt ic)) u m = Some (p, m) /\
    0 <= p < 2 ^ 32 /\
    ptr_to_int p = v /\
    typed_apply (TInt ic) p u0 m = writeInt ic v u0 /\
    (forall q, 0 <= q < 2 ^ 32 -> ptr_to_int q = v -> q = p).
Proof.
  intros Hv Hr. exists (int_to_ptr v). cbn. unfold IntCharacteristic_read.
  rewrite Hv. cbn. split; [done|]. split; [apply int_to_ptr_range|].
  rewrite ptr_to_int_int_to_ptr by done. split; [done|]. split; [done|].
  intros q Hq <-. by rewrite int_to_ptr_ptr_to_int.
Qed.

(** ** Eventing switched on *)


(** ** Listeners *)

Lemma listener_events_app (this : payload) (l1 l2 : list (listener U)) :
  forall i, listener_events this i (l1 ++ l2) =
            listener_events this i l1 ++
            listener_events this (i + length l1) l2.
Proof.
  induction l1 as [|[f|] l1 IH]; intros i; cbn.
  - by rewrite Nat.add_0_r.
  - rewrite IH. do 3 f_equal. lia.
  - rewrite IH. do 2 f_equal. lia.
Qed.

Lemma run_listeners_app (this : payload) (l1 l2 : list (listener U)) :
  forall u, run_listeners this (l1 ++ l2) u =
            run_listeners this l2 (run_listeners this l1 u).
Proof. induction l1 as [|[f|] l1 IH]; intros u; cbn; by rewrite ?IH. Qed.

Lemma register_for_notifications_eq (this : payload) (cb : listener U)
    (w : World U) :
  register_for_notifications this cb w =
  match characteristics w !! this with
  | None => None
  | Some c =>
      Some (tt, set_characteristics
                  (<[this := with_listeners c [cb]]> (characteristics w)) w)
  end.
Proof.
  unfold register_for_notifications, the_characteristic, put_characteristic.
  unfold_M. by destruct (characteristics w !! this).
Qed.

Lemma register_all_run (this : payload) (cbs : list (listener U)) :
  forall (w : World U) (c : Characteristic U),
    characteristics w !! this = Some c ->
    exists w1,
      run vptr hap_accessory_register_result hap_accessory_add_result
          w (Call_register_for_notifications this <$> cbs) w1 /\
      characteristics w1 !! this = Some (with_listeners c cbs) /\
      (forall x, x <> this ->
                 characteristics w1 !! x = characteristics w !! x) /\
      trace w1 = trace w /\ user w1 = user w /\ store w1 = store w /\
      accessories w1 = accessories w.
Proof.
  induction cbs as [|cb cbs IH]; intros w c Hc.
  - exists w. split; [apply run_done|]. unfold with_listeners.
    rewrite app_nil_r. by destruct c.
  - set (w0 := set_characteristics
                 (<[this := with_listeners c [cb]]> (characteristics w)) w).
    destruct (IH w0 (with_listeners c [cb])) as (w1 & Hrun & Hc1 & Hx & Ht & Hu & Hs & Ha).
    { unfold w0. cbn. apply lookup_insert_eq. }
    exists w1. split.
    { cbn [fmap list_fmap]. eapply run_step; [exact I| |exact Hrun].
      cbn [run_op]. by rewrite register_for_notifications_eq, Hc. }
    split.
    { rewrite Hc1. unfold with_listeners. cbn. by rewrite <- app_assoc. }
    split; [|done].
    intros x Hne. rewrite Hx by done. unfold w0. cbn.
    by rewrite lookup_insert_ne.
Qed.

(** X5.  [register_for_notifications] appends: after any number of
    registrations a dispatch calls the listeners that were there first,
    then the new ones, each in the order of registration and under its
    position in the list; an empty callback keeps its position and is
    skipped.  Registering calls no listener and nothing of the host. *)
Theorem listeners_run_in_registration_order
    (this : payload) (cbs : list (listener U)) (w : World U)
    (c : Characteristic U) :
  characteristics w !! this = Some c ->
  (event_handle c <> nullptr -> is_Some (accessory_handle c)) ->
  exists w1 c1,
    run vptr hap_accessory_register_result hap_accessory_add_result
        w (Call_register_for_notifications this <$> cbs) w1 /\
    characteristics w1 !! this = Some c1 /\
    value_changed_listeners c1 = value_changed_listeners c ++ cbs /\
    trace w1 = trace w /\ user w1 = user w /\
    forall value, exists w2 delta,
      value_changed this value w1 = Some (tt, w2) /\
      trace w2 = trace w1 ++ delta /\
      filter (fun e => is_listener_call e = true) delta =
        listener_events this 0 (value_changed_listeners c) ++
        listener_events this (length (value_changed_listeners c)) cbs /\
      user w2 =
        run_listeners this cbs
          (run_listeners this (value_changed_listeners c) (user w1)).
Proof.
  intros Hc Hsafe.
  destruct (register_all_run this cbs w c Hc)
    as (w1 & Hrun & Hc1 & _ & Ht & Hu & _ & _).
  exists w1, (with_listeners c cbs). do 2 (split; [done|]).
  split; [done|]. do 2 (split; [done|]). intros value.
  destruct (value_changed_defined this value w1 (with_listeners c cbs) Hc1 Hsafe)
    as (host & Hv & Hhost & _).
  eexists _, _. split; [exact Hv|]. split; [done|]. split.
  - cbn [filter]. rewrite filter_cons_False by (cbn; done).
    rewrite filter_app, (filter_none _ host), app_nil_l.
    + rewrite listener_events_all_calls. cbn.
      by rewrite listener_events_app.
    + intros e He. destruct (Hhost e He) as [_ ->]. done.
  - cbn. by rewrite run_listeners_app.
Qed.


(** ** What [add_service] needs, and what it does to the objects *)

Lemma functional_read_without_supplier (f : Functional U) (u : U) (m : memory) :
  supplier_set f = false ->
  read (typed_vtable (functional_typed f)) u m = None.
Proof.
  destruct f as [f|f|f]; cbn;
    unfold StringCharacteristic_read, FloatCharacteristic_read,
      IntCharacteristic_read; cbn; unfold call_readFunction;
    by destruct (readFunction f).
Qed.

Lemma get_characteristic_struct_needs_read (this : payload) (w : World U) :
  (forall m, read (vptr this) (user w) m = None) ->
  get_characteristic_struct vptr this w = None.
Proof.
  intros Hread. rewrite get_characteristic_struct_eq.
  destruct (characteristics w !! this); cbn; [|done].
  destruct (get_max_value_override (vptr this) (user w)); cbn; [|done].
  destruct (get_min_value_override (vptr this) (user w)); cbn; [|done].
  by rewrite Hread.
Qed.

Lemma fill_structs_stops (h ch : payload) (chars : list payload) :
  ch ∈ chars ->
  (forall u m, read (vptr ch) u m = None) ->
  forall w : World U, fill_structs vptr h chars w = None.
Proof.
  intros Hin Hread. induction chars as [|x rest IH]; intros w.
  - by apply elem_of_nil in Hin.
  - rewrite fill_structs_cons_eq.
    destruct (characteristics w !! x); [|done].
    destruct (decide (x = ch)) as [->|Hne].
    + by rewrite get_characteristic_struct_needs_read.
    + destruct (get_characteristic_struct vptr x _) as [[s w1]|]; [|done].
      apply elem_of_cons in Hin as [?|Hin]; [done|].
      by rewrite IH.
Qed.

(** X9.  [get_characteristic_struct] calls [read] whether or not the
    characteristic can be read.  For a functional characteristic built
    without a read closure that call throws [std::bad_function_call]: the
    structure is never built, and [add_service] does not return for any
    batch that holds such a characteristic, although [notify], which asks
    [canRead] first, returns and does nothing. *)
Theorem write_only_characteristic_cannot_be_added
    (f : Functional U) (this ch : payload) (ty : hap_service_type)
    (chars : list payload) (w : World U) :
  vptr ch = typed_vtable (functional_typed f) ->
  supplier_set f = false ->
  ch ∈ chars ->
  canRead (vptr ch) (user w) = false /\
  get_characteristic_struct vptr ch w = None /\
  add_service vptr this ty chars w = None /\
  notify vptr ch w = Some (tt, w).
Proof.
  intros Hvt Hf Hin.
  assert (forall u m, read (vptr ch) u m = None) as Hread.
  { intros u m. rewrite Hvt. by apply functional_read_without_supplier. }
  assert (canRead (vptr ch) (user w) = false) as Hcan.
  { rewrite Hvt. by destruct f. }
  split; [done|]. split; [by apply get_characteristic_struct_needs_read|].
  split.
  - unfold add_service, the_accessory, new_array. unfold_M.
    destruct (accessories w !! this); cbn; [|done].
    by rewrite (fill_structs_stops _ ch chars Hin Hread).
  - unfold notify. unfold_M. by rewrite Hcan.
Qed.

(** X10.  [add_service] changes nothing of the characteristics but the
    back-reference of those in its batch, which it sets to the handle of
    the accessory, overwriting what an earlier [add_service] of another
    accessory may have assigned; types, event handles and listeners stay,
    and so do the accessories and the user's state. *)
Theorem add_service_assigns_back_references
    (this : payload) (ty : hap_service_type) (chars : list payload)
    (w w' : World U) (a : Accessory) :
  accessories w !! this = Some a ->
  add_service vptr this ty chars w = Some (tt, w') ->
  (forall x, characteristics w' !! x =
             if decide (x ∈ chars)
             then with_back_reference (a_accessory_handle a)
                    <$> characteristics w !! x
             else characteristics w !! x) /\
  (forall ch, ch ∈ chars ->
              back_reference w' ch = Some (a_accessory_handle a) /\
              event_handle_of w' ch = event_handle_of w ch) /\
  accessories w' = accessories w /\ user w' = user w /\
  hap_initialized w' = hap_initialized w.
Proof.
  intros Ha (a' & l & before & after & Ha' & Hu & Hacc & Hi & Hcs & _ & Hex
             & _)%add_service_frame.
  rewrite Ha in Ha'. injection Ha' as <-.
  split; [intros x; by rewrite Hcs, assign_all_lookup|].
  split; [|done].
  intros ch Hin. unfold back_reference, event_handle_of.
  rewrite Hcs, assign_all_lookup, decide_True by done.
  destruct (Hex ch Hin) as [c ->]. done.
Qed.

(** X11.  A service without characteristics is registered all the same:
    [add_service] with an empty batch always returns, allocates the
    zero-length array, calls the host once with the count 0, and releases
    the array; nothing else changes. *)
Theorem empty_service_is_still_registered
    (this : payload) (ty : hap_service_type) (w : World U) (a : Accessory) :
  accessories w !! this = Some a ->
  add_service vptr this ty [] w =
  Some (tt, {| user := user w; store := store w ++ [Freed];
               characteristics := characteristics w;
               accessories := accessories w;
               hap_initialized := hap_initialized w;
               trace := trace w ++
                 [ Ev_new (address_of (length (store w)));
                   Ev_hap_service_and_characteristics_ex_add
                     (a_accessory_handle a) (accessory_object a) ty [] 0;
                   Ev_delete (address_of (length (store w))) ] |}).
Proof.
  intros Ha. unfold add_service, the_accessory, new_array. unfold_M.
  rewrite Ha. cbn. rewrite delete_array_eq. cbn.
  pose proof (release_allocate (store w) (BStructs 0)) as Hrel.
  cbn in Hrel. rewrite Hrel. by rewrite <- !app_assoc.
Qed.

(** ** The internals of a transfer structure *)

(** X14.  [delete_characteristic_struct_internals] does nothing for a
    structure without a valid-value array.  For one with an array it
    releases the array and leaves the structure's pointer as it was:
    calling it a second time on the same structure releases the same
    address again, which is undefined. *)
Theorem struct_internals_are_released_once
    (cs : hap_characteristic_ex) (w : World U) :
  (override_valid_values cs = false \/ valid_values cs = nullptr ->
   delete_characteristic_struct_internals cs w = Some (tt, w)) /\
  (override_valid_values cs = true -> valid_values cs <> nullptr ->
   forall w1,
     delete_characteristic_struct_internals cs w = Some (tt, w1) ->
     is_Some (deref (store w) (valid_values cs)) /\
     deref (store w1) (valid_values cs) = None /\
     trace w1 = trace w ++ [Ev_delete (valid_values cs)] /\
     delete_characteristic_struct_internals cs w1 = None).
Proof.
  unfold delete_characteristic_struct_internals. split.
  - intros [->| ->]; [done|]. cbn. by rewrite andb_false_r.
  - intros -> Hne w1.
    rewrite (proj2 (Z.eqb_neq _ _) Hne). cbn. rewrite !delete_array_eq.
    destruct (release (valid_values cs) (store w)) as [m|] eqn:Hrel; [|done].
    intros [= <-]. cbn.
    pose proof (deref_release _ (valid_values cs) _ _ Hrel) as [_ Hd].
    rewrite decide_True in Hd by done.
    apply release_Some in Hrel as (i & b & Ha & Hi & ->).
    split; [exists b; apply deref_Some; by eauto|].
    split; [done|]. split; [done|].
    destruct (release (valid_values cs) _) as [m'|] eqn:Hrel'; [|done].
    apply release_Some in Hrel' as (j & b' & Ha' & Hj & _).
    rewrite Ha in Ha'. apply address_of_inj in Ha' as <-.
    apply lookup_lt_Some in Hi as Hlt.
    by rewrite list_lookup_insert_eq in Hj by done.
Qed.


(** ** What every operation adds to the trace *)

Lemma listener_events_are_calls (this : payload) (ls : list (listener U)) :
  forall i e, e ∈ listener_events this i ls -> is_listener_call e = true.
Proof.
  induction ls as [|[f|] ls IH]; intros i e He; cbn in He.
  - by apply elem_of_nil in He.
  - apply elem_of_cons in He as [->|He]; [done|by eapply IH].
  - by eapply IH.
Qed.

Lemma bookkeeping_event_ordinary (u : U) (e : event) :
  is_bookkeeping_event e = true -> ordinary_event vptr u e.
Proof.
  destruct e; try done. all: intros _; do 3 (split; [done|]);
    by intros s ?%elem_of_nil.
Qed.

Lemma value_changed_ordinary (this value : payload) (w w' : World U) (u : U) :
  value_changed this value w = Some (tt, w') ->
  hap_initialized w' = hap_initialized w /\
  exists delta, trace w' = trace w ++ delta /\
                Forall (ordinary_event vptr u) delta.
Proof.
  intros Hrun.
  destruct (characteristics w !! this) as [c|] eqn:Hc.
  2:{ unfold value_changed, the_characteristic in Hrun. unfold_M.
      cbn in Hrun. by rewrite Hc in Hrun. }
  assert (exists host, w' = dispatched this value c host w /\
                       Forall (fun e => is_emit_event e = true) host)
    as (host & -> & Hhost).
  { destruct (decide (event_handle c = nullptr)) as [He|He].
    - rewrite (value_changed_quiet _ _ _ c) in Hrun by done.
      injection Hrun as <-. by exists [].
    - destruct (accessory_handle c) as [h|] eqn:Hh.
      + rewrite (value_changed_emits _ _ _ c h) in Hrun by done.
        injection Hrun as <-. eexists. split; [done|]. by repeat constructor.
      + unfold value_changed, the_characteristic in Hrun. unfold_M.
        cbn in Hrun. rewrite Hc in Hrun. cbn in Hrun.
        destruct (Z.eqb_spec (event_handle c) nullptr); [done|].
        by rewrite Hh in Hrun. }
  split; [done|]. eexists. split; [done|].
  apply Forall_cons. split.
  { do 3 (split; [done|]). by intros s ?%elem_of_nil. }
  apply Forall_app. split.
  - eapply Forall_impl; [exact Hhost|]. intros e He.
    destruct e; try done. do 3 (split; [done|]). by intros s ?%elem_of_nil.
  - apply Forall_forall. intros e He%listener_events_are_calls.
    destruct e; try done. do 3 (split; [done|]). by intros s ?%elem_of_nil.
Qed.

Lemma fill_structs_mirrors (h : payload) (chars : list payload) :
  forall (w : World U) l w',
    fill_structs vptr h chars w = Some (l, w') ->
    Forall (mirrors vptr (user w)) l.
Proof.
  induction chars as [|ch rest IH]; intros w l w' Hrun.
  - cbn in Hrun. by injection Hrun as <- <-.
  - rewrite fill_structs_cons_eq in Hrun.
    destruct (characteristics w !! ch) as [c0|] eqn:Hc0; [|done].
    destruct (get_characteristic_struct vptr ch _) as [[s w1]|] eqn:Hs; [|done].
    destruct (fill_structs vptr h rest w1) as [[tail w2]|] eqn:Ht; [|done].
    injection Hrun as <- <-.
    rewrite get_characteristic_struct_eq in Hs. cbn in Hs.
    destruct (assign_back_reference h (characteristics w) ch !! ch)
      as [c|]; cbn in Hs; [|done].
    destruct (get_max_value_override (vptr ch) (user w)) as [max|];
      cbn in Hs; [|done].
    destruct (get_min_value_override (vptr ch) (user w)) as [min|];
      cbn in Hs; [|done].
    destruct (read (vptr ch) (user w) _) as [[value m']|];
      cbn in Hs; [|done].
    injection Hs as <- <-.
    apply IH in Ht. cbn in Ht. by constructor.
Qed.

Lemma add_service_ordinary (this : payload) (ty : hap_service_type)
    (chars : list payload) (w w' : World U) :
  add_service vptr this ty chars w = Some (tt, w') ->
  exists delta, trace w' = trace w ++ delta /\
                Forall (ordinary_event vptr (user w)) delta.
Proof.
  rewrite add_service_eq, new_array_eq.
  destruct (accessories w !! this) as [a|]; [|done].
  destruct (fill_structs vptr (a_accessory_handle a) chars _)
    as [[l w1]|] eqn:Hfill; [|done].
  pose proof (fill_structs_mirrors _ _ _ _ _ Hfill) as Hm. cbn in Hm.
  apply fill_structs_frame in Hfill
    as (_ & _ & _ & _ & _ & _ & d1 & Htr1 & Hd1).
  destruct (delete_structs l _) as [[[] w2]|] eqn:Hdel; [|done].
  apply delete_structs_frame in Hdel
    as (_ & _ & _ & _ & d2 & Htr2 & Hd2).
  rewrite delete_array_eq.
  destruct (release _ (store w2)); [|done].
  intros [= <-]. cbn in *.
  exists (Ev_new (address_of (length (store w))) :: d1 ++
          Ev_hap_service_and_characteristics_ex_add
            (a_accessory_handle a) (accessory_object a) ty l
            (Z.of_nat (length l)) :: d2 ++
          [Ev_delete (address_of (length (store w)))]).
  split.
  { rewrite Htr2, Htr1. rewrite <- !app_assoc. cbn.
    by rewrite <- ?app_assoc. }
  apply Forall_cons. split; [by apply bookkeeping_event_ordinary|].
  apply Forall_app. split.
  { eapply Forall_impl; [exact Hd1|]. apply bookkeeping_event_ordinary. }
  apply Forall_cons. split.
  { do 3 (split; [done|]). intros s Hs. cbn in Hs.
    rewrite Forall_forall in Hm. by apply Hm. }
  apply Forall_app. split.
  { eapply Forall_impl; [exact Hd2|]. apply bookkeeping_event_ordinary. }
  apply Forall_cons. split; [by apply bookkeeping_event_ordinary|constructor].
Qed.

Lemma run_init_ordinary (this : payload)
    (services : list (hap_service_type * list payload)) :
  forall w w' : World U,
    run_init vptr this services w = Some (tt, w') ->
    hap_initialized w' = hap_initialized w /\
    exists delta, trace w' = trace w ++ delta /\
                  Forall (ordinary_event vptr (user w)) delta.
Proof.
  induction services as [|[ty cs] rest IH]; intros w w' Hrun.
  - cbn in Hrun. injection Hrun as <-. split; [done|].
    exists []. by rewrite app_nil_r.
  - cbn [run_init] in Hrun.
    apply bind_Some in Hrun as ([] & w1 & H1 & H2).
    pose proof (add_service_frame _ _ _ _ _ H1)
      as (a & l & before & after & _ & Hu & _ & Hi & _).
    apply add_service_ordinary in H1 as (d1 & Ht1 & Hd1).
    apply IH in H2 as (Hi2 & d2 & Ht2 & Hd2). rewrite Hu in Hd2.
    split; [congruence|]. exists (d1 ++ d2).
    split; [by rewrite Ht2, Ht1, <- app_assoc|]. by apply Forall_app.
Qed.

Lemma init_callback_ordinary (this : payload) (w w' : World U) :
  init_callback vptr hap_accessory_add_result this w = Some (tt, w') ->
  hap_initialized w' = hap_initialized w /\
  exists delta, trace w' = trace w ++ delta /\
                Forall (ordinary_event vptr (user w)) delta.
Proof.
  rewrite init_callback_eq.
  destruct (accessories w !! this) as [a|]; [|done].
  intros (Hi & d & Ht & Hd)%run_init_ordinary. cbn in Hi, Ht, Hd.
  split; [done|]. eexists. rewrite Ht, <- app_assoc. split; [done|].
  apply Forall_app. split; [|done].
  unfold information_events.
  do 2 (apply Forall_cons; split;
        [by do 3 (split; [done|]); intros s ?%elem_of_nil|]).
  constructor.
Qed.

(** Every operation that is not a registration adds ordinary events only
    and leaves the static flag alone. *)
Lemma run_op_ordinary (o : op U) (w w' : World U) :
  bridge_writes vptr ->
  is_registration o = false ->
  run_op vptr hap_accessory_register_result hap_accessory_add_result o w
    = Some (tt, w') ->
  hap_initialized w' = hap_initialized w /\
  exists delta, trace w' = trace w ++ delta /\
                Forall (ordinary_event vptr (user w)) delta.
Proof.
  intros Htyped Hreg. destruct o; cbn [run_op]; try done.
  - unfold notify, call_read. unfold_M.
    destruct (canRead (vptr this) (user w)); cbn.
    + destruct (read (vptr this) (user w) (store w)) as [[p m]|]; [|done].
      by intros Hv%(value_changed_ordinary _ _ _ _ (user w)).
    + intros [= <-]. split; [done|]. exists []. by rewrite app_nil_r.
  - rewrite register_for_notifications_eq.
    destruct (characteristics w !! this); [|done]. intros [= <-].
    split; [done|]. exists []. by rewrite app_nil_r.
  - apply init_callback_ordinary.
  - unfold read_characteristic, call_read. unfold_M.
    destruct (read (vptr arg) (user w) (store w)) as [[p m]|]; [|done].
    intros [= <-]. split; [done|]. exists []. by rewrite app_nil_r.
  - unfold write_characteristic. destruct (Htyped arg) as [t ->].
    rewrite typed_write_eq.
    destruct (typed_apply t value (user w) (store w)) as [u'|]; [|done].
    by intros Hv%(value_changed_ordinary _ _ _ _ (user w)).
  - unfold set_characteristic_event_handle. rewrite set_event_handle_eq.
    destruct (characteristics w !! arg); [|done]. intros [= <-].
    split; [done|]. exists []. by rewrite app_nil_r.
Qed.

Lemma run_op_registration (o : op U) (w w' : World U) :
  is_registration o = true ->
  run_op vptr hap_accessory_register_result hap_accessory_add_result o w
    = Some (tt, w') ->
  hap_initialized w' = true /\
  exists this a,
    o = Call_register_accessory this /\
    trace w' = trace w ++
               (if hap_initialized w then []
                else [Ev_hap_initialized_set; Ev_hap_init])
               ++ [registration_event this a].
Proof.
  destruct o; try done. intros _. cbn [run_op].
  rewrite register_accessory_eq.
  destruct (accessories w !! this) as [a|]; [|done]. cbn zeta.
  intros [= <-]. split; [done|]. by exists this, a.
Qed.

(** What an operation hands to the host was built in the state in which
    the operation starts. *)
Lemma run_op_hands (o : op U) (w w' : World U) :
  bridge_writes vptr ->
  run_op vptr hap_accessory_register_result hap_accessory_add_result o w
    = Some (tt, w') ->
  exists delta, trace w' = trace w ++ delta /\
                Forall (hands_mirrors vptr (user w)) delta.
Proof.
  intros Htyped Hs. destruct (is_registration o) eqn:Hreg.
  - apply run_op_registration in Hs as (_ & this & a & _ & Ht); [|done].
    eexists. split; [exact Ht|].
    destruct (hap_initialized w); cbn [app];
      repeat (apply Forall_cons; split; [by intros s ?%elem_of_nil|]);
      constructor.
  - apply run_op_ordinary in Hs as (_ & delta & Ht & Hd); [|done..].
    exists delta. split; [done|].
    eapply Forall_impl; [exact Hd|]. by intros e (_ & _ & _ & He).
Qed.

(** Every event of a run was added by one of its operations. *)
Lemma run_event_origin (w w' : World U) (os : list (op U)) :
  bridge_writes vptr ->
  run vptr hap_accessory_register_result hap_accessory_add_result w os w' ->
  forall e, e ∈ trace w' ->
    e ∈ trace w \/
    exists os1 o os2 w1 w2 delta,
      os = os1 ++ o :: os2 /\
      run vptr hap_accessory_register_result hap_accessory_add_result
          w os1 w1 /\
      run_op vptr hap_accessory_register_result hap_accessory_add_result
             o w1 = Some (tt, w2) /\
      trace w2 = trace w1 ++ delta /\ e ∈ delta /\
      hands_mirrors vptr (user w1) e.
Proof.
  intros Htyped Hrun. induction Hrun as [|w o w1 os w2 Hp Hs Hrest IH];
    intros e He; [by left|].
  destruct (IH e He)
    as [Hin|(os1 & o' & os2 & wa & wb & delta & -> & Hr1 & Ho & Ht & Hd & Hm)].
  - destruct (run_op_hands o w w1 Htyped Hs) as (delta & Ht & Hd).
    rewrite Ht in Hin. apply elem_of_app in Hin as [Hin|Hin]; [by left|].
    right. exists [], o, os, w, w1, delta. split; [done|].
    split; [apply run_done|]. do 3 (split; [done|]).
    rewrite Forall_forall in Hd. by apply Hd.
  - right. exists (o :: os1), o', os2, wa, wb, delta. split; [done|].
    split; [by econstructor|]. done.
Qed.

Lemma given_read_capable (w w' : World U) (os : list (op U)) (arg : payload) :
  bridge_writes vptr ->
  at_startup w ->
  run vptr hap_accessory_register_result hap_accessory_add_result w os w' ->
  given_with (trace w') arg read_fn read_characteristic_fn ->
  exists u, canRead (vptr arg) u = true.
Proof.
  intros Htyped (Htr & _) Hrun (e & cs & He & Hcs & <- & Hfn).
  destruct (run_event_origin w w' os Htyped Hrun e He)
    as [Hin|(os1 & o & os2 & w1 & w2 & delta & _ & _ & _ & _ & _ & Hm)].
  { rewrite Htr in Hin. by apply elem_of_nil in Hin. }
  destruct (Hm cs Hcs) as (Hr & _). exists (user w1).
  rewrite Hr in Hfn. by destruct (canRead _ (user w1)).
Qed.


(** ** The contract between the bridge and the host *)

(** X6.  In every run from process start of a program whose
    characteristics write as the bridges do, each transfer structure the
    host holds was handed over by one of the operations of the run, and was
    filled in by [get_characteristic_struct] in the state in which that
    operation started: there its read and write pointers are null exactly
    where [canRead] and [canWrite] are false, and its event-enable pointer
    is set.  The object behind it exists, with its back-reference
    assigned. *)
Theorem handed_structures_mirror_capabilities
    (w : World U) (os : list (op U)) (w' : World U) :
  bridge_writes vptr ->
  at_startup w ->
  run vptr hap_accessory_register_result hap_accessory_add_result w os w' ->
  forall e s,
    e ∈ trace w' -> s ∈ structs_given e ->
    (exists os1 o os2 w1 w2 delta,
        os = os1 ++ o :: os2 /\
        run vptr hap_accessory_register_result hap_accessory_add_result
            w os1 w1 /\
        run_op vptr hap_accessory_register_result hap_accessory_add_result
               o w1 = Some (tt, w2) /\
        trace w2 = trace w1 ++ delta /\ e ∈ delta /\
        mirrors vptr (user w1) s) /\
    is_Some (back_reference w' (callback_arg s)).
Proof.
  intros Htyped Hstart Hrun e s He Hs.
  pose proof (safe_run w w' os Htyped (at_startup_safe w Hstart) Hrun)
    as [Hsafe _].
  split; [|by eapply Hsafe].
  destruct (run_event_origin w w' os Htyped Hrun e He)
    as [Hin|(os1 & o & os2 & w1 & w2 & delta & Hos & Hr & Ho & Ht & Hd & Hm)].
  { destruct Hstart as (Htr & _). rewrite Htr in Hin.
    by apply elem_of_nil in Hin. }
  exists os1, o, os2, w1, w2, delta. do 5 (split; [done|]). by apply Hm.
Qed.

Lemma functional_canWrite (f : Functional U) (u : U) :
  canWrite (typed_vtable (functional_typed f)) u = consumer_set f.
Proof. by destruct f. Qed.

Lemma functional_canRead (f : Functional U) (u : U) :
  canRead (typed_vtable (functional_typed f)) u = supplier_set f.
Proof. by destruct f. Qed.


(** X8.  No host read ends in [std::bad_function_call] either: in a run
    from process start, a read the host makes through a transfer
    structure on a functional characteristic finds the read closure
    present and returns what the closure gives at that moment, encoded as
    the bridge of its form encodes it: the same 32 bits for an [int], the
    count of hundredths for a [float], provided that is defined, and the
    address of the released temporary for a string. *)
Theorem permitted_read_on_functional_returns
    (w : World U) (os : list (op U)) (w' : World U) (f : Functional U)
    (arg : payload) :
  bridge_writes vptr ->
  at_startup w ->
  run vptr hap_accessory_register_result hap_accessory_add_result w os w' ->
  vptr arg = typed_vtable (functional_typed f) ->
  permitted (U := U) (trace w') (Host_read_characteristic arg) ->
  (forall g r, f = FFloat g -> readFunction g = Some r ->
               is_Some (floatToVoid (r (user w')))) ->
  supplier_set f = true /\
  exists p w'',
    read_characteristic vptr arg w' = Some (p, w'') /\
    match f with
    | FInt g => exists r, readFunction g = Some r /\
                          p = int_to_ptr (r (user w'))
    | FFloat g => exists r, readFunction g = Some r /\
                            floatToVoid (r (user w')) = Some p
    | FString g => is_Some (readFunction g) /\
                   p = address_of (length (store w'))
    end.
Proof.
  intros Htyped Hstart Hrun Hvt Hp Hfl.
  destruct (given_read_capable w w' os arg Htyped Hstart Hrun Hp)
    as [u Hcan].
  rewrite Hvt, functional_canRead in Hcan. split; [done|].
  unfold read_characteristic, call_read. rewrite Hvt.
  destruct f as [g|g|g]; cbn in Hcan;
    cbn [read typed_vtable functional_typed StringCharacteristic_vtable
         FloatCharacteristic_vtable IntCharacteristic_vtable].
  - rewrite string_read_eq. cbn. unfold call_readFunction.
    destruct (readFunction g); [|done]. eexists _, _. split; [done|].
    split; [by eexists|done].
  - unfold FloatCharacteristic_read. cbn. unfold call_readFunction.
    destruct (readFunction g) as [r|] eqn:Hr; [|done]. cbn.
    destruct (Hfl g r eq_refl Hr) as [q Hq]. rewrite Hq. cbn.
    eexists _, _. split; [done|]. by exists r.
  - unfold IntCharacteristic_read. cbn. unfold call_readFunction.
    destruct (readFunction g) as [r|]; [|done]. cbn.
    eexists _, _. split; [done|]. by exists r.
Qed.

(** ** The start of the host library, in any run *)

Lemma filter_start_ordinary (u : U) (delta : list event) :
  Forall (ordinary_event vptr u) delta ->
  filter (fun e => is_flag_set e = true \/ is_hap_init e = true) delta = [] /\
  filter (fun e => is_register e = true) delta = [].
Proof.
  intros Hd. rewrite Forall_forall in Hd.
  split; apply filter_none; intros e He;
    destruct (Hd e He) as (H1 & H2 & H3 & _).
  - intros [?|?]; congruence.
  - congruence.
Qed.

Lemma started_before_app (tr more : list event) (i : nat) :
  started_before tr i -> (i <= length tr)%nat ->
  forall k, (i <= k)%nat -> started_before (tr ++ more) k.
Proof.
  intros (j & k' & Hjk & Hj & Hk) Hi k Hik. exists j, k'.
  split; [lia|]. split; rewrite lookup_app_l; (done || lia).
Qed.

Lemma started_once_step (o : op U) (w w' : World U) :
  bridge_writes vptr ->
  started_once w ->
  run_op vptr hap_accessory_register_result hap_accessory_add_result o w
    = Some (tt, w') ->
  started_once w' /\
  hap_initialized w' = hap_initialized w || is_registration o /\
  length (filter (fun e => is_register e = true) (trace w')) =
    (length (filter (fun e => is_register e = true) (trace w)) +
     (if is_registration o then 1 else 0))%nat.
Proof.
  intros Htyped (Hcount & Hflagged & Hbefore) Hs.
  assert (forall more i e,
             (trace w ++ more) !! i = Some e -> (i < length (trace w))%nat ->
             is_register e = true -> started_before (trace w ++ more) i)
    as Hold.
  { intros more i e Hi Hlt He. rewrite lookup_app_l in Hi by done.
    apply (started_before_app _ _ i); [by eapply Hbefore|lia|lia]. }
  destruct (is_registration o) eqn:Hreg.
  - apply run_op_registration in Hs as (Hi & this & a & _ & Ht); [|done].
    rewrite Hi, orb_true_r.
    assert (started_before (trace w') (length (trace w) +
              (if hap_initialized w then 0 else 2))) as Hnow.
    { rewrite Ht. destruct (hap_initialized w) eqn:Hflag.
      - rewrite Nat.add_0_r.
        apply (started_before_app _ _ (length (trace w))); [by auto|lia|lia].
      - exists (length (trace w)), (S (length (trace w))).
        split; [lia|]. split.
        + by apply list_lookup_middle.
        + rewrite lookup_app_r by lia.
          by replace (S (length (trace w)) - length (trace w))%nat
            with 1%nat by lia. }
    split; [split; [|split]|split; [done|]].
    + rewrite Ht, Hi, !filter_app, Hcount.
      by destruct (hap_initialized w).
    + intros _. destruct Hnow as (j & k & Hjk & Hj & Hk).
      exists j, k. split; [|done]. split; [lia|].
      by apply lookup_lt_Some in Hk.
    + intros i e Hi' He.
      destruct (decide (i < length (trace w))%nat) as [Hlt|Hge].
      { rewrite Ht in Hi' |- *. by eapply Hold. }
      destruct Hnow as (j & k & Hjk & Hj & Hk). exists j, k.
      split; [|done]. split; [lia|].
      rewrite Ht in Hi'. rewrite lookup_app_r in Hi' by lia.
      destruct (hap_initialized w); [lia|].
      destruct (i - length (trace w))%nat as [|[|n]] eqn:Hn;
        cbn in Hi'; [by injection Hi' as <-|by injection Hi' as <-|lia].
    + rewrite Ht, !filter_app, !length_app.
      assert (length (filter (fun e => is_register e = true)
                             [registration_event this a]) = 1%nat) as ->
        by reflexivity.
      by destruct (hap_initialized w).
  - apply run_op_ordinary in Hs as (Hi & delta & Ht & Hd); [|done..].
    destruct (filter_start_ordinary _ delta Hd) as [Hf1 Hf2].
    rewrite Hi, orb_false_r. split; [split; [|split]|split; [done|]].
    + by rewrite Ht, Hi, filter_app, Hf1, app_nil_r.
    + intros Hflag. rewrite Hi in Hflag. rewrite Ht.
      apply (started_before_app _ _ (length (trace w)));
        [by apply Hflagged|lia|].
      rewrite length_app. lia.
    + intros i e Hi' He. rewrite Ht in Hi' |- *.
      destruct (decide (i < length (trace w))%nat) as [Hlt|Hge];
        [by eapply Hold|].
      rewrite lookup_app_r in Hi' by lia.
      apply list_elem_of_lookup_2 in Hi'.
      rewrite Forall_forall in Hd. destruct (Hd e Hi') as (_ & _ & Hr & _).
      congruence.
    + rewrite Ht, filter_app, Hf2, app_nil_r. lia.
Qed.

Lemma started_once_run (w w' : World U) (os : list (op U)) :
  bridge_writes vptr ->
  started_once w ->
  run vptr hap_accessory_register_result hap_accessory_add_result w os w' ->
  started_once w' /\
  hap_initialized w' = hap_initialized w || existsb is_registration os /\
  length (filter (fun e => is_register e = true) (trace w')) =
    (length (filter (fun e => is_register e = true) (trace w)) +
     length (filter (fun o => is_registration o = true) os))%nat.
Proof.
  intros Htyped Hw Hrun. induction Hrun as [|w o w1 os w2 Hp Hs _ IH].
  - split; [done|]. cbn. rewrite orb_false_r. split; [done|lia].
  - destruct (started_once_step o w w1 Htyped Hw Hs) as (Hw1 & Hi1 & Hn1).
    destruct (IH Hw1) as (Hw2 & Hi2 & Hn2). split; [done|].
    split.
    + rewrite Hi2, Hi1. cbn. by rewrite orb_assoc.
    + rewrite Hn2, Hn1. destruct (is_registration o) eqn:Hreg.
      * rewrite filter_cons_True by done. cbn. lia.
      * rewrite filter_cons_False by (by rewrite Hreg). lia.
Qed.

(** X15.  Whatever the user's code and the host do, in whatever order,
    the host library is started at most once: in every run from process
    start of a program whose characteristics write as the bridges do, the
    static flag is set exactly when some accessory has been registered, the
    trace holds then one assignment of the flag followed by one [hap_init]
    and otherwise neither, both precede every registration, and there
    are as many registrations as calls of [register_accessory]. *)
Theorem hap_init_runs_at_most_once_in_any_run
    (w : World U) (os : list (op U)) (w' : World U) :
  bridge_writes vptr ->
  at_startup w ->
  run vptr hap_accessory_register_result hap_accessory_add_result w os w' ->
  hap_initialized w' = existsb is_registration os /\
  filter (fun e => is_flag_set e = true \/ is_hap_init e = true) (trace w') =
    (if existsb is_registration os
     then [Ev_hap_initialized_set; Ev_hap_init] else []) /\
  (forall i e, trace w' !! i = Some e -> is_register e = true ->
               started_before (trace w') i) /\
  length (filter (fun e => is_register e = true) (trace w')) =
    length (filter (fun o => is_registration o = true) os).
Proof.
  intros Htyped (Htr & Hflag & _) Hrun.
  assert (started_once w) as Hw.
  { split; [by rewrite Htr, Hflag|]. split; [by rewrite Hflag|].
    intros i e Hi. by rewrite Htr in Hi. }
  destruct (started_once_run w w' os Htyped Hw Hrun)
    as ((Hc & _ & Hb) & Hi & Hn).
  rewrite Hflag in Hi. cbn in Hi. rewrite Htr in Hn. cbn in Hn.
  split; [done|]. split; [by rewrite <- Hi|]. done.
Qed.

(** ** The bring-up of an accessory *)

Lemma storage_events_no_service (delta : list event) :
  Forall (fun e => is_bookkeeping_event e = true) delta ->
  omap service_type_of delta = [] /\
  Forall (fun e => is_service e = true ->
                   forall t, service_target e = Some t) delta.
Proof.
  induction 1 as [|e delta He _ [IH1 IH2]]; [done|].
  destruct e; try done; cbn; split; try done; by constructor.
Qed.

Lemma add_service_services (this : payload) (ty : hap_service_type)
    (chars : list payload) (w w' : World U) (a : Accessory) :
  accessories w !! this = Some a ->
  add_service vptr this ty chars w = Some (tt, w') ->
  accessories w' = accessories w /\
  (exists delta,
     trace w' = trace w ++ delta /\
     Forall (fun e => is_service e = true ->
                      service_target e =
                        Some (a_accessory_handle a, accessory_object a))
            delta /\
     omap service_type_of delta = [ty]) /\
  (forall ch, ch ∈ chars ->
              back_reference w' ch = Some (a_accessory_handle a)) /\
  (forall x, back_reference w x = Some (a_accessory_handle a) ->
             back_reference w' x = Some (a_accessory_handle a)).
Proof.
  intros Ha (a' & l & before & after & Ha' & _ & Hacc & _ & Hcs & _ & Hex
             & Htr & Hb & Haf)%add_service_frame.
  rewrite Ha in Ha'. injection Ha' as <-.
  destruct (storage_events_no_service before Hb) as [Hb1 Hb2].
  destruct (storage_events_no_service after Haf) as [Ha1 Ha2].
  split; [done|]. split; [|split].
  - eexists. split; [exact Htr|]. split.
    + apply Forall_app. split.
      { eapply Forall_impl; [exact Hb2|]. cbn. by auto. }
      apply Forall_app. split; [by repeat constructor|].
      eapply Forall_impl; [exact Ha2|]. cbn. by auto.
    + by rewrite !omap_app, Hb1, Ha1.
  - intros ch Hin. unfold back_reference.
    rewrite Hcs, assign_all_lookup, decide_True by done.
    by destruct (Hex ch Hin) as [c ->].
  - intros x. unfold back_reference. rewrite Hcs, assign_all_lookup.
    case_decide; [|done]. by destruct (characteristics w !! x).
Qed.

Lemma run_init_services (this : payload)
    (services : list (hap_service_type * list payload)) :
  forall (w w' : World U) (a : Accessory),
    accessories w !! this = Some a ->
    run_init vptr this services w = Some (tt, w') ->
    accessories w' = accessories w /\
    (exists delta,
       trace w' = trace w ++ delta /\
       Forall (fun e => is_service e = true ->
                        service_target e =
                          Some (a_accessory_handle a, accessory_object a))
              delta /\
       omap service_type_of delta = fst <$> services) /\
    (forall ty chars ch,
        (ty, chars) ∈ services -> ch ∈ chars ->
        back_reference w' ch = Some (a_accessory_handle a)) /\
    (forall x, back_reference w x = Some (a_accessory_handle a) ->
               back_reference w' x = Some (a_accessory_handle a)).
Proof.
  induction services as [|[ty cs] rest IH]; intros w w' a Ha Hrun.
  - cbn in Hrun. injection Hrun as <-. split; [done|]. split.
    { exists []. by rewrite app_nil_r. }
    split; [|done]. by intros ty chars ch ?%elem_of_nil.
  - cbn [run_init] in Hrun.
    apply bind_Some in Hrun as ([] & w1 & H1 & H2).
    destruct (add_service_services _ _ _ _ _ _ Ha H1)
      as (Hacc1 & (d1 & Ht1 & Hd1 & Ho1) & Hin1 & Hkeep1).
    assert (accessories w1 !! this = Some a) as Ha1 by (by rewrite Hacc1).
    destruct (IH _ _ _ Ha1 H2)
      as (Hacc2 & (d2 & Ht2 & Hd2 & Ho2) & Hin2 & Hkeep2).
    split; [congruence|]. split; [|split].
    + exists (d1 ++ d2). split; [by rewrite Ht2, Ht1, <- app_assoc|].
      split; [by apply Forall_app|]. by rewrite omap_app, Ho1, Ho2.
    + intros ty' chars ch [[= -> ->]|Hin]%elem_of_cons Hch.
      * by apply Hkeep2, Hin1.
      * by eapply Hin2.
    + intros x Hx. by apply Hkeep2, Hkeep1.
Qed.

(** X12.  When the host calls back for an accessory, every service the
    bring-up registers, the information service and each one the user's
    [init] adds, names the handle the accessory holds and the object that
    [hap_accessory_add] has just returned; the services reach the host in
    the order information service first, then the user's in the order of
    [init]; the accessory keeps that object; and every characteristic of
    every user service ends up with the accessory's handle as its
    back-reference. *)
Theorem bring_up_registers_services_in_order
    (this : payload) (w w' : World U) (a : Accessory) :
  accessories w !! this = Some a ->
  init_callback vptr hap_accessory_add_result this w = Some (tt, w') ->
  let object :=
    hap_accessory_add_result
      (trace w ++ [Ev_hap_accessory_add (a_accessory_handle a)]) in
  accessories w' !! this = Some (with_object a object) /\
  (exists delta,
     trace w' = trace w ++ delta /\
     Forall (fun e => is_service e = true ->
                      service_target e = Some (a_accessory_handle a, object))
            delta /\
     omap service_type_of delta =
       HAP_SERVICE_ACCESSORY_INFORMATION :: (fst <$> init a)) /\
  (forall ty chars ch,
      (ty, chars) ∈ init a -> ch ∈ chars ->
      back_reference w' ch = Some (a_accessory_handle a)).
Proof.
  intros Ha Hrun object. rewrite init_callback_eq, Ha in Hrun.
  assert (accessories (information_installed hap_accessory_add_result
                         this a w) !! this = Some (with_object a object))
    as Ha0 by (cbn; apply lookup_insert_eq).
  destruct (run_init_services _ _ _ _ _ Ha0 Hrun)
    as (Hacc & (d & Ht & Hd & Ho) & Hin & _).
  cbn in Hd, Hin. split; [by rewrite Hacc|]. split; [|done].
  exists (information_events a object ++ d). split.
  { rewrite Ht. cbn [information_installed trace].
    by rewrite <- app_assoc. }
  split.
  - apply Forall_app. split; [by repeat constructor|done].
  - by rewrite omap_app, Ho.
Qed.


(** ** Functional characteristics in the transfer structure *)

Lemma floatToVoid_zero : floatToVoid (S754_zero false) = Some nullptr.
Proof. reflexivity. Qed.

Lemma functional_overrides (f : Functional U) (u : U) :
  get_max_value_override (typed_vtable (functional_typed f)) u
    = Some (false, nullptr) /\
  get_min_value_override (typed_vtable (functional_typed f)) u
    = Some (false, nullptr) /\
  get_valid_values_override (typed_vtable (functional_typed f)) u
    = (false, []).
Proof.
  destruct f as [g|g|g]; cbn;
    unfold FloatCharacteristic_override, IntCharacteristic_override; cbn;
    rewrite ?floatToVoid_zero; done.
Qed.

(** X16.  A functional characteristic never constrains its value: when
    [get_characteristic_struct] returns for one, the structure has no
    maximum, no minimum and no valid-value array, so building it allocates
    nothing and [delete_characteristic_struct_internals] has nothing to
    release; its read pointer is set, the read closure being needed for the
    structure to be built at all, and its write pointer is set exactly
    when the write closure is. *)
Theorem functional_structure_has_no_overrides
    (f : Functional U) (this : payload) (w : World U)
    (s : hap_characteristic_ex) (w' : World U) :
  vptr this = typed_vtable (functional_typed f) ->
  get_characteristic_struct vptr this w = Some (s, w') ->
  supplier_set f = true /\
  read_fn s = Some read_characteristic_fn /\
  write_fn s = (if consumer_set f then Some write_characteristic_fn
                else None) /\
  event_fn s = Some set_characteristic_event_handle_fn /\
  override_max_value s = false /\ max_value s = nullptr /\
  override_min_value s = false /\ min_value s = nullptr /\
  override_valid_values s = false /\ valid_values s = nullptr /\
  valid_values_length s = 0 /\
  trace w' = trace w /\
  delete_characteristic_struct_internals s w' = Some (tt, w').
Proof.
  intros Hvt Hrun.
  assert (supplier_set f = true) as Hsup.
  { destruct (supplier_set f) eqn:E; [done|].
    rewrite get_characteristic_struct_needs_read in Hrun; [done|].
    intros m. rewrite Hvt. by apply functional_read_without_supplier. }
  split; [done|].
  rewrite get_characteristic_struct_eq, Hvt in Hrun.
  destruct (characteristics w !! this) as [c|]; cbn [mbind option_bind] in Hrun;
    [|done].
  destruct (functional_overrides f (user w)) as (Hmax & Hmin & Hvv).
  rewrite Hmax, Hmin, Hvv in Hrun. cbn in Hrun.
  destruct (read (typed_vtable (functional_typed f)) (user w) (store w))
    as [[value m']|]; cbn in Hrun; [|done].
  injection Hrun as <- <-. unfold transfer_structure. cbn.
  rewrite functional_canRead, functional_canWrite, Hsup, app_nil_r.
  done.
Qed.

(** ** [notify] with eventing on *)

(** X20.  With eventing on, [notify] on a readable characteristic reads
    the value once and reports that very value: to the host, with the
    back-reference and the event handle, and then to the listeners; the
    storage is as [read] left it. *)
Theorem notify_reports_the_value_read
    (this : payload) (w : World U) (c : Characteristic U)
    (b p : payload) (m' : memory) :
  characteristics w !! this = Some c ->
  canRead (vptr this) (user w) = true ->
  read (vptr this) (user w) (store w) = Some (p, m') ->
  event_handle c <> nullptr ->
  accessory_handle c = Some b ->
  exists w',
    notify vptr this w = Some (tt, w') /\
    trace w' =
      trace w ++ Ev_value_changed this p ::
      Ev_hap_event_response b (event_handle c) p ::
      listener_events this 0 (value_changed_listeners c) /\
    store w' = m' /\
    user w' = run_listeners this (value_changed_listeners c) (user w) /\
    characteristics w' = characteristics w.
Proof.
  intros Hc Hcan Hread Hev Hb. unfold notify, call_read. unfold_M.
  rewrite Hcan. cbn. rewrite Hread.
  rewrite (value_changed_emits this p (set_store m' w) c b Hc Hev Hb).
  by eexists.
Qed.

(** ** What no operation takes away *)

Lemma persists_refl (c : Characteristic U) : persists c c.
Proof. split; [done|]. exists []. by rewrite app_nil_r. Qed.

Lemma persists_trans (c1 c2 c3 : Characteristic U) :
  persists c1 c2 -> persists c2 c3 -> persists c1 c3.
Proof.
  intros [Ht1 [m1 Hl1]] [Ht2 [m2 Hl2]]. split; [congruence|].
  exists (m1 ++ m2). by rewrite Hl2, Hl1, <- app_assoc.
Qed.

Lemma same_objects_persist (w w' : World U) :
  characteristics w' = characteristics w ->
  forall this c, characteristics w !! this = Some c ->
                 exists c', characteristics w' !! this = Some c' /\
                            persists c c'.
Proof.
  intros -> this c Hc. exists c. split; [done|apply persists_refl].
Qed.

Lemma add_service_persist (this : payload) (ty : hap_service_type)
    (chars : list payload) (w w' : World U) :
  add_service vptr this ty chars w = Some (tt, w') ->
  forall x c, characteristics w !! x = Some c ->
              exists c', characteristics w' !! x = Some c' /\ persists c c'.
Proof.
  intros (a & l & before & after & _ & _ & _ & _ & Hcs & _)%add_service_frame
         x c Hc.
  rewrite Hcs, assign_all_lookup, Hc. case_decide.
  - eexists. split; [done|]. split; [done|]. exists []. cbn.
    by rewrite app_nil_r.
  - exists c. split; [done|apply persists_refl].
Qed.

Lemma run_init_persist (this : payload)
    (services : list (hap_service_type * list payload)) :
  forall w w' : World U,
    run_init vptr this services w = Some (tt, w') ->
    forall x c, characteristics w !! x = Some c ->
                exists c', characteristics w' !! x = Some c' /\
                           persists c c'.
Proof.
  induction services as [|[ty cs] rest IH]; intros w w' Hrun x c Hc.
  - cbn in Hrun. injection Hrun as <-. exists c.
    split; [done|apply persists_refl].
  - cbn [run_init] in Hrun.
    apply bind_Some in Hrun as ([] & w1 & H1 & H2).
    destruct (add_service_persist _ _ _ _ _ H1 x c Hc) as (c1 & Hc1 & Hp1).
    destruct (IH _ _ H2 x c1 Hc1) as (c2 & Hc2 & Hp2).
    exists c2. split; [done|]. by eapply persists_trans.
Qed.

Lemma run_op_persist (o : op U) (w w' : World U) :
  bridge_writes vptr ->
  run_op vptr hap_accessory_register_result hap_accessory_add_result o w
    = Some (tt, w') ->
  forall x c, characteristics w !! x = Some c ->
              exists c', characteristics w' !! x = Some c' /\ persists c c'.
Proof.
  intros Htyped. destruct o; cbn [run_op].
  - rewrite register_accessory_eq.
    destruct (accessories w !! this); [|done]. intros [= <-].
    by apply same_objects_persist.
  - unfold notify, call_read. unfold_M.
    destruct (canRead (vptr this) (user w)); cbn.
    + destruct (read (vptr this) (user w) (store w)) as [[p m]|]; [|done].
      intros (Hcs & _)%value_changed_frame. by apply same_objects_persist.
    + intros [= <-]. by apply same_objects_persist.
  - rewrite register_for_notifications_eq.
    destruct (characteristics w !! this) as [c0|] eqn:Hc0; [|done].
    intros [= <-] x c Hc. cbn.
    destruct (decide (x = this)) as [->|Hne].
    + rewrite lookup_insert_eq. eexists. split; [done|].
      rewrite Hc0 in Hc. injection Hc as <-. split; [done|]. by eexists.
    + rewrite lookup_insert_ne by done. exists c.
      split; [done|apply persists_refl].
  - unfold accessory_init. rewrite init_callback_eq.
    destruct (accessories w !! arg); [|done].
    intros Hrun x c Hc. by eapply run_init_persist.
  - unfold read_characteristic, call_read. unfold_M.
    destruct (read (vptr arg) (user w) (store w)) as [[p m]|]; [|done].
    intros [= <-]. by apply same_objects_persist.
  - unfold write_characteristic. destruct (Htyped arg) as [t ->].
    rewrite typed_write_eq.
    destruct (typed_apply t value (user w) (store w)) as [u'|]; [|done].
    intros (Hcs & _)%value_changed_frame. by apply same_objects_persist.
  - unfold set_characteristic_event_handle. rewrite set_event_handle_eq.
    destruct (characteristics w !! arg) as [c0|] eqn:Hc0; [|done].
    intros [= <-] x c Hc. cbn.
    destruct (decide (x = arg)) as [->|Hne].
    + rewrite lookup_insert_eq. eexists. split; [done|].
      rewrite Hc0 in Hc. injection Hc as <-. split; [done|].
      exists []. cbn. by rewrite app_nil_r.
    + rewrite lookup_insert_ne by done. exists c.
      split; [done|apply persists_refl].
Qed.

(** X18.  Nothing is ever taken away from a characteristic: in every run
    of a program whose characteristics write as the bridges do, whatever
    else their subclasses override, each object is still there at the end,
    with the type it was constructed with and with every listener it had,
    in the same positions; the bridge has no way to unregister a
    listener. *)
Theorem listeners_are_never_unregistered
    (w : World U) (os : list (op U)) (w' : World U) :
  bridge_writes vptr ->
  run vptr hap_accessory_register_result hap_accessory_add_result w os w' ->
  forall this c,
    characteristics w !! this = Some c ->
    exists c' more,
      characteristics w' !! this = Some c' /\
      c_type c' = c_type c /\
      value_changed_listeners c' = value_changed_listeners c ++ more /\
      forall i, listener_events this i (value_changed_listeners c') =
                listener_events this i (value_changed_listeners c) ++
                listener_events this (i + length (value_changed_listeners c))
                                more.
Proof.
  intros Htyped Hrun.
  assert (forall this c, characteristics w !! this = Some c ->
            exists c', characteristics w' !! this = Some c' /\ persists c c')
    as Hall.
  { induction Hrun as [|w o w1 os w2 Hp Hs _ IH]; intros this c Hc.
    - exists c. split; [done|apply persists_refl].
    - destruct (run_op_persist o w w1 Htyped Hs this c Hc) as (c1 & Hc1 & Hp1).
      destruct (IH this c1 Hc1) as (c2 & Hc2 & Hp2).
      exists c2. split; [done|]. by eapply persists_trans. }
  intros this c Hc. destruct (Hall this c Hc) as (c' & Hc' & Ht & more & Hl).
  exists c', more. do 3 (split; [done|]). intros i.
  by rewrite Hl, listener_events_app.
Qed.


(** ** The override probes of the float bridge *)

(** X21.  The float bridge encodes the value of an override probe whether
    or not the probe's flag announces an override: a subclass whose probe
    returns a value that [floatToVoid] cannot encode, a NaN or an infinity
    say, makes [get_characteristic_struct] undefined even with the flag
    [false].  When the structure is built, its maximum and minimum are the
    encodings of the probes' values, its flags are the probes' flags, and it
    has no valid-value array. *)
Theorem float_override_value_is_always_encoded
    (fc : FloatCharacteristic U) (this : payload) (w : World U) :
  vptr this = typed_vtable (TFloat fc) ->
  (floatToVoid (snd (get_max_value_override_float fc (user w))) = None \/
   floatToVoid (snd (get_min_value_override_float fc (user w))) = None ->
   get_characteristic_struct vptr this w = None) /\
  (forall s w',
      get_characteristic_struct vptr this w = Some (s, w') ->
      override_max_value s = fst (get_max_value_override_float fc (user w)) /\
      floatToVoid (snd (get_max_value_override_float fc (user w)))
        = Some (max_value s) /\
      override_min_value s = fst (get_min_value_override_float fc (user w)) /\
      floatToVoid (snd (get_min_value_override_float fc (user w)))
        = Some (min_value s) /\
      override_valid_values s = false /\ valid_values s = nullptr).
Proof.
  intros Hvt. rewrite get_characteristic_struct_eq, Hvt.
  cbn [typed_vtable get_max_value_override get_min_value_override
       get_valid_values_override FloatCharacteristic_vtable].
  unfold FloatCharacteristic_override. cbn zeta.
  destruct (characteristics w !! this) as [c|]; cbn [mbind option_bind];
    [|by split].
  destruct (floatToVoid (snd (get_max_value_override_float fc (user w))))
    as [pmax|]; cbn [mbind option_bind]; [|by split].
  destruct (floatToVoid (snd (get_min_value_override_float fc (user w))))
    as [pmin|]; cbn [mbind option_bind]; [|by split].
  split; [by intros [?|?]|]. intros s w'. cbn.
  destruct (FloatCharacteristic_read fc (user w) (store w))
    as [[value m']|]; [|done].
  by intros [= <- <-].
Qed.

(** ** The initial value of a textual characteristic *)

(** X22.  The dangling pointer of [StringCharacteristic::read] reaches the
    host: in the transfer structure that [get_characteristic_struct]
    builds for a textual characteristic, the initial value is a non-null
    address whose characters were released before the structure was
    complete. *)
Theorem textual_initial_value_dangles
    (sc : StringCharacteristic U) (this : payload) (w : World U)
    (s : hap_characteristic_ex) (w' : World U) :
  vptr this = typed_vtable (TString sc) ->
  get_characteristic_struct vptr this w = Some (s, w') ->
  is_Some (readString sc (user w)) /\
  initial_value s = address_of (length (store w)) /\
  initial_value s <> nullptr /\
  store w' = store w ++ [Freed] /\
  deref (store w') (initial_value s) = None /\
  c_string_at (store w') (initial_value s) = None.
Proof.
  intros Hvt. rewrite get_characteristic_struct_eq, Hvt.
  cbn [typed_vtable get_max_value_override get_min_value_override
       get_valid_values_override StringCharacteristic_vtable read fst snd].
  destruct (characteristics w !! this) as [c|]; cbn [mbind option_bind];
    [|done].
  rewrite string_read_eq.
  destruct (readString sc (user w)) as [str|]; cbn; [|done].
  intros [= <- <-]. cbn. split; [by eexists|]. split; [done|].
  split; [apply address_of_not_null|]. split; [done|].
  assert (deref (store w ++ [Freed]) (address_of (length (store w))) = None)
    as Hd.
  { rewrite deref_address_of, lookup_app_r by lia.
    by rewrite Nat.sub_diag. }
  split; [done|]. unfold c_string_at. by rewrite Hd.
Qed.

(** ** Where an event handle comes from *)

Lemma event_handle_provenance (this h : payload) (w w' : World U)
    (os : list (op U)) :
  bridge_writes vptr ->
  run vptr hap_accessory_register_result hap_accessory_add_result w os w' ->
  event_handle_of w' this = Some h ->
  h <> nullptr ->
  event_handle_of w this = Some h \/
  Host_set_characteristic_event_handle this h true ∈ os.
Proof.
  intros Htyped Hrun. induction Hrun as [|w o w1 os w2 Hp Hs _ IH];
    intros Hh Hne; [by left|].
  destruct (IH Hh Hne) as [Hw1|Hin]; [|right; by right].
  destruct (classic_set_event o) as [(arg & h' & en & ->)|Hother].
  - cbn [run_op] in Hs. unfold set_characteristic_event_handle in Hs.
    rewrite set_event_handle_eq in Hs.
    destruct (characteristics w !! arg) as [c|] eqn:Hc; [|done].
    injection Hs as <-. unfold event_handle_of in Hw1 |- *. cbn in Hw1.
    destruct (decide (this = arg)) as [->|Hna].
    + rewrite lookup_insert_eq in Hw1. cbn in Hw1. injection Hw1 as Hw1.
      destruct en; [|congruence]. subst h'. right. by left.
    + rewrite lookup_insert_ne in Hw1 by done. by left.
  - left. destruct (run_op_evolves o w w1 Htyped Hother Hs) as (He & _).
    by rewrite <- He.
Qed.

(** X23.  An event handle is never invented: in every run from process
    start of a program whose characteristics write as the bridges do, a
    characteristic holds a non-null event handle only if the host has
    enabled events on that very characteristic with that very handle; so
    the host is sent events only for what it subscribed to. *)
Theorem event_handles_come_from_the_host
    (w : World U) (os : list (op U)) (w' : World U)
    (this : payload) (c : Characteristic U) :
  bridge_writes vptr ->
  at_startup w ->
  run vptr hap_accessory_register_result hap_accessory_add_result w os w' ->
  characteristics w' !! this = Some c ->
  event_handle c <> nullptr ->
  Host_set_characteristic_event_handle this (event_handle c) true ∈ os /\
  is_Some (accessory_handle c).
Proof.
  intros Htyped Hstart Hrun Hc Hne. split.
  - destruct (event_handle_provenance this (event_handle c) w w' os
                Htyped Hrun) as [Hw|Hin]; [|done|..|done].
    { unfold event_handle_of. by rewrite Hc. }
    unfold event_handle_of in Hw. destruct Hstart as (_ & _ & Hfresh).
    destruct (characteristics w !! this) as [c0|] eqn:Hc0; [|done].
    destruct (Hfresh this c0 Hc0) as [He _]. cbn in Hw. congruence.
  - pose proof (safe_run w w' os Htyped (at_startup_safe w Hstart) Hrun)
      as [_ Hev].
    by apply (Hev this c).
Qed.


End Properties.

(** * The theorems at work on the example process *)

Import Example.

Lemma float_codec_round_trip_witness :
  (- codec_bound < 1234 < codec_bound) /\
  floatToVoid (voidToFloat (int_to_ptr 1234)) = Some (int_to_ptr 1234).
Proof.
  assert (- codec_bound < 1234 < codec_bound) as H
    by (unfold codec_bound; lia).
  split; [exact H|]. exact (proj1 (float_codec_round_trip 1234 H)).
Defined.

(** C1 as the spec states it fails: 167772.25 is exactly 16777225
    hundredths, the product with [100.0f] is rounded to 16777224, and that
    decodes to 167772.234375, which is 0.015625 away; and 65536.0234375, the
    float of 65536.02, is encoded as 6553603, which decodes to
    65536.03125. *)
Lemma float_codec_loses_large_hundredths :
  is_hundredths f_167772_25 16777225 /\
  floatToVoid f_167772_25 = Some 16777224 /\
  ~ roundtrip_within (1 # 200) f_167772_25 /\
  voidToFloat 6553602 = f_65536_02 /\
  floatToVoid f_65536_02 = Some 6553603 /\
  ~ roundtrip_within (1 # 200) f_65536_02.
Proof.
  split; [by vm_compute|]. split; [by vm_compute|]. split.
  { intros (p & Hp & Hle). vm_compute in Hp. injection Hp as <-.
    vm_compute in Hle. by apply Hle. }
  split; [by vm_compute|]. split; [by vm_compute|].
  intros (p & Hp & Hle). vm_compute in Hp. injection Hp as <-.
  vm_compute in Hle. by apply Hle.
Qed.


Lemma notify_listeners_iff_canRead_witness :
  characteristics startup !! 100 = Some (fresh_characteristic 1) /\
  exists w' delta,
    notify objects 100 startup = Some (tt, w') /\
    trace w' = trace startup ++ delta /\
    filter (fun e => is_listener_call e = true) delta = [Ev_listener 100 0] /\
    user w' = 8 /\
    (event_handle (fresh_characteristic 1) = nullptr ->
     forall e, e ∈ delta -> is_emit_event e = false).
Proof.
  assert (characteristics startup !! 100 = Some (fresh_characteristic 1))
    as H1 by reflexivity.
  split; [exact H1|].
  exact (notify_listeners_iff_canRead objects 100 startup
           (fresh_characteristic 1) H1
           (fun _ => ex_intro _ (7, store startup) eq_refl)
           (fun H => False_ind _ (H eq_refl))).
Defined.




Lemma startup_at_startup : at_startup startup.
Proof.
  split; [reflexivity|]. split; [reflexivity|].
  intros this c Hc. unfold startup in Hc. cbn in Hc.
  repeat (apply lookup_insert_Some in Hc as [[_ <-]|[_ Hc]]; [done|]).
  by rewrite lookup_empty in Hc.
Defined.

Lemma host_init_runs_exactly_once_witness :
  at_startup startup /\
  [200; 201; 200] <> [] /\
  (exists w' rest,
    run objects host_handle host_object startup
        (Call_register_accessory <$> [200; 201; 200]) w' /\
    trace w' = Ev_hap_initialized_set :: Ev_hap_init :: rest /\
    Forall (fun e => is_hap_init e = false /\ is_flag_set e = false) rest /\
    length (filter (fun e => is_register e = true) rest) = 3%nat /\
    hap_initialized w' = true) /\
  (exists w1,
     register_accessory host_handle 200 startup = Some (tt, w1) /\
     hap_initialized w1 = true /\
     trace w1 =
       [Ev_hap_initialized_set; Ev_hap_init; registration_event 200 lamp] /\
     a_accessory_handle <$> accessories w1 !! 200 =
       Some (host_handle (trace w1))).
Proof.
  assert (forall x, x ∈ [200; 201; 200] -> is_Some (accessories startup !! x))
    as H3.
  { intros x Hx.
    assert (x = 200 \/ x = 201) as [Hx'|Hx']; [|by subst; eexists..].
    repeat (apply elem_of_cons in Hx as [->|Hx]); auto.
    by apply elem_of_nil in Hx. }
  split; [exact startup_at_startup|]. split; [discriminate|].
  destruct (host_init_runs_exactly_once objects host_handle host_object
              [200; 201; 200] startup startup_at_startup
              (fun H => eq_ind [200; 201; 200]
                          (fun l => match l with [] => False | _ => True end)
                          I [] H)
              H3) as [Hall Hfirst].
  split; [exact Hall|]. exact (Hfirst 200 lamp eq_refl eq_refl).
Defined.

Lemma init_callback_installs_information_first_witness :
  accessories startup !! 200 = Some lamp /\
  exists object,
    init_callback objects host_object 200 startup =
      run_init objects 200 (init lamp)
        (information_installed host_object 200 lamp startup) /\
    trace (information_installed host_object 200 lamp startup) =
      trace startup ++ information_events lamp object /\
    filter (fun e => is_service e = true) (information_events lamp object) =
      [Ev_hap_service_and_characteristics_add
         (a_accessory_handle lamp) object HAP_SERVICE_ACCESSORY_INFORMATION
         (information_characteristics lamp) 6] /\
    hc_type <$> information_characteristics lamp = mandatory_types /\
    (forall w', init_callback objects host_object 200 startup
                = Some (tt, w') ->
                exists user_events,
                  trace w' = trace startup ++ information_events lamp object
                             ++ user_events) /\
    (init lamp = [] ->
     exists w', init_callback objects host_object 200 startup
                = Some (tt, w') /\
                trace w' = trace startup ++ information_events lamp object).
Proof.
  assert (accessories startup !! 200 = Some lamp) as H1 by reflexivity.
  split; [exact H1|].
  exact (init_callback_installs_information_first objects host_object 200
           startup lamp H1).
Defined.

Lemma objects_bridge_writes : bridge_writes objects.
Proof.
  intros this. unfold objects, typed_objects.
  destruct (this =? 102); [|destruct (this =? 101)].
  - by exists (TInt (IntFunctionCharacteristic int_closures)).
  - by exists (TString (StringFunctionCharacteristic name_closures)).
  - by exists (TInt (IntFunctionCharacteristic int_closures)).
Defined.

Lemma home_at_startup : at_startup home.
Proof.
  split; [reflexivity|]. split; [reflexivity|].
  exact (proj2 (proj2 startup_at_startup)).
Defined.

Lemma home_brought_up :
  { w' : World U | run objects host_handle host_object home bring_up w' }.
Proof.
  eexists. unfold bring_up.
  eapply run_step; [exact I|vm_compute; reflexivity|].
  eapply run_step; [|vm_compute; reflexivity|apply run_done].
  do 7 eexists. apply list_elem_of_lookup_2 with 2%nat. reflexivity.
Defined.

(** C8 as the spec states it fails: from process start, [notify] on the
    readable characteristic at 100 dispatches [value_changed] while the
    back-reference is unassigned; the accessory is registered afterwards,
    and only then does [add_service] assign the back-reference of that very
    characteristic and hand its structure to the host.  The dispatch is
    first in the trace, the assignment comes later. *)
Lemma value_changed_before_assignment :
  at_startup home /\
  exists w1 w',
    notify objects 100 home = Some (tt, w1) /\
    trace w1 = [Ev_value_changed 100 7; Ev_listener 100 0] /\
    back_reference w1 100 = None /\
    run objects host_handle host_object home (Call_notify 100 :: bring_up)
        w' /\
    take 2 (trace w') = [Ev_value_changed 100 7; Ev_listener 100 0] /\
    filter (fun e => is_dispatch e = true \/ is_assignment e = true)
           (trace w') =
      [Ev_value_changed 100 7; Ev_accessory_handle_set 100 1005;
       Ev_accessory_handle_set 101 1005] /\
    back_reference w' 100 = Some 1005 /\
    exists e s, trace w' !! 10%nat = Some e /\ s ∈ structs_given e /\
                callback_arg s = 100.
Proof.
  split; [exact home_at_startup|]. eexists _, _.
  split; [vm_compute; reflexivity|].
  split; [reflexivity|]. split; [reflexivity|].
  split.
  { eapply run_step; [exact I|vm_compute; reflexivity|].
    eapply run_step; [exact I|vm_compute; reflexivity|].
    eapply run_step; [|vm_compute; reflexivity|apply run_done].
    do 7 eexists. apply list_elem_of_lookup_2 with 4%nat. reflexivity. }
  split; [reflexivity|]. split; [by vm_compute|]. split; [by vm_compute|].
  eexists _, _. split; [reflexivity|].
  split; [apply list_elem_of_lookup_2 with 0%nat; reflexivity|reflexivity].
Qed.

Lemma back_reference_assigned_before_it_is_used_witness :
  (accessories startup !! 200 = Some lamp /\
   exists w',
     add_service objects 200 (HAP_SERVICE_number 9) ([100] ++ 102 :: [101])
       startup = Some (tt, w') /\
     exists hap_cs_array w_loop l1 w0 w1 s w2 l2 w_call released,
       new_array (BStructs 3) startup = Some (hap_cs_array, w_loop) /\
       fill_structs objects (a_accessory_handle lamp) [100] w_loop
         = Some (l1, w0) /\
       assign_accessory_handle 102 (a_accessory_handle lamp) w0
         = Some (tt, w1) /\
       trace w1 =
         trace w0 ++ [Ev_accessory_handle_set 102 (a_accessory_handle lamp)] /\
       back_reference w1 102 = Some (a_accessory_handle lamp) /\
       get_characteristic_struct objects 102 w1 = Some (s, w2) /\
       callback_arg s = 102 /\
       trace w2 =
         trace w1 ++ (if has_array s then [Ev_new (valid_values s)] else []) /\
       fill_structs objects (a_accessory_handle lamp) [101] w2
         = Some (l2, w_call) /\
       (exists later, trace w_call = trace w2 ++ later) /\
       trace w' =
         trace w_call ++
         Ev_hap_service_and_characteristics_ex_add
           (a_accessory_handle lamp) (accessory_object lamp)
           (HAP_SERVICE_number 9) (l1 ++ s :: l2) 3 :: released /\
       back_reference w' 102 = Some (a_accessory_handle lamp)) /\
  (bridge_writes objects /\ at_startup home /\
   exists w',
     run objects host_handle host_object home bring_up w' /\
     characteristics w' !! 102 = Some (fresh_characteristic 3) /\
     accessory_handle (fresh_characteristic 3) = None /\
     event_handle (fresh_characteristic 3) = nullptr /\
     forall value,
       exists w'',
         value_changed 102 value w' = Some (tt, w'') /\
         trace w'' = trace w' ++ Ev_value_changed 102 value ::
                     listener_events 102 0
                       (value_changed_listeners (fresh_characteristic 3)) /\
         user w'' =
           run_listeners 102
             (value_changed_listeners (fresh_characteristic 3)) (user w') /\
         characteristics w'' = characteristics w').
Proof.
  destruct (back_reference_assigned_before_it_is_used
              objects host_handle host_object) as [Horder Hguard].
  split.
  - split; [reflexivity|]. eexists.
    assert (add_service objects 200 (HAP_SERVICE_number 9)
              ([100] ++ 102 :: [101]) startup = Some (tt, _)) as H
      by (vm_compute; reflexivity).
    split; [exact H|].
    exact (Horder 200 (HAP_SERVICE_number 9) [100] 102 [101] startup _ lamp
             eq_refl H).
  - split; [exact objects_bridge_writes|]. split; [exact home_at_startup|].
    exists (proj1_sig home_brought_up).
    split; [exact (proj2_sig home_brought_up)|].
    assert (characteristics (proj1_sig home_brought_up) !! 102
            = Some (fresh_characteristic 3)) as Hc by (vm_compute; reflexivity).
    split; [exact Hc|]. split; [reflexivity|].
    exact (Hguard objects_bridge_writes home bring_up
             (proj1_sig home_brought_up) home_at_startup
             (proj2_sig home_brought_up) 102 (fresh_characteristic 3)
             Hc eq_refl).
Defined.

Lemma muted_run :
  run objects host_handle host_object muted
      [Call_notify 100; Call_register_for_notifications 100 None] muted_later.
Proof.
  eapply run_step; [exact I|reflexivity|].
  eapply run_step; [exact I|reflexivity|]. apply run_done.
Defined.

Lemma disabling_events_silences_the_host_path_witness :
  bridge_writes objects /\
  set_characteristic_event_handle 100 55 false listening = Some (tt, muted) /\
  run objects host_handle host_object muted
      [Call_notify 100; Call_register_for_notifications 100 None]
      muted_later /\
  event_handle_of muted 100 = Some nullptr /\
  exists c2,
    characteristics muted_later !! 100 = Some c2 /\
    event_handle c2 = nullptr /\
    forall value w',
      characteristics w' = characteristics muted_later ->
      exists w'',
        value_changed 100 value w' = Some (tt, w'') /\
        trace w'' = trace w' ++ Ev_value_changed 100 value ::
                    listener_events 100 0 (value_changed_listeners c2) /\
        Forall (fun e => is_emit_event e = false)
               (Ev_value_changed 100 value ::
                listener_events 100 0 (value_changed_listeners c2)) /\
        filter (fun e => is_listener_call e = true)
               (listener_events 100 0 (value_changed_listeners c2)) =
          listener_events 100 0 (value_changed_listeners c2) /\
        user w'' =
          run_listeners 100 (value_changed_listeners c2) (user w') /\
        characteristics w'' = characteristics w'.
Proof.
  assert (forall o : op U,
             o ∈ [Call_notify 100; Call_register_for_notifications 100 None] ->
             ~ enables 100 o) as Hquiet.
  { intros o Ho He.
    repeat (apply elem_of_cons in Ho as [->|Ho]; [exact He|]).
    by apply elem_of_nil in Ho. }
  split; [exact objects_bridge_writes|]. split; [reflexivity|].
  split; [exact muted_run|].
  exact (disabling_events_silences_the_host_path
           objects host_handle host_object 100 55 listening muted
           [Call_notify 100; Call_register_for_notifications 100 None]
           muted_later objects_bridge_writes eq_refl muted_run Hquiet).
Defined.

(** Writing the value the characteristic already has dispatches all the
    same. *)
Example write_same_value_still_dispatches :
  user startup = 7 /\
  (trace <$> (snd <$> write brightness 100 7 4 startup)) =
    Some [Ev_value_changed 100 7; Ev_listener 100 0].
Proof. split; reflexivity. Qed.

(** ["Kitchen Light"]: the address [read] returns holds no characters any
    more when [read] has returned. *)
Example kitchen_light_read_dangles :
  read light_name (user startup) (store startup)
    = Some (8, store startup ++ [Freed]) /\
  c_string_at (store startup ++ [Freed]) 8 = None.
Proof. split; reflexivity. Qed.

(** ** The further properties at work *)

Lemma int_value_survives_erasure_witness :
  readInt (IntFunctionCharacteristic int_closures) (-5) = Some (-5) /\
  exists p,
    read brightness (-5) (store startup) = Some (p, store startup) /\
    0 <= p < 2 ^ 32 /\
    ptr_to_int p = -5 /\
    typed_apply (TInt (IntFunctionCharacteristic int_closures)) p 0
      (store startup) = Some (-5) /\
    (forall q, 0 <= q < 2 ^ 32 -> ptr_to_int q = -5 -> q = p).
Proof.
  split; [reflexivity|].
  refine (int_value_survives_erasure
            (IntFunctionCharacteristic int_closures) (-5) 0 (store startup)
            (-5) eq_refl _).
  unfold int_min, int_max. split; by vm_compute.
Defined.

Lemma floatToVoid_defined_within_int_witness :
  floatToVoid f_21_5 = Some 2150 /\
  Float32.is_finite f_21_5 = true /\
  0 <= 2150 < 2 ^ 32 /\
  int_min <= ptr_to_int 2150 <= int_max /\
  Float32.to_int (Float32.round (Float32.mul f_21_5 Float32.hundred))
    = Some (ptr_to_int 2150) /\
  int_to_ptr (ptr_to_int 2150) = 2150.
Proof.
  assert (floatToVoid f_21_5 = Some 2150) as H by reflexivity.
  split; [exact H|]. exact (floatToVoid_defined_within_int f_21_5 2150 H).
Defined.

Lemma floatToVoid_is_odd_witness :
  floatToVoid f_21_5 = Some 2150 /\
  floatToVoid (float_opp f_21_5) = Some (int_to_ptr (- ptr_to_int 2150)) /\
  ptr_to_int (int_to_ptr (- ptr_to_int 2150)) = - ptr_to_int 2150.
Proof.
  assert (floatToVoid f_21_5 = Some 2150) as H by reflexivity.
  split; [exact H|]. apply (floatToVoid_is_odd f_21_5 2150 H).
  by vm_compute.
Defined.


Lemma listeners_run_in_registration_order_witness :
  characteristics startup !! 100 = Some (fresh_characteristic 1) /\
  exists w1 c1,
    run typed_objects host_handle host_object startup
        (Call_register_for_notifications 100 <$>
           [None; Some (fun _ u => u * 2)]) w1 /\
    characteristics w1 !! 100 = Some c1 /\
    value_changed_listeners c1 =
      value_changed_listeners (fresh_characteristic 1) ++
      [None; Some (fun _ u => u * 2)] /\
    trace w1 = trace startup /\ user w1 = user startup /\
    forall value, exists w2 delta,
      value_changed 100 value w1 = Some (tt, w2) /\
      trace w2 = trace w1 ++ delta /\
      filter (fun e => is_listener_call e = true) delta =
        [Ev_listener 100 0; Ev_listener 100 3] /\
      user w2 = (user w1 + 1) * 2.
Proof.
  split; [reflexivity|].
  exact (listeners_run_in_registration_order typed_objects host_handle
           host_object 100 [None; Some (fun _ u => u * 2)] startup
           (fresh_characteristic 1) eq_refl
           (fun H => False_ind _ (H eq_refl))).
Defined.

Lemma studio_at_startup : at_startup studio.
Proof.
  split; [reflexivity|]. split; [reflexivity|].
  exact (proj2 (proj2 startup_at_startup)).
Defined.

Lemma studio_brought_up :
  { w' : World U | run objects host_handle host_object studio bring_up w' }.
Proof.
  eexists. unfold bring_up.
  eapply run_step; [exact I|vm_compute; reflexivity|].
  eapply run_step; [|vm_compute; reflexivity|apply run_done].
  do 7 eexists. apply list_elem_of_lookup_2 with 2%nat. reflexivity.
Defined.


Lemma studio_read_permitted :
  permitted (U := U) (trace (proj1_sig studio_brought_up))
    (Host_read_characteristic 101).
Proof.
  eexists _, _. split.
  { apply list_elem_of_lookup_2 with 10%nat. reflexivity. }
  split; [apply list_elem_of_lookup_2 with 2%nat; reflexivity|].
  split; reflexivity.
Defined.

Lemma handed_structures_mirror_capabilities_witness :
  bridge_writes objects /\ at_startup studio /\
  exists w',
    run objects host_handle host_object studio bring_up w' /\
    forall e s,
      e ∈ trace w' -> s ∈ structs_given e ->
      (exists os1 o os2 w1 w2 delta,
          bring_up = os1 ++ o :: os2 /\
          run objects host_handle host_object studio os1 w1 /\
          run_op objects host_handle host_object o w1 = Some (tt, w2) /\
          trace w2 = trace w1 ++ delta /\ e ∈ delta /\
          mirrors objects (user w1) s) /\
      is_Some (back_reference w' (callback_arg s)).
Proof.
  split; [exact objects_bridge_writes|]. split; [exact studio_at_startup|].
  exists (proj1_sig studio_brought_up).
  split; [exact (proj2_sig studio_brought_up)|].
  exact (handed_structures_mirror_capabilities objects host_handle
           host_object studio bring_up (proj1_sig studio_brought_up)
           objects_bridge_writes studio_at_startup
           (proj2_sig studio_brought_up)).
Defined.


Lemma permitted_read_on_functional_returns_witness :
  bridge_writes objects /\ at_startup studio /\
  exists w',
    run objects host_handle host_object studio bring_up w' /\
    objects 101 = typed_vtable (functional_typed (FString name_closures)) /\
    permitted (U := U) (trace w') (Host_read_characteristic 101) /\
    supplier_set (FString name_closures) = true /\
    exists p w'',
      read_characteristic objects 101 w' = Some (p, w'') /\
      is_Some (readFunction name_closures) /\
      p = address_of (length (store w')).
Proof.
  split; [exact objects_bridge_writes|]. split; [exact studio_at_startup|].
  exists (proj1_sig studio_brought_up).
  split; [exact (proj2_sig studio_brought_up)|]. split; [reflexivity|].
  split; [exact studio_read_permitted|].
  exact (permitted_read_on_functional_returns objects host_handle
           host_object studio bring_up (proj1_sig studio_brought_up)
           (FString name_closures) 101
           objects_bridge_writes studio_at_startup
           (proj2_sig studio_brought_up) eq_refl studio_read_permitted
           (fun g r H => eq_ind (FString name_closures)
                           (fun f => match f with FFloat _ => _ | _ => True end)
                           I _ H)).
Defined.

Lemma write_only_characteristic_cannot_be_added_witness :
  objects_with_switch 103 =
    typed_vtable (functional_typed (FInt switch_closures)) /\
  supplier_set (FInt switch_closures) = false /\
  characteristics workshop !! 103 = Some (fresh_characteristic 4) /\
  accessories workshop !! 200 = Some lamp /\
  is_Some (get_max_value_override (objects_with_switch 103) (user workshop)) /\
  is_Some (get_min_value_override (objects_with_switch 103) (user workshop)) /\
  read (objects_with_switch 103) (user workshop) (store workshop) = None /\
  is_Some (add_service objects_with_switch 200 (HAP_SERVICE_number 9) [100]
             workshop) /\
  canRead (objects_with_switch 103) (user workshop) = false /\
  get_characteristic_struct objects_with_switch 103 workshop = None /\
  add_service objects_with_switch 200 (HAP_SERVICE_number 9) [100; 103]
    workshop = None /\
  notify objects_with_switch 103 workshop = Some (tt, workshop).
Proof.
  split; [reflexivity|]. split; [reflexivity|]. split; [reflexivity|].
  split; [reflexivity|]. split; [by eexists|]. split; [by eexists|].
  split; [reflexivity|]. split; [vm_compute; by eexists|].
  apply (write_only_characteristic_cannot_be_added objects_with_switch
           (FInt switch_closures) 200 103 (HAP_SERVICE_number 9) [100; 103]
           workshop eq_refl eq_refl).
  right. left.
Defined.

Lemma add_service_assigns_back_references_witness :
  accessories startup !! 200 = Some lamp /\
  exists w',
    add_service typed_objects 200 (HAP_SERVICE_number 9) [100; 101] startup
      = Some (tt, w') /\
    (forall ch, ch ∈ [100; 101] ->
                back_reference w' ch = Some (a_accessory_handle lamp) /\
                event_handle_of w' ch = event_handle_of startup ch) /\
    accessories w' = accessories startup /\ user w' = user startup.
Proof.
  split; [reflexivity|]. eexists.
  assert (add_service typed_objects 200 (HAP_SERVICE_number 9) [100; 101]
            startup = Some (tt, _)) as H by (vm_compute; reflexivity).
  split; [exact H|].
  pose proof (add_service_assigns_back_references typed_objects 200
                (HAP_SERVICE_number 9) [100; 101] startup _ lamp eq_refl H)
    as (_ & Hb & Ha & Hu & _).
  exact (conj Hb (conj Ha Hu)).
Defined.

Lemma empty_service_is_still_registered_witness :
  accessories startup !! 200 = Some lamp /\
  (trace <$> (snd <$> add_service typed_objects 200 (HAP_SERVICE_number 9)
                        [] startup)) =
  Some [Ev_new 8;
        Ev_hap_service_and_characteristics_ex_add nullptr nullptr
          (HAP_SERVICE_number 9) [] 0;
        Ev_delete 8].
Proof.
  split; [reflexivity|].
  rewrite (empty_service_is_still_registered typed_objects 200
             (HAP_SERVICE_number 9) startup lamp eq_refl).
  reflexivity.
Defined.

Lemma bring_up_registers_services_in_order_witness :
  accessories home !! 300 = Some thermostat /\
  exists w',
    init_callback typed_objects host_object 300 home = Some (tt, w') /\
    accessories w' !! 300 = Some (with_object thermostat 2001) /\
    (exists delta,
       trace w' = trace home ++ delta /\
       Forall (fun e => is_service e = true ->
                        service_target e = Some (nullptr, 2001)) delta /\
       omap service_type_of delta =
         [HAP_SERVICE_ACCESSORY_INFORMATION; HAP_SERVICE_number 9]) /\
    (forall ty chars ch,
        (ty, chars) ∈ init thermostat -> ch ∈ chars ->
        back_reference w' ch = Some nullptr).
Proof.
  split; [reflexivity|]. eexists.
  assert (init_callback typed_objects host_object 300 home = Some (tt, _))
    as H by (vm_compute; reflexivity).
  split; [exact H|].
  exact (bring_up_registers_services_in_order typed_objects host_object 300
           home _ thermostat eq_refl H).
Defined.

Lemma struct_internals_are_released_once_witness :
  exists w1,
    delete_characteristic_struct_internals structure_with_array startup
      = Some (tt, w1) /\
    is_Some (deref (store startup) 1) /\
    deref (store w1) 1 = None /\
    trace w1 = trace startup ++ [Ev_delete 1] /\
    delete_characteristic_struct_internals structure_with_array w1 = None.
Proof.
  eexists.
  assert (delete_characteristic_struct_internals structure_with_array startup
          = Some (tt, _)) as H by (vm_compute; reflexivity).
  split; [exact H|].
  apply (proj2 (struct_internals_are_released_once structure_with_array
                  startup) eq_refl); [|exact H].
  discriminate.
Defined.

Lemma hap_init_runs_at_most_once_in_any_run_witness :
  bridge_writes objects /\ at_startup studio /\
  exists w',
    run objects host_handle host_object studio bring_up w' /\
    hap_initialized w' = true /\
    filter (fun e => is_flag_set e = true \/ is_hap_init e = true) (trace w') =
      [Ev_hap_initialized_set; Ev_hap_init] /\
    (forall i e, trace w' !! i = Some e -> is_register e = true ->
                 started_before (trace w') i) /\
    length (filter (fun e => is_register e = true) (trace w')) = 1%nat.
Proof.
  split; [exact objects_bridge_writes|]. split; [exact studio_at_startup|].
  exists (proj1_sig studio_brought_up).
  split; [exact (proj2_sig studio_brought_up)|].
  exact (hap_init_runs_at_most_once_in_any_run objects host_handle
           host_object studio bring_up (proj1_sig studio_brought_up)
           objects_bridge_writes studio_at_startup
           (proj2_sig studio_brought_up)).
Defined.

Lemma functional_structure_has_no_overrides_witness :
  typed_objects 100 = typed_vtable (functional_typed (FInt int_closures)) /\
  exists s w',
    get_characteristic_struct typed_objects 100 startup = Some (s, w') /\
    supplier_set (FInt int_closures) = true /\
    read_fn s = Some read_characteristic_fn /\
    write_fn s = Some write_characteristic_fn /\
    event_fn s = Some set_characteristic_event_handle_fn /\
    override_max_value s = false /\ max_value s = nullptr /\
    override_min_value s = false /\ min_value s = nullptr /\
    override_valid_values s = false /\ valid_values s = nullptr /\
    valid_values_length s = 0 /\
    trace w' = trace startup /\
    delete_characteristic_struct_internals s w' = Some (tt, w').
Proof.
  split; [reflexivity|]. eexists _, _.
  assert (get_characteristic_struct typed_objects 100 startup = Some (_, _))
    as H by (vm_compute; reflexivity).
  split; [exact H|].
  exact (functional_structure_has_no_overrides typed_objects
           (FInt int_closures) 100 startup _ _ eq_refl H).
Defined.

Lemma listeners_are_never_unregistered_witness :
  bridge_writes objects /\
  characteristics studio !! 102 = Some (fresh_characteristic 3) /\
  exists w',
    run objects host_handle host_object studio bring_up w' /\
    exists c' more,
      characteristics w' !! 102 = Some c' /\
      c_type c' = c_type (fresh_characteristic 3) /\
      value_changed_listeners c' =
        value_changed_listeners (fresh_characteristic 3) ++ more /\
      forall i,
        listener_events 102 i (value_changed_listeners c') =
        listener_events 102 i
          (value_changed_listeners (fresh_characteristic 3)) ++
        listener_events 102
          (i + length (value_changed_listeners (fresh_characteristic 3)))
          more.
Proof.
  split; [exact objects_bridge_writes|]. split; [reflexivity|].
  exists (proj1_sig studio_brought_up).
  split; [exact (proj2_sig studio_brought_up)|].
  exact (listeners_are_never_unregistered objects host_handle
           host_object studio bring_up (proj1_sig studio_brought_up)
           objects_bridge_writes (proj2_sig studio_brought_up)
           102 (fresh_characteristic 3) eq_refl).
Defined.

Lemma notify_reports_the_value_read_witness :
  characteristics listening !! 100 = Some listening_brightness /\
  canRead (typed_objects 100) (user listening) = true /\
  read (typed_objects 100) (user listening) (store listening)
    = Some (7, store listening) /\
  exists w',
    notify typed_objects 100 listening = Some (tt, w') /\
    trace w' =
      trace listening ++ Ev_value_changed 100 7 ::
      Ev_hap_event_response 1001 55 7 ::
      listener_events 100 0 (value_changed_listeners listening_brightness) /\
    store w' = store listening /\
    user w' = run_listeners 100
                (value_changed_listeners listening_brightness)
                (user listening) /\
    characteristics w' = characteristics listening.
Proof.
  split; [reflexivity|]. split; [reflexivity|]. split; [reflexivity|].
  apply (notify_reports_the_value_read typed_objects 100 listening
           listening_brightness 1001 7 (store listening)
           eq_refl eq_refl eq_refl); [discriminate|reflexivity].
Defined.

Lemma float_override_value_is_always_encoded_witness :
  sensor_objects 100 = typed_vtable (TFloat unbounded_sensor) /\
  get_max_value_override_float unbounded_sensor (user startup)
    = (false, S754_infinity false) /\
  get_characteristic_struct sensor_objects 100 startup = None.
Proof.
  split; [reflexivity|]. split; [reflexivity|].
  exact (proj1 (float_override_value_is_always_encoded sensor_objects
                  unbounded_sensor 100 startup eq_refl)
           (or_introl eq_refl)).
Defined.

Lemma textual_initial_value_dangles_witness :
  typed_objects 101 =
    typed_vtable (TString (StringFunctionCharacteristic name_closures)) /\
  exists s w',
    get_characteristic_struct typed_objects 101 startup = Some (s, w') /\
    is_Some (readString (StringFunctionCharacteristic name_closures)
               (user startup)) /\
    initial_value s = address_of (length (store startup)) /\
    initial_value s <> nullptr /\
    store w' = store startup ++ [Freed] /\
    deref (store w') (initial_value s) = None /\
    c_string_at (store w') (initial_value s) = None.
Proof.
  split; [reflexivity|]. eexists _, _.
  assert (get_characteristic_struct typed_objects 101 startup = Some (_, _))
    as H by (vm_compute; reflexivity).
  split; [exact H|].
  exact (textual_initial_value_dangles typed_objects
           (StringFunctionCharacteristic name_closures) 101 startup _ _
           eq_refl H).
Defined.

Lemma studio_subscribed :
  { w' : World U | run objects host_handle host_object studio subscribe w' }.
Proof.
  eexists. unfold subscribe, bring_up. cbn [app].
  eapply run_step; [exact I|vm_compute; reflexivity|].
  eapply run_step; [|vm_compute; reflexivity|].
  { do 7 eexists. apply list_elem_of_lookup_2 with 2%nat. reflexivity. }
  eapply run_step; [|vm_compute; reflexivity|apply run_done].
  eexists _, _. split.
  { apply list_elem_of_lookup_2 with 10%nat. reflexivity. }
  split; [apply list_elem_of_lookup_2 with 0%nat; reflexivity|].
  split; reflexivity.
Defined.

Lemma event_handles_come_from_the_host_witness :
  bridge_writes objects /\ at_startup studio /\
  exists w' c,
    run objects host_handle host_object studio subscribe w' /\
    characteristics w' !! 100 = Some c /\
    event_handle c = 55 /\
    Host_set_characteristic_event_handle 100 (event_handle c) true
      ∈ subscribe /\
    is_Some (accessory_handle c).
Proof.
  split; [exact objects_bridge_writes|]. split; [exact studio_at_startup|].
  exists (proj1_sig studio_subscribed). eexists.
  split; [exact (proj2_sig studio_subscribed)|].
  assert (characteristics (proj1_sig studio_subscribed) !! 100 = Some _) as Hc
    by (vm_compute; reflexivity).
  split; [exact Hc|]. split; [reflexivity|].
  apply (event_handles_come_from_the_host objects host_handle
           host_object studio subscribe (proj1_sig studio_subscribed) 100 _
           objects_bridge_writes studio_at_startup
           (proj2_sig studio_subscribed) Hc).
  intros H. vm_compute in H. discriminate H.
Defined.
